(** * OCTIS hyper-parameter optimizer: a shallow embedding

    This development embeds two source files of the repository,

      - [evaluation_metrics/coherence_metrics.py]  (module [CoherenceMetrics])
      - [optimization/optimizer.py]                (the rest of the file)

    and proves properties of the optimization driver
    [Optimizer.Bayesian_optimization], of the objective adapter
    [Optimizer._objective_function] and of [Optimizer.optimize].

    Conventions.
      - Python [int] is [Z]; [bool] is [bool] (it is coerced with [Z.b2z]
        where the source uses a boolean as a number).
      - Metric scores are floats in the source.  The optimizer only negates
        and compares them, which is exact on floats, so they are modelled by
        rationals [Q].
      - Python dictionaries are [gmap string _]; lists are [list].
      - Effects (the iteration log, the pickle files, the module-level
        [default_parameters], standard output) are threaded through a state
        and exception monad [M]. *)

From stdpp Require Import gmap strings pretty sorting list.
From Stdlib Require Import QArith.

Open Scope string_scope.
Open Scope list_scope.
Open Scope Z_scope.

(* ===================================================================== *)
(** * Python outcomes *)
(* ===================================================================== *)

(** The exceptions that the embedded code can raise. *)
Inductive exn :=
  | Exception (msg : string)
  | IndexError
  | TypeError
  | ValueError
  | KeyError (key : string)
  | UnboundLocalError (name : string)
  | FileNotFoundError (path : string)
  | RuntimeError.

(** A call returns a value, raises, or (for the fuel-bounded [while] loops of
    the model) runs out of fuel. *)
Inductive outcome (A : Type) :=
  | Ok (a : A)
  | Raise (e : exn)
  | OutOfFuel.
Arguments Ok {A} a.
Arguments Raise {A} e.
Arguments OutOfFuel {A}.

(** [l[i]] on a Python list. *)
Definition getitem {A} (l : list A) (i : nat) : outcome A :=
  match l !! i with
  | Some a => Ok a
  | None => Raise IndexError
  end.

(** [str(i)] for a non-negative loop index. *)
Definition str (i : nat) : string := pretty i.

(* ===================================================================== *)
(** * evaluation_metrics/coherence_metrics.py *)
(* ===================================================================== *)

Module CoherenceMetrics.

(** A topic is the ordered list of its top words; [model_output[0]] is the
    list of topics. *)
Definition topic := list string.

(** The numeric part of every metric is computed by external libraries
    (gensim, numpy, scipy, scikit-learn) on floating point numbers.  It is
    taken as a parameter: one function per metric class, receiving the
    topics and the (unchanged) [topk].  Each may raise on its own. *)
Class Numerics := {
  texts_t : Type;
  keyed_vectors : Type;
  (* CoherenceModel(topics, texts, dictionary, coherence, topn).get_coherence() *)
  get_coherence : list topic → texts_t → string → Z → outcome Q;
  (* the body of the else branch of Coherence_word_embeddings.score *)
  mean_pair_similarity : keyed_vectors → list topic → Z → outcome Q;
  (* the body of the else branch of Coherence_word_embeddings_pairwise.score *)
  pairwise_cosine : keyed_vectors → list topic → Z → outcome Q;
  (* the body of the else branch of Coherence_word_embeddings_centroid.score *)
  centroid_cosine : keyed_vectors → list topic → Z → outcome Q;
}.

Definition too_few_words : exn :=
  Exception "Words in topics are less than topk".

Section Metrics.
Context `{Numerics}.

(** The four metric classes, with the attributes set by [__init__]. *)
Inductive coherence_metric :=
  | Coherence (topics : list topic) (texts : texts_t) (topk : Z)
              (measure : string)
  | Coherence_word_embeddings (topics : list topic) (topk : Z)
                              (wv : keyed_vectors)
  | Coherence_word_embeddings_pairwise (topics : list topic) (topk : Z)
                                       (wv : keyed_vectors)
  | Coherence_word_embeddings_centroid (topics : list topic) (topk : Z)
                                       (wv : keyed_vectors).

Definition topics_of (m : coherence_metric) : list topic :=
  match m with
  | Coherence t _ _ _ => t
  | Coherence_word_embeddings t _ _ => t
  | Coherence_word_embeddings_pairwise t _ _ => t
  | Coherence_word_embeddings_centroid t _ _ => t
  end.

Definition topk_of (m : coherence_metric) : Z :=
  match m with
  | Coherence _ _ k _ => k
  | Coherence_word_embeddings _ k _ => k
  | Coherence_word_embeddings_pairwise _ k _ => k
  | Coherence_word_embeddings_centroid _ k _ => k
  end.

(** [Coherence.score] *)
Definition Coherence_score (topics : list topic) (texts : texts_t)
    (topk : Z) (measure : string) : outcome Q :=
  match topics with
  | [] => Raise IndexError                       (* self.topics[0] *)
  | t0 :: _ =>
      if topk >? Z.of_nat (length t0) then Raise too_few_words
      else get_coherence topics texts measure topk
  end.

(** [Coherence_word_embeddings.score] *)
Definition Coherence_word_embeddings_score (topics : list topic)
    (topk : Z) (wv : keyed_vectors) : outcome Q :=
  match topics with
  | [] => Raise IndexError
  | t0 :: _ =>
      if topk >? Z.of_nat (length t0) then Raise too_few_words
      else mean_pair_similarity wv topics topk
  end.

(** [Coherence_word_embeddings_pairwise.score] *)
Definition Coherence_word_embeddings_pairwise_score (topics : list topic)
    (topk : Z) (wv : keyed_vectors) : outcome Q :=
  match topics with
  | [] => Raise IndexError
  | t0 :: _ =>
      if topk >? Z.of_nat (length t0) then Raise too_few_words
      else pairwise_cosine wv topics topk
  end.

(** [Coherence_word_embeddings_centroid.score] *)
Definition Coherence_word_embeddings_centroid_score (topics : list topic)
    (topk : Z) (wv : keyed_vectors) : outcome Q :=
  match topics with
  | [] => Raise IndexError
  | t0 :: _ =>
      if topk >? Z.of_nat (length t0) then Raise too_few_words
      else centroid_cosine wv topics topk
  end.

(** Method dispatch on the class of the metric. *)
Definition score (m : coherence_metric) : outcome Q :=
  match m with
  | Coherence t x k c => Coherence_score t x k c
  | Coherence_word_embeddings t k wv =>
      Coherence_word_embeddings_score t k wv
  | Coherence_word_embeddings_pairwise t k wv =>
      Coherence_word_embeddings_pairwise_score t k wv
  | Coherence_word_embeddings_centroid t k wv =>
      Coherence_word_embeddings_centroid_score t k wv
  end.

(** What the else branch of each [score] computes. *)
Definition computed_score (m : coherence_metric) : outcome Q :=
  match m with
  | Coherence t x k c => get_coherence t x c k
  | Coherence_word_embeddings t k wv => mean_pair_similarity wv t k
  | Coherence_word_embeddings_pairwise t k wv => pairwise_cosine wv t k
  | Coherence_word_embeddings_centroid t k wv => centroid_cosine wv t k
  end.
End Metrics.

End CoherenceMetrics.

(* ===================================================================== *)
(** * optimization/optimizer.py: data model *)
(* ===================================================================== *)

(** A hyper-parameter value (a point of a skopt dimension). *)
Inductive hval :=
  | HReal (q : Q)
  | HInt (z : Z)
  | HCat (s : string).

(** A candidate handed to the objective: a plain positional list. *)
Definition point := list hval.

(** A skopt search-space dimension. *)
Inductive dimension :=
  | Real (low high : Q)
  | Integer (low high : Z)
  | Categorical (choices : list string).

(** The three minimizers of scikit-optimize that the driver dispatches on. *)
Inductive skopt_minimizer := gp_minimize | forest_minimize | dummy_minimize.

Global Instance skopt_minimizer_eq_dec : EqDecision skopt_minimizer.
Proof. solve_decision. Defined.

(** scipy's [OptimizeResult] as the driver uses it: the evaluated points, the
    observed values, the best value [fun] and the best point [x]. *)
Record OptimizeResult := mk_OptimizeResult {
  x_iters : list point;
  func_vals : list Q;
  fun_ : Q;
  x_ : point;
}.

(** The callbacks that the driver hands to a minimizer. *)
Inductive callback :=
  | CheckpointSaver (checkpoint_path : string)
  | MyCustomEarlyStopper (n_stop : Z) (n_random_starts : Z).

(** Keyword arguments of a [dummy_minimize] / [forest_minimize] call.
    [dummy_minimize] takes no [n_random_starts].  The tuning arguments that
    the driver forwards untouched (acq_func, kernel, random_state, verbose,
    n_points, xi, kappa, n_jobs, model_queue_size, base_estimator) are left
    out: they only influence which point the library samples next. *)
Module Kw.
Record args := mk {
  n_calls : Z;
  n_random_starts : option Z;
  x0 : option (list point);
  y0 : option (list Q);
  callback : list callback;
}.
End Kw.

(** A [skopt.Optimizer] object: its constructor arguments and what it has
    been told so far. *)
Record skopt_optimizer := mk_skopt_optimizer {
  opt_n_random_starts : Z;
  opt_n_initial_points : Z;
  Xi : list point;
  yi : list Q;
}.

(** What the driver does to its collaborators, in program order.  The trial
    index [i] of the enclosing [for i in range(different_iteration)] loop is
    recorded with each minimizer invocation, and with the result the
    invocation returns. *)
Inductive event :=
  | Minimize (m : skopt_minimizer) (i : nat) (a : Kw.args)
  | GpRun (i : nat) (opt : skopt_optimizer) (n_iter : Z)
  | Load (path : string) (r : OptimizeResult)
  | LoadBO (handle : list string) (rs : list OptimizeResult)
  | DumpBO (save_name : string) (rs : list OptimizeResult)
  | Plot (name : string)
  | Returned (i : nat) (r : OptimizeResult).

(** One entry of [Optimizer._iterations]: the candidate and the dictionary
    of metric values recorded for it. *)
Definition iteration := (point * gmap string Q)%type.

(** External collaborators.  [dataset_t] and [model_output] are opaque to
    the optimizer.  The remaining fields stand for code that is not part of
    [optimizer.py]:
      - [ask]: the point a scikit-optimize minimizer samples next, given the
        kind of minimizer, its number of random starts and the history;
      - [stopper]: [MyCustomEarlyStopper(n_stop, n_random_starts)(result)]
        from [optimization/stopper.py];
      - [early_condition]: [tool.early_condition(result, n_stop,
        n_random_starts)] from [optimization/optimizer_tool.py];
      - [print_func_vals]: [tool.print_func_vals] from the same module. *)
Class Collaborators := {
  dataset_t : Type;
  model_output : Type;
  ask : skopt_minimizer → Z → list point → list Q → point;
  stopper : Z → Z → OptimizeResult → bool;
  early_condition : OptimizeResult → Z → Z → bool;
  print_func_vals : option (list OptimizeResult) → outcome unit;
}.

Section DataModel.
Context `{Collaborators}.

(** The model under optimization: [model.train_model(dataset, params,
    topk, topic_word_matrix, topic_document_matrix)]. *)
Record Model := mk_Model {
  train_model :
    dataset_t → gmap string hval → Z → bool → bool → outcome model_output;
}.

(** A metric object: [metric.__class__.__name__] and
    [metric.score(model_output)]. *)
Record Metric := mk_Metric {
  class_name : string;
  metric_score : model_output → outcome Q;
}.

(** The values stored in [default_parameters] and in
    [optimization_parameters]. *)
Inductive pyval :=
  | PNone
  | PBool (b : bool)
  | PInt (z : Z)
  | PFloat (q : Q)
  | PStr (s : string)
  | PMinimizer (m : skopt_minimizer)
  | PMetrics (l : list Metric)
  | PPoints (l : list (option (list point)))
  | PValues (l : list (option (list Q)))
  | PObject (id : nat).

(** The mutable state the program acts on.
    - [default_parameters]: the module-level dictionary;
    - [_iterations]: [self._iterations];
    - [files]: the pickle files on disk, by resolved path;
    - [trace]: the calls made to the collaborators;
    - [stdout]: what has been printed, call by call: the arguments of
      each [print], which Python renders with [str] and joins with
      blanks. *)
Record World := mk_World {
  default_parameters : gmap string pyval;
  _iterations : list iteration;
  files : gmap string OptimizeResult;
  trace : list event;
  stdout : list (list pyval);
}.

(** ** The state and exception monad *)

Definition M (A : Type) : Type := World → outcome A * World.

Definition ret {A} (a : A) : M A := λ w, (Ok a, w).

Definition bind {A B} (m : M A) (k : A → M B) : M B :=
  λ w, match m w with
       | (Ok a, w') => k a w'
       | (Raise e, w') => (Raise e, w')
       | (OutOfFuel, w') => (OutOfFuel, w')
       end.

Definition raise {A} (e : exn) : M A := λ w, (Raise e, w).

Definition lift {A} (o : outcome A) : M A := λ w, (o, w).

(** [print(s)] with a string literal. *)
Definition print (s : string) : M unit :=
  λ w, (Ok tt, mk_World (default_parameters w) (_iterations w) (files w)
                        (trace w) (stdout w ++ [[PStr s]])).

(** [print(arg, ..., arg)] *)
Definition print_args (args : list pyval) : M unit :=
  λ w, (Ok tt, mk_World (default_parameters w) (_iterations w) (files w)
                        (trace w) (stdout w ++ [args])).

Definition emit (e : event) : M unit :=
  λ w, (Ok tt, mk_World (default_parameters w) (_iterations w) (files w)
                        (trace w ++ [e]) (stdout w)).

Definition write_file (path : string) (r : OptimizeResult) : M unit :=
  λ w, (Ok tt, mk_World (default_parameters w) (_iterations w)
                        (<[path := r]> (files w)) (trace w) (stdout w)).

Definition read_file (path : string) : M OptimizeResult :=
  λ w, match files w !! path with
       | Some r => (Ok r, w)
       | None => (Raise (FileNotFoundError path), w)
       end.
End DataModel.

Global Arguments bind : simpl never.
Global Arguments ret : simpl never.
Global Arguments raise : simpl never.
Global Arguments lift : simpl never.
Global Arguments print : simpl never.
Global Arguments print_args : simpl never.
Global Arguments emit : simpl never.
Global Arguments write_file : simpl never.
Global Arguments read_file : simpl never.

Declare Scope monad_scope.
Delimit Scope monad_scope with monad.
Notation "x <- m ;; k" := (bind m (λ x, k))
  (at level 100, m at next level, right associativity) : monad_scope.
Notation "m ;;; k" := (bind m (λ _, k))
  (at level 100, right associativity) : monad_scope.
Open Scope monad_scope.

(* ===================================================================== *)
(** * The libraries the driver calls *)
(* ===================================================================== *)

(** ** File names *)

(** Resolution of a path against the working directory, as far as the names
    built by the driver need it: ["./p"] and ["p"] name the same file when
    [p] is relative, and an absolute path names itself. *)
Definition slash : Ascii.ascii :=
  Eval cbv in match "/" with String c _ => c | EmptyString => Ascii.zero end.
Definition dot : Ascii.ascii :=
  Eval cbv in match "." with String c _ => c | EmptyString => Ascii.zero end.

Fixpoint resolve_relative (path : string) : string :=
  match path with
  | String c rest =>
      if Ascii.eqb c slash then resolve_relative rest
      else if Ascii.eqb c dot then
        match rest with
        | String c' rest' =>
            if Ascii.eqb c' slash then resolve_relative rest' else path
        | EmptyString => path
        end
      else path
  | EmptyString => path
  end.

Definition resolve (path : string) : string :=
  match path with
  | String c _ => if Ascii.eqb c slash then path else resolve_relative path
  | EmptyString => path
  end.

(** ** Results *)

(** [np.argmin]: the first position holding the least value. *)
Fixpoint argmin_from (best_x : point) (best_y : Q)
    (xs : list point) (ys : list Q) : point * Q :=
  match xs, ys with
  | x :: xs', y :: ys' =>
      if Qle_bool best_y y then argmin_from best_x best_y xs' ys'
      else argmin_from x y xs' ys'
  | _, _ => (best_x, best_y)
  end.

(** [skopt.utils.create_result]; numpy refuses an empty history. *)
Definition create_result (xs : list point) (ys : list Q)
    : outcome OptimizeResult :=
  match xs, ys with
  | x :: xs', y :: ys' =>
      let '(bx, by_) := argmin_from x y xs' ys' in
      Ok (mk_OptimizeResult xs ys by_ bx)
  | _, _ => Raise ValueError
  end.

Section Libraries.
Context `{Collaborators}.

(** The objective handed to a minimizer.  It may raise, and the only state
    it acts on is the iteration log. *)
Definition objective_t : Type :=
  point → list iteration → outcome Q * list iteration.

Definition call_objective (f : objective_t) (p : point) : M Q :=
  λ w, let '(o, its) := f p (_iterations w) in
       (o, mk_World (default_parameters w) its (files w) (trace w)
                    (stdout w)).

Fixpoint mapM {A B} (g : A → M B) (l : list A) : M (list B) :=
  match l with
  | [] => ret []
  | a :: l' => b <- g a;; bs <- mapM g l';; ret (b :: bs)
  end.

(** ** skopt: dump, load, callbacks *)

(** [skopt.dump(res, path)] and [skopt.load(path)], on a store of files
    by resolved path: every directory that a path names is taken to
    exist. *)
Definition dump (r : OptimizeResult) (path : string) : M unit :=
  write_file (resolve path) r.

Definition load (path : string) : M OptimizeResult :=
  r <- read_file (resolve path);;
  emit (Load path r);;;
  ret r.

(** Calling a callback on the current result; the value is its stop
    decision.  A [CheckpointSaver] dumps the result and decides nothing. *)
Definition call_callback (c : callback) (r : OptimizeResult) : M bool :=
  match c with
  | CheckpointSaver path => dump r path;;; ret false
  | MyCustomEarlyStopper n_stop nrs => ret (stopper n_stop nrs r)
  end.

(** [skopt.callbacks]' evaluation of a callback list: every callback runs,
    and the run stops when one of them asks for it. *)
Fixpoint eval_callbacks (cbs : list callback) (r : OptimizeResult)
    : M bool :=
  match cbs with
  | [] => ret false
  | c :: cbs' =>
      d <- call_callback c r;;
      s <- eval_callbacks cbs' r;;
      ret (d || s)
  end.

(** ** skopt: [dummy_minimize] and [forest_minimize]

    Model of the common contract of the minimizers
    [run(objective, space, n_calls, x0, y0) -> OptimizeResult], which both
    implement by [base_minimize]: the arguments are checked, the prior
    observations [(x0, y0)] are replayed, then [n_calls] new points are
    sampled and evaluated; after every step the callbacks run on the result
    so far and may stop the run.  The search space is not part of the
    model, so the comparison of the points of [x0] with its dimension is
    left out. *)
Fixpoint minimize_loop (n : nat) (k : skopt_minimizer) (nrs : Z)
    (f : objective_t) (cbs : list callback)
    (xs : list point) (ys : list Q) : M OptimizeResult :=
  match n with
  | O => lift (create_result xs ys)
  | S n' =>
      let p := ask k nrs xs ys in
      y <- call_objective f p;;
      r <- lift (create_result (xs ++ [p]) (ys ++ [y]));;
      stop <- eval_callbacks cbs r;;
      if stop : bool then ret r
      else minimize_loop n' k nrs f cbs (xs ++ [p]) (ys ++ [y])
  end.

(** The number of random starts that reaches [base_minimize]:
    [dummy_minimize] computes it from [n_calls] ([n_calls - len(x0)] when
    only [x0] is given), [forest_minimize] passes its argument on, ten
    when it is left out. *)
Definition random_starts (k : skopt_minimizer) (a : Kw.args) : Z :=
  match k with
  | dummy_minimize =>
      match Kw.x0 a, Kw.y0 a with
      | Some xs, None => Kw.n_calls a - Z.of_nat (length xs)
      | _, _ => Kw.n_calls a
      end
  | _ => default 10 (Kw.n_random_starts a)
  end.

(** The checks of [base_minimize] on its arguments:
    [x0[0]] is read when [x0] is given;
    [n_random_starts <= 0 and not x0] is a [ValueError];
    [n_calls < n_random_starts + (len(x0) if not y0 else 0)] is a
    [ValueError]; and the optimizer refuses a negative
    [n_initial_points = n_random_starts + len(x0)]. *)
Definition check_arguments (k : skopt_minimizer) (a : Kw.args)
    : outcome unit :=
  let nrs := random_starts k a in
  match Kw.x0 a with
  | Some [] => Raise IndexError
  | x0 =>
      let xs := default [] x0 in
      if (nrs <=? 0) && bool_decide (xs = []) then Raise ValueError
      else
        let required_calls :=
          nrs + match Kw.y0 a with
                | None | Some [] => Z.of_nat (length xs)
                | Some _ => 0
                end in
        if Kw.n_calls a <? required_calls then Raise ValueError
        else if nrs + Z.of_nat (length xs) <? 0 then Raise ValueError
        else Ok tt
  end.

Definition base_minimize (k : skopt_minimizer) (f : objective_t)
    (a : Kw.args) : M OptimizeResult :=
  lift (check_arguments k a);;;
  let nrs := random_starts k a in
  match Kw.x0 a with
  | None | Some [] =>
      minimize_loop (Z.to_nat (Kw.n_calls a)) k nrs f (Kw.callback a) [] []
  | Some xs =>
      told <-
        match Kw.y0 a with
        | Some ys => ret (ys, Kw.n_calls a)
        | None =>
            (* only x0 given: it is evaluated first, out of the budget *)
            ys <- mapM (call_objective f) xs;;
            ret (ys, Kw.n_calls a - Z.of_nat (length xs))
        end;;
      let '(ys, n) := told in
      if negb (length xs =? length ys)%nat then raise ValueError
      else
        r <- lift (create_result xs ys);;
        stop <- eval_callbacks (Kw.callback a) r;;
        if stop : bool then ret r
        else minimize_loop (Z.to_nat n) k nrs f (Kw.callback a) xs ys
  end.

(** ** skopt: the [Optimizer] object used for the Gaussian process *)

(** [opt.tell(x, y)] with a list of points and a list of values. *)
Definition tell (opt : skopt_optimizer) (xs : list point) (ys : list Q)
    : outcome skopt_optimizer :=
  if (length xs =? length ys)%nat then
    Ok (mk_skopt_optimizer (opt_n_random_starts opt)
          (opt_n_initial_points opt) (Xi opt ++ xs) (yi opt ++ ys))
  else Raise ValueError.

(** [opt.ask()]: random points while initial points are left, then the
    point proposed by the fitted model.  A model is fitted by the [tell]
    that uses up the initial points, so an optimizer built without initial
    points that has been told nothing has no model: ["Random evaluations
    exhausted and no model has been fit."] *)
Definition ask_optimizer (opt : skopt_optimizer) : outcome point :=
  if (opt_n_initial_points opt <=? 0) && bool_decide (Xi opt = [])
  then Raise RuntimeError
  else Ok (ask gp_minimize (opt_n_initial_points opt) (Xi opt) (yi opt)).

(** [opt.run(func, n_iter)]: ask and tell [n_iter] times, then build the
    result from everything the optimizer was told. *)
Fixpoint run_loop (n : nat) (opt : skopt_optimizer) (f : objective_t)
    : M OptimizeResult :=
  match n with
  | O => lift (create_result (Xi opt) (yi opt))
  | S n' =>
      p <- lift (ask_optimizer opt);;
      y <- call_objective f p;;
      opt' <- lift (tell opt [p] [y]);;
      run_loop n' opt' f
  end.

Definition run (opt : skopt_optimizer) (f : objective_t) (n_iter : Z)
    : M OptimizeResult :=
  run_loop (Z.to_nat n_iter) opt f.

(** ** optimization/optimizer_tool.py *)

(** The checkpoint file of trial [i]. *)
Definition checkpoint_name (save_name : string) (i : nat) : string :=
  save_name +:+ "_" +:+ str i +:+ ".pkl".

(** Modelled from the spec: [tool.dump_BO] and [tool.load_BO] are not part
    of the embedded sources.  The checkpoint store keeps one file per
    trial, keyed by the base name and the trial index, holding the
    evaluated points and scores; loading returns exactly what was saved,
    and loading a file that was never saved is a fatal error.  The handle
    returned by [dump_BO] is the list of file names. *)
Fixpoint dump_each (rs : list OptimizeResult) (save_name : string)
    (i : nat) : M (list string) :=
  match rs with
  | [] => ret []
  | r :: rs' =>
      dump r (checkpoint_name save_name i);;;
      names <- dump_each rs' save_name (S i);;
      ret (checkpoint_name save_name i :: names)
  end.

Definition dump_BO (rs : list OptimizeResult) (save_name : string)
    : M (list string) :=
  emit (DumpBO save_name rs);;;
  dump_each rs save_name 0.

Definition load_BO (handle : list string) : M (list OptimizeResult) :=
  rs <- mapM (λ path, read_file (resolve path)) handle;;
  emit (LoadBO handle rs);;;
  ret rs.

(** [tool.plot_bayesian_optimization(res, name, log_scale_plot)], called
    under [if plot == True]. *)
Definition plot_if (plot : bool) (plot_name : string) : M unit :=
  if plot then emit (Plot (plot_name +:+ ".png")) else ret tt.
End Libraries.

(* ===================================================================== *)
(** * optimization/optimizer.py: [Optimizer._objective_function] *)
(* ===================================================================== *)

(** Sequencing of calls that may raise but touch no state. *)
Definition outcome_bind {A B} (o : outcome A) (k : A → outcome B)
    : outcome B :=
  match o with
  | Ok a => k a
  | Raise e => Raise e
  | OutOfFuel => OutOfFuel
  end.

Declare Scope outcome_scope.
Delimit Scope outcome_scope with outcome.
Notation "x <- m ;; k" := (outcome_bind m (λ x, k))
  (at level 100, m at next level, right associativity) : outcome_scope.

Section Objective.
Context `{Collaborators}.

(** An [Optimizer] instance: the attributes set by [__init__], and the
    attributes [optimize] sets before it starts the driver. *)
Record Optimizer := mk_Optimizer {
  model : Model;
  dataset : dataset_t;
  metric : Metric;
  search_space : gmap string dimension;
  optimization_parameters : gmap string pyval;
  hyperparameters : list string;
  extra_metrics : pyval;
  optimization_type : pyval;
}.

(** Class attributes of [Optimizer]. *)
Definition topk : Z := 10.
Definition topic_word_matrix : bool := true.
Definition topic_document_matrix : bool := true.

(** [for i in range(len(self.hyperparameters)):
       params[self.hyperparameters[i]] = hyperparameters[i]] *)
Fixpoint set_params (idx : list nat) (names : list string)
    (values : point) (params : gmap string hval)
    : outcome (gmap string hval) :=
  match idx with
  | [] => Ok params
  | i :: idx' =>
      (name <- getitem names i;;
       v <- getitem values i;;
       set_params idx' names values (<[name := v]> params))%outcome
  end.

Definition retrieve_params (names : list string) (values : point)
    : outcome (gmap string hval) :=
  set_params (seq 0 (length names)) names values ∅.

(** [while name in metrics_values: i += 1; name = extra_metric_name + " "
    + str(i)].  The loop is bounded by [fuel]. *)
Fixpoint while_name_taken (fuel : nat) (extra_metric_name : string)
    (i : nat) (name : string) (metrics_values : gmap string Q)
    : outcome string :=
  match metrics_values !! name with
  | None => Ok name
  | Some _ =>
      match fuel with
      | O => OutOfFuel
      | S fuel' =>
          while_name_taken fuel' extra_metric_name (S i)
            (extra_metric_name +:+ " " +:+ str (S i)) metrics_values
      end
  end.

(** The key under which an extra metric is recorded.  One more round than
    there are keys always suffices (see [metric_key_returns]). *)
Definition metric_key (extra_metric_name : string)
    (metrics_values : gmap string Q) : outcome string :=
  match metrics_values !! extra_metric_name with
  | None => Ok extra_metric_name
  | Some _ =>
      while_name_taken (size metrics_values) extra_metric_name 2
        (extra_metric_name +:+ " 2") metrics_values
  end.

(** Iterating over [self.extra_metrics]: a list of metric objects. *)
Definition as_metrics (v : pyval) : outcome (list Metric) :=
  match v with
  | PMetrics l => Ok l
  | _ => Raise TypeError
  end.

(** [for extra_metric in self.extra_metrics: ...] *)
Fixpoint score_extra_metrics (extra : list Metric) (out : model_output)
    (metrics_values : gmap string Q) : outcome (gmap string Q) :=
  match extra with
  | [] => Ok metrics_values
  | extra_metric :: extra' =>
      (name <- metric_key (class_name extra_metric) metrics_values;;
       v <- metric_score extra_metric out;;
       score_extra_metrics extra' out (<[name := v]> metrics_values))%outcome
  end.

(** Training the model on the named hyper-parameters and scoring its
    output: the metric score and the dictionary of metric values. *)
Definition score_model (self : Optimizer) (params : gmap string hval)
    : outcome (Q * gmap string Q) :=
  (model_output <- train_model (model self) (dataset self) params topk
                     topic_word_matrix topic_document_matrix;;
   result <- metric_score (metric self) model_output;;
   extra <- as_metrics (extra_metrics self);;
   metrics_values <- score_extra_metrics extra model_output
                       {[ class_name (metric self) := result ]};;
   Ok (result, metrics_values))%outcome.

(** Everything [_objective_function] does before it appends to the log. *)
Definition evaluate (self : Optimizer) (hyperparameters_ : point)
    : outcome (Q * gmap string Q) :=
  (params <- retrieve_params (hyperparameters self) hyperparameters_;;
   score_model self params)%outcome.

Definition is_Maximize (v : pyval) : bool :=
  match v with
  | PStr s => bool_decide (s = "Maximize")
  | _ => false
  end.

Definition _objective_function (self : Optimizer) : objective_t :=
  λ hyperparameters_ iterations,
    match evaluate self hyperparameters_ with
    | Ok (result, metrics_values) =>
        let iterations' :=
          iterations ++ [(hyperparameters_, metrics_values)] in
        if is_Maximize (optimization_type self)
        then (Ok (- result)%Q, iterations')
        else (Ok result, iterations')
    | Raise e => (Raise e, iterations)
    | OutOfFuel => (OutOfFuel, iterations)
    end.
End Objective.

(* ===================================================================== *)
(** * optimization/optimizer.py: [Optimizer.Bayesian_optimization] *)
(* ===================================================================== *)

Section Driver.
Context `{Collaborators}.

(** The arguments of [Bayesian_optimization] that its control flow reads.
    [minimizer] is whatever object the caller passed. *)
Record bo_args := mk_bo_args {
  minimizer : pyval;
  number_of_call : Z;
  different_iteration : Z;
  X0 : list (option (list point));
  Y0 : list (option (list Q));
  n_random_starts : Z;
  save : bool;
  save_step : Z;
  save_name : string;
  early_stop : bool;
  early_step : Z;
  plot : bool;
  plot_name : string;
}.

(** ** Python statements used by the driver *)

(** [for i in idx: s = body(i, s)] *)
Fixpoint for_loop {St} (idx : list nat) (body : nat → St → M St) (s : St)
    : M St :=
  match idx with
  | [] => ret s
  | i :: idx' => s' <- body i s;; for_loop idx' body s'
  end.

(** [for i in range(n)] *)
Definition for_range {St} (n : Z) (body : nat → St → M St) (s : St) : M St :=
  for_loop (seq 0 (Z.to_nat n)) body s.

(** [while number_of_call_r > 0: ...], bounded by [fuel]; the body returns
    the new value of [number_of_call_r]. *)
Fixpoint while_calls_left {St} (fuel : nat) (body : Z → St → M (Z * St))
    (number_of_call_r : Z) (s : St) : M St :=
  if number_of_call_r >? 0 then
    match fuel with
    | O => lift OutOfFuel
    | S fuel' =>
        rs <- body number_of_call_r s;;
        while_calls_left fuel' body rs.1 rs.2
    end
  else ret s.

(** [l[i] = v] *)
Definition setitem {A} (l : list A) (i : nat) (v : A) : M (list A) :=
  if bool_decide (i < length l)%nat then ret (<[i := v]> l)
  else raise IndexError.

(** [default_parameters[key]] *)
Definition default_parameter (key : string) : M pyval :=
  λ w, match default_parameters w !! key with
       | Some v => (Ok v, w)
       | None => (Raise (KeyError key), w)
       end.

Definition as_int (v : pyval) : outcome Z :=
  match v with
  | PInt z => Ok z
  | PBool b => Ok (Z.b2z b)
  | _ => Raise TypeError
  end.

(** [MyCustomEarlyStopper(n_stop=early_step,
      n_random_starts=default_parameters["n_random_starts"])] *)
Definition early_stopper (a : bo_args) : M callback :=
  v <- default_parameter "n_random_starts";;
  nrs <- lift (as_int v);;
  ret (MyCustomEarlyStopper (early_step a) nrs).

(** [callback=[checkpoint_saver[i], ...]]: the saver stored for trial
    [i]. *)
Definition saver_of (checkpoint_saver : list (option callback)) (i : nat)
    : M callback :=
  c <- lift (getitem checkpoint_saver i);;
  match c with
  | Some c => ret c
  | None => raise TypeError
  end.

(** [if x0[i] == None: len_x0 = 0 else: len_x0 = len(x0[i])] *)
Definition len_of (x0i : option (list point)) : Z :=
  match x0i with
  | None => 0
  | Some l => Z.of_nat (length l)
  end.

(** The minimizer calls, recorded in the trace with the trial index, and
    their results when they return. *)
Definition call_minimize (k : skopt_minimizer) (i : nat) (f : objective_t)
    (kw : Kw.args) : M OptimizeResult :=
  emit (Minimize k i kw);;;
  r <- base_minimize k f kw;;
  emit (Returned i r);;;
  ret r.

Definition call_run (i : nat) (opt : skopt_optimizer) (f : objective_t)
    (n_iter : Z) : M OptimizeResult :=
  emit (GpRun i opt n_iter);;;
  r <- run opt f n_iter;;
  emit (Returned i r);;;
  ret r.

(** The optimizer object that the constructor builds. *)
Definition new_optimizer (n m : Z) : skopt_optimizer :=
  mk_skopt_optimizer n m [] [].

(** [skopt_optimizer(bounds, base_estimator=gpr, n_random_starts=n,
      n_initial_points=m, ...)]: [n_random_starts] takes the place of
    [n_initial_points], and the constructor refuses a negative count.  The
    resumed chunks pass the constant [0], which it accepts: there the
    object is written [new_optimizer 0 0]. *)
Definition construct_optimizer (n m : Z) : outcome skopt_optimizer :=
  if n <? 0 then Raise ValueError else Ok (new_optimizer n m).

(** [if x0[i] != None and y0[i] != None: opt.tell(x0[i], y0[i])];
    the conjunction does not read [y0[i]] when [x0[i]] is [None]. *)
Definition tell_initial (opt : skopt_optimizer)
    (x0 : list (option (list point))) (y0 : list (option (list Q)))
    (i : nat) : M skopt_optimizer :=
  x0i <- lift (getitem x0 i);;
  match x0i with
  | None => ret opt
  | Some xs =>
      y0i <- lift (getitem y0 i);;
      match y0i with
      | None => ret opt
      | Some ys => lift (tell opt xs ys)
      end
  end.

(** The local variables [res] and [checkpoint_saver]. *)
Definition locals : Type :=
  (list OptimizeResult * list (option callback))%type.

(** The local variables of the early-stopping Gaussian-process branch:
    [res], [early_stop_flag] and the handle [checkpoint_saver]. *)
Definition gp_locals : Type :=
  (list OptimizeResult * list bool * list string)%type.
End Driver.

Section Branches.
Context `{Collaborators}.
Variable f : objective_t.
Variable a : bo_args.
Variable fuel : nat.
(** The local lists [x0] and [y0] of initial points and values. *)
Variable x0 : list (option (list point)).
Variable y0 : list (option (list Q)).

(** [save_name_t = save_name + "_" + str(i) + ".pkl";
     checkpoint_saver[i] = CheckpointSaver(save_name_t)] *)
Definition new_saver (checkpoint_saver : list (option callback)) (i : nat)
    : M (list (option callback)) :=
  setitem checkpoint_saver i
    (Some (CheckpointSaver (checkpoint_name (save_name a) i))).

(** [save_name_t = "./" + save_name + "_" + str(i) + ".pkl";
     checkpoint_saver_t = CheckpointSaver(save_name_t)] *)
Definition checkpoint_saver_t (i : nat) : callback :=
  CheckpointSaver ("./" +:+ checkpoint_name (save_name a) i).

(** [partial_res = load(save_name + "_" + str(i) + ".pkl")] *)
Definition restore (i : nat) : M OptimizeResult :=
  load (checkpoint_name (save_name a) i).

(** ** [if minimizer == dummy_minimize:] *)

(** [save == False and early_stop == False] *)
Definition dummy_plain (st : locals) : M locals :=
  st <- for_range (different_iteration a) (λ i '(res, checkpoint_saver),
      x0i <- lift (getitem x0 i);;
      y0i <- lift (getitem y0 i);;
      r <- call_minimize dummy_minimize i f
             (Kw.mk (number_of_call a) None x0i y0i []);;
      ret (res ++ [r], checkpoint_saver)) st;;
  plot_if (plot a) (plot_name a);;;
  ret st.

(** [(save_step >= number_of_call and save == True) and
     (early_step >= number_of_call or early_stop == False)] *)
Definition dummy_save_once (st : locals) : M locals :=
  st <- for_range (different_iteration a) (λ i '(res, checkpoint_saver),
      checkpoint_saver <- new_saver checkpoint_saver i;;
      x0i <- lift (getitem x0 i);;
      y0i <- lift (getitem y0 i);;
      saver <- saver_of checkpoint_saver i;;
      r <- call_minimize dummy_minimize i f
             (Kw.mk (number_of_call a) None x0i y0i [saver]);;
      ret (res ++ [r], checkpoint_saver)) st;;
  plot_if (plot a) (plot_name a);;;
  ret st.

(** [save == True and early_stop == False] *)
Definition dummy_save (st : locals) : M locals :=
  st <- for_range (different_iteration a) (λ i '(res, checkpoint_saver),
      checkpoint_saver <- new_saver checkpoint_saver i;;
      x0i <- lift (getitem x0 i);;
      y0i <- lift (getitem y0 i);;
      saver <- saver_of checkpoint_saver i;;
      r <- call_minimize dummy_minimize i f
             (Kw.mk (save_step a) None x0i y0i [saver]);;
      ret (res ++ [r], checkpoint_saver)) st;;
  plot_if (plot a) (plot_name a);;;
  while_calls_left fuel (λ number_of_call_r st,
      if number_of_call_r >=? save_step a then
        st <- for_range (different_iteration a)
          (λ i '(res, checkpoint_saver),
            partial_res <- restore i;;
            saver <- saver_of checkpoint_saver i;;
            r <- call_minimize dummy_minimize i f
                   (Kw.mk (save_step a) None
                      (Some (x_iters partial_res))
                      (Some (func_vals partial_res)) [saver]);;
            res <- setitem res i r;;
            checkpoint_saver <-
              setitem checkpoint_saver i (Some (checkpoint_saver_t i));;
            ret (res, checkpoint_saver)) st;;
        plot_if (plot a) (plot_name a);;;
        ret (number_of_call_r - save_step a, st)
      else
        st <- for_range (different_iteration a)
          (λ i '(res, checkpoint_saver),
            partial_res <- restore i;;
            saver <- saver_of checkpoint_saver i;;
            r <- call_minimize dummy_minimize i f
                   (Kw.mk number_of_call_r None
                      (Some (x_iters partial_res))
                      (Some (func_vals partial_res)) [saver]);;
            res <- setitem res i r;;
            ret (res, checkpoint_saver)) st;;
        plot_if (plot a) (plot_name a);;;
        ret (number_of_call_r - save_step a, st))
    (number_of_call a - save_step a) st.

(** [save == False and early_stop == True] *)
Definition dummy_early (st : locals) : M locals :=
  st <- for_range (different_iteration a) (λ i '(res, checkpoint_saver),
      x0i <- lift (getitem x0 i);;
      y0i <- lift (getitem y0 i);;
      stopper_ <- early_stopper a;;
      res_temp <- call_minimize dummy_minimize i f
             (Kw.mk (number_of_call a) None x0i y0i [stopper_]);;
      ret (res ++ [res_temp], checkpoint_saver)) st;;
  plot_if (plot a) (plot_name a);;;
  ret st.

(** [save == True and early_stop == True] *)
Definition dummy_save_early (st : locals) : M locals :=
  st <- for_range (different_iteration a) (λ i '(res, checkpoint_saver),
      checkpoint_saver <- new_saver checkpoint_saver i;;
      x0i <- lift (getitem x0 i);;
      y0i <- lift (getitem y0 i);;
      saver <- saver_of checkpoint_saver i;;
      stopper_ <- early_stopper a;;
      res_temp <- call_minimize dummy_minimize i f
             (Kw.mk (save_step a) None x0i y0i [saver; stopper_]);;
      ret (res ++ [res_temp], checkpoint_saver)) st;;
  plot_if (plot a) (plot_name a);;;
  st <- while_calls_left fuel (λ number_of_call_r st,
      if number_of_call_r >=? save_step a then
        st <- for_range (different_iteration a)
          (λ i '(res, checkpoint_saver),
            partial_res <- restore i;;
            saver <- saver_of checkpoint_saver i;;
            stopper_ <- early_stopper a;;
            r <- call_minimize dummy_minimize i f
                   (Kw.mk (save_step a) None
                      (Some (x_iters partial_res))
                      (Some (func_vals partial_res)) [saver; stopper_]);;
            res <- setitem res i r;;
            checkpoint_saver <-
              setitem checkpoint_saver i (Some (checkpoint_saver_t i));;
            ret (res, checkpoint_saver)) st;;
        plot_if (plot a) (plot_name a);;;
        ret (number_of_call_r - save_step a, st)
      else
        st <- for_range (different_iteration a)
          (λ i '(res, checkpoint_saver),
            partial_res <- restore i;;
            saver <- saver_of checkpoint_saver i;;
            stopper_ <- early_stopper a;;
            r <- call_minimize dummy_minimize i f
                   (Kw.mk number_of_call_r None
                      (Some (x_iters partial_res))
                      (Some (func_vals partial_res)) [saver; stopper_]);;
            res <- setitem res i r;;
            ret (res, checkpoint_saver)) st;;
        plot_if (plot a) (plot_name a);;;
        ret (number_of_call_r - save_step a, st))
    (number_of_call a - save_step a) st;;
  plot_if (plot a) (plot_name a);;;
  ret st.

(** ** [if minimizer == forest_minimize:] *)

(** [save == False and early_stop == False] *)
Definition forest_plain (st : locals) : M locals :=
  st <- for_range (different_iteration a) (λ i '(res, checkpoint_saver),
      x0i <- lift (getitem x0 i);;
      y0i <- lift (getitem y0 i);;
      r <- call_minimize forest_minimize i f
             (Kw.mk (number_of_call a) (Some (n_random_starts a))
                x0i y0i []);;
      ret (res ++ [r], checkpoint_saver)) st;;
  plot_if (plot a) (plot_name a);;;
  ret st.

(** [(save_step >= number_of_call and save == True) and
     (early_step >= number_of_call or early_stop == False)] *)
Definition forest_save_once (st : locals) : M locals :=
  st <- for_range (different_iteration a) (λ i '(res, checkpoint_saver),
      checkpoint_saver <- new_saver checkpoint_saver i;;
      x0i <- lift (getitem x0 i);;
      y0i <- lift (getitem y0 i);;
      saver <- saver_of checkpoint_saver i;;
      r <- call_minimize forest_minimize i f
             (Kw.mk (number_of_call a) (Some (n_random_starts a))
                x0i y0i [saver]);;
      ret (res ++ [r], checkpoint_saver)) st;;
  plot_if (plot a) (plot_name a);;;
  ret st.

(** [save == True and early_stop == False] *)
Definition forest_save (st : locals) : M locals :=
  st <- for_range (different_iteration a) (λ i '(res, checkpoint_saver),
      checkpoint_saver <- new_saver checkpoint_saver i;;
      x0i <- lift (getitem x0 i);;
      let len_x0 := len_of x0i in
      if save_step a >=? n_random_starts a + len_x0 then
        x0i <- lift (getitem x0 i);;
        y0i <- lift (getitem y0 i);;
        saver <- saver_of checkpoint_saver i;;
        r <- call_minimize forest_minimize i f
               (Kw.mk (save_step a) (Some (n_random_starts a))
                  x0i y0i [saver]);;
        ret (res ++ [r], checkpoint_saver)
      else
        x0i <- lift (getitem x0 i);;
        y0i <- lift (getitem y0 i);;
        saver <- saver_of checkpoint_saver i;;
        r <- call_minimize forest_minimize i f
               (Kw.mk (save_step a + n_random_starts a)
                  (Some (n_random_starts a)) x0i y0i [saver]);;
        ret (res ++ [r], checkpoint_saver)) st;;
  plot_if (plot a) (plot_name a);;;
  while_calls_left fuel (λ number_of_call_r st,
      if number_of_call_r >=? save_step a then
        st <- for_range (different_iteration a)
          (λ i '(res, checkpoint_saver),
            partial_res <- restore i;;
            saver <- saver_of checkpoint_saver i;;
            r <- call_minimize forest_minimize i f
                   (Kw.mk (save_step a) (Some 0)
                      (Some (x_iters partial_res))
                      (Some (func_vals partial_res)) [saver]);;
            res <- setitem res i r;;
            checkpoint_saver <-
              setitem checkpoint_saver i (Some (checkpoint_saver_t i));;
            ret (res, checkpoint_saver)) st;;
        plot_if (plot a) (plot_name a);;;
        ret (number_of_call_r - save_step a, st)
      else
        st <- for_range (different_iteration a)
          (λ i '(res, checkpoint_saver),
            partial_res <- restore i;;
            saver <- saver_of checkpoint_saver i;;
            r <- call_minimize forest_minimize i f
                   (Kw.mk number_of_call_r (Some 0)
                      (Some (x_iters partial_res))
                      (Some (func_vals partial_res)) [saver]);;
            res <- setitem res i r;;
            ret (res, checkpoint_saver)) st;;
        plot_if (plot a) (plot_name a);;;
        ret (number_of_call_r - save_step a, st))
    (number_of_call a - save_step a) st.

(** [save == False and early_stop == True] *)
Definition forest_early (st : locals) : M locals :=
  st <- for_range (different_iteration a) (λ i '(res, checkpoint_saver),
      x0i <- lift (getitem x0 i);;
      y0i <- lift (getitem y0 i);;
      stopper_ <- early_stopper a;;
      res_temp <- call_minimize forest_minimize i f
             (Kw.mk (number_of_call a) (Some (n_random_starts a))
                x0i y0i [stopper_]);;
      ret (res ++ [res_temp], checkpoint_saver)) st;;
  plot_if (plot a) (plot_name a);;;
  ret st.

(** [save == True and early_stop == True] *)
Definition forest_save_early (st : locals) : M locals :=
  st <- for_range (different_iteration a) (λ i '(res, checkpoint_saver),
      checkpoint_saver <- new_saver checkpoint_saver i;;
      x0i <- lift (getitem x0 i);;
      let len_x0 := len_of x0i in
      if save_step a >=? n_random_starts a + len_x0 then
        x0i <- lift (getitem x0 i);;
        y0i <- lift (getitem y0 i);;
        saver <- saver_of checkpoint_saver i;;
        stopper_ <- early_stopper a;;
        res_temp <- call_minimize forest_minimize i f
               (Kw.mk (save_step a) (Some (n_random_starts a))
                  x0i y0i [saver; stopper_]);;
        ret (res ++ [res_temp], checkpoint_saver)
      else
        x0i <- lift (getitem x0 i);;
        y0i <- lift (getitem y0 i);;
        saver <- saver_of checkpoint_saver i;;
        stopper_ <- early_stopper a;;
        res_temp <- call_minimize forest_minimize i f
               (Kw.mk (save_step a + n_random_starts a)
                  (Some (n_random_starts a)) x0i y0i [saver; stopper_]);;
        ret (res ++ [res_temp], checkpoint_saver)) st;;
  plot_if (plot a) (plot_name a);;;
  st <- while_calls_left fuel (λ number_of_call_r st,
      if number_of_call_r >=? save_step a then
        st <- for_range (different_iteration a)
          (λ i '(res, checkpoint_saver),
            partial_res <- restore i;;
            x0i <- lift (getitem x0 i);;
            let len_x0 := len_of x0i in
            saver <- saver_of checkpoint_saver i;;
            stopper_ <- early_stopper a;;
            r <- (if save_step a >=? len_x0 then
                    call_minimize forest_minimize i f
                      (Kw.mk (save_step a) (Some 0)
                         (Some (x_iters partial_res))
                         (Some (func_vals partial_res)) [saver; stopper_])
                  else
                    call_minimize forest_minimize i f
                      (Kw.mk (save_step a + len_x0) (Some 0)
                         (Some (x_iters partial_res))
                         (Some (func_vals partial_res))
                         [saver; stopper_]));;
            res <- setitem res i r;;
            checkpoint_saver <-
              setitem checkpoint_saver i (Some (checkpoint_saver_t i));;
            ret (res, checkpoint_saver)) st;;
        plot_if (plot a) (plot_name a);;;
        ret (number_of_call_r - save_step a, st)
      else
        st <- for_range (different_iteration a)
          (λ i '(res, checkpoint_saver),
            partial_res <- restore i;;
            x0i <- lift (getitem x0 i);;
            let len_x0 := len_of x0i in
            saver <- saver_of checkpoint_saver i;;
            stopper_ <- early_stopper a;;
            r <- (if save_step a >=? n_random_starts a + len_x0 then
                    call_minimize forest_minimize i f
                      (Kw.mk number_of_call_r (Some 0)
                         (Some (x_iters partial_res))
                         (Some (func_vals partial_res)) [saver; stopper_])
                  else
                    call_minimize forest_minimize i f
                      (Kw.mk (number_of_call_r + len_x0) (Some 0)
                         (Some (x_iters partial_res))
                         (Some (func_vals partial_res))
                         [saver; stopper_]));;
            res <- setitem res i r;;
            ret (res, checkpoint_saver)) st;;
        plot_if (plot a) (plot_name a);;;
        ret (number_of_call_r - save_step a, st))
    (number_of_call a - save_step a) st;;
  plot_if (plot a) (plot_name a);;;
  ret st.

(** ** [if minimizer == gp_minimize:] *)

(** [save == False and early_stop == False] *)
Definition gp_plain (res : list OptimizeResult)
    : M (list OptimizeResult) :=
  res <- for_range (different_iteration a) (λ i res,
      opt <- lift (construct_optimizer (n_random_starts a)
                     (n_random_starts a));;
      opt <- tell_initial opt x0 y0 i;;
      r <- call_run i opt f (number_of_call a);;
      ret (res ++ [r])) res;;
  plot_if (plot a) (plot_name a);;;
  ret res.

(** [(save_step >= number_of_call and save == True) and
     (early_step >= number_of_call or early_stop == False)] *)
Definition gp_save_once (res : list OptimizeResult)
    : M (list OptimizeResult) :=
  res <- for_range (different_iteration a) (λ i res,
      opt <- lift (construct_optimizer (n_random_starts a)
                     (n_random_starts a));;
      opt <- tell_initial opt x0 y0 i;;
      res_t <- call_run i opt f (number_of_call a);;
      ret (res ++ [res_t])) res;;
  checkpoint_saver <- dump_BO res (save_name a);;
  plot_if (plot a) (plot_name a);;;
  ret res.

(** [save == True and early_stop == False] *)
Definition gp_save (res : list OptimizeResult)
    : M (list OptimizeResult) :=
  res <- for_range (different_iteration a) (λ i res,
      opt <- lift (construct_optimizer (n_random_starts a)
                     (n_random_starts a));;
      opt <- tell_initial opt x0 y0 i;;
      res_t <- call_run i opt f (save_step a);;
      ret (res ++ [res_t])) res;;
  checkpoint_saver <- dump_BO res (save_name a);;
  plot_if (plot a) (plot_name a);;;
  st <- while_calls_left fuel (λ number_of_call_r '(res, checkpoint_saver),
      if number_of_call_r >=? save_step a then
        partial_res <- load_BO checkpoint_saver;;
        res <- for_range (different_iteration a) (λ i res,
            partial_res_i <- lift (getitem partial_res i);;
            let opt := new_optimizer 0 0 in
            opt <- lift (tell opt (x_iters partial_res_i)
                           (func_vals partial_res_i));;
            res_t <- call_run i opt f (save_step a);;
            setitem res i res_t) res;;
        checkpoint_saver <- dump_BO res (save_name a);;
        plot_if (plot a) (plot_name a);;;
        ret (number_of_call_r - save_step a, (res, checkpoint_saver))
      else
        partial_res <- load_BO checkpoint_saver;;
        res <- for_range (different_iteration a) (λ i res,
            partial_res_i <- lift (getitem partial_res i);;
            let opt := new_optimizer 0 0 in
            opt <- lift (tell opt (x_iters partial_res_i)
                           (func_vals partial_res_i));;
            res_t <- call_run i opt f number_of_call_r;;
            setitem res i res_t) res;;
        checkpoint_saver <- dump_BO res (save_name a);;
        plot_if (plot a) (plot_name a);;;
        ret (number_of_call_r - save_step a, (res, checkpoint_saver)))
    (number_of_call a - save_step a) (res, checkpoint_saver);;
  ret st.1.

(** [if tool.early_condition(res_t, early_step, n_random_starts):
       early_stop_flag[i] = True] *)
Definition flag_if_early (early_stop_flag : list bool) (i : nat)
    (res_t : OptimizeResult) : M (list bool) :=
  if early_condition res_t (early_step a) (n_random_starts a)
  then setitem early_stop_flag i true
  else ret early_stop_flag.

(** [save == False and early_stop == True].  The boolean [early_stop] is
    used as a number twice: as the number of iterations of a resumed
    [opt.run] and as the decrement of [number_of_call_r]. *)
Definition gp_early (res : list OptimizeResult)
    : M (list OptimizeResult) :=
  let early_stop_flag :=
    replicate (Z.to_nat (different_iteration a)) false in
  st <- for_range (different_iteration a) (λ i '(res, early_stop_flag),
      flag <- lift (getitem early_stop_flag i);;
      if negb flag then
        opt <- lift (construct_optimizer (n_random_starts a)
                       (n_random_starts a));;
        opt <- tell_initial opt x0 y0 i;;
        res_t <- call_run i opt f (early_step a);;
        early_stop_flag <- flag_if_early early_stop_flag i res_t;;
        ret (res ++ [res_t], early_stop_flag)
      else ret (res, early_stop_flag)) (res, early_stop_flag);;
  let '(res, early_stop_flag) := st in
  checkpoint_saver <- dump_BO res (save_name a);;
  plot_if (plot a) (plot_name a);;;
  st <- while_calls_left fuel
    (λ number_of_call_r '(res, early_stop_flag, checkpoint_saver),
      if number_of_call_r >=? early_step a then
        partial_res <- load_BO checkpoint_saver;;
        st <- for_range (different_iteration a)
          (λ i '(res, early_stop_flag),
            flag <- lift (getitem early_stop_flag i);;
            if negb flag then
              partial_res_i <- lift (getitem partial_res i);;
              let opt := new_optimizer 0 0 in
              opt <- lift (tell opt (x_iters partial_res_i)
                             (func_vals partial_res_i));;
              res_t <- call_run i opt f (Z.b2z (early_stop a));;
              early_stop_flag <- flag_if_early early_stop_flag i res_t;;
              res <- setitem res i res_t;;
              ret (res, early_stop_flag)
            else ret (res, early_stop_flag)) (res, early_stop_flag);;
        let '(res, early_stop_flag) := st in
        checkpoint_saver <- dump_BO res (save_name a);;
        plot_if (plot a) (plot_name a);;;
        ret (number_of_call_r - Z.b2z (early_stop a),
             (res, early_stop_flag, checkpoint_saver))
      else
        partial_res <- load_BO checkpoint_saver;;
        st <- for_range (different_iteration a)
          (λ i '(res, early_stop_flag),
            flag <- lift (getitem early_stop_flag i);;
            if negb flag then
              partial_res_i <- lift (getitem partial_res i);;
              let opt := new_optimizer 0 0 in
              opt <- lift (tell opt (x_iters partial_res_i)
                             (func_vals partial_res_i));;
              res_t <- call_run i opt f number_of_call_r;;
              early_stop_flag <- flag_if_early early_stop_flag i res_t;;
              res <- setitem res i res_t;;
              ret (res, early_stop_flag)
            else ret (res, early_stop_flag)) (res, early_stop_flag);;
        let '(res, early_stop_flag) := st in
        checkpoint_saver <- dump_BO res (save_name a);;
        plot_if (plot a) (plot_name a);;;
        ret (number_of_call_r - Z.b2z (early_stop a),
             (res, early_stop_flag, checkpoint_saver)))
    (number_of_call a - Z.b2z (early_stop a))
    (res, early_stop_flag, checkpoint_saver);;
  ret st.1.1.

(** [save == True and early_stop == True]: the first chunk calls
    [forest_minimize] and the resumed chunks call [dummy_minimize]. *)
Definition gp_save_early (st : locals) : M locals :=
  st <- for_range (different_iteration a) (λ i '(res, checkpoint_saver),
      checkpoint_saver <- new_saver checkpoint_saver i;;
      x0i <- lift (getitem x0 i);;
      y0i <- lift (getitem y0 i);;
      saver <- saver_of checkpoint_saver i;;
      stopper_ <- early_stopper a;;
      res_temp <- call_minimize forest_minimize i f
             (Kw.mk (save_step a) (Some (n_random_starts a))
                x0i y0i [saver; stopper_]);;
      ret (res ++ [res_temp], checkpoint_saver)) st;;
  plot_if (plot a) (plot_name a);;;
  st <- while_calls_left fuel (λ number_of_call_r st,
      if number_of_call_r >=? save_step a then
        st <- for_range (different_iteration a)
          (λ i '(res, checkpoint_saver),
            partial_res <- restore i;;
            saver <- saver_of checkpoint_saver i;;
            stopper_ <- early_stopper a;;
            r <- call_minimize dummy_minimize i f
                   (Kw.mk (save_step a) None
                      (Some (x_iters partial_res))
                      (Some (func_vals partial_res)) [saver; stopper_]);;
            res <- setitem res i r;;
            checkpoint_saver <-
              setitem checkpoint_saver i (Some (checkpoint_saver_t i));;
            ret (res, checkpoint_saver)) st;;
        plot_if (plot a) (plot_name a);;;
        ret (number_of_call_r - save_step a, st)
      else
        st <- for_range (different_iteration a)
          (λ i '(res, checkpoint_saver),
            partial_res <- restore i;;
            saver <- saver_of checkpoint_saver i;;
            stopper_ <- early_stopper a;;
            r <- call_minimize dummy_minimize i f
                   (Kw.mk number_of_call_r None
                      (Some (x_iters partial_res))
                      (Some (func_vals partial_res)) [saver; stopper_]);;
            res <- setitem res i r;;
            ret (res, checkpoint_saver)) st;;
        plot_if (plot a) (plot_name a);;;
        ret (number_of_call_r - save_step a, st))
    (number_of_call a - save_step a) st;;
  plot_if (plot a) (plot_name a);;;
  ret st.
End Branches.

Section Bayesian_optimization.
Context `{Collaborators}.

(** [minimizer == m] *)
Definition is_minimizer (v : pyval) (m : skopt_minimizer) : bool :=
  match v with
  | PMinimizer m' => bool_decide (m' = m)
  | _ => false
  end.

(** [X0 == [None]] *)
Definition is_list_of_None {A} (l : list (option A)) : bool :=
  match l with
  | [None] => true
  | _ => false
  end.

(** The line feed that Python writes ["\n"]. *)
Definition nl : string :=
  Eval cbv in String (Ascii.ascii_of_nat 10) EmptyString.

(** The [if / elif] chain on [save], [save_step], [early_stop] and
    [early_step], which is the same under each of the three minimizers. *)
Definition dispatch {A} (a : bo_args)
    (plain save_once save_only early_only save_early : A → M A)
    (st : A) : M A :=
  if negb (save a) && negb (early_stop a) then plain st
  else if (save_step a >=? number_of_call a) && save a
          && ((early_step a >=? number_of_call a) || negb (early_stop a))
  then save_once st
  else if save a && negb (early_stop a) then save_only st
  else if negb (save a) && early_stop a then early_only st
  else if save a && early_stop a then save_early st
  else print ("Not implemented " +:+ nl);;; ret st.

(** [if default_parameters["minimizer"] == m: minimizer_stringa = name]:
    the local variable after the statement, [None] while it is unbound. *)
Definition bind_stringa (m : skopt_minimizer) (name : string)
    (minimizer_stringa : option string) : M (option string) :=
  v <- default_parameter "minimizer";;
  ret (if is_minimizer v m then Some name else minimizer_stringa).

(** The three tests that bind [minimizer_stringa]. *)
Definition minimizer_stringa : M (option string) :=
  s <- bind_stringa gp_minimize "gp_minimize" None;;
  s <- bind_stringa dummy_minimize "random_minimize" s;;
  bind_stringa forest_minimize "forest_minimize" s.

(** Reading a local variable that may be unbound. *)
Definition local_variable (name : string) (v : option string) : M string :=
  match v with
  | Some s => ret s
  | None => raise (UnboundLocalError name)
  end.

(** The arguments of the [print] that writes the banner. *)
Definition banner_arguments (n_calls different_iteration n_random_starts
    : pyval) (minimizer_stringa : string) (acq_func kernel : pyval)
    : list pyval :=
  [PStr ("Bayesian optimization parameters:" +:+ nl +:+ "n_calls");
   n_calls;
   PStr (nl +:+ "different_iteration: "); different_iteration;
   PStr (nl +:+ "n_random_starts: "); n_random_starts;
   PStr (nl +:+ "minimizer: "); PStr minimizer_stringa;
   PStr (nl +:+ "acq_func: "); acq_func;
   PStr (nl +:+ "kernel: "); kernel].

(** The banner: the arguments of the [print] are evaluated from left to
    right, then printed. *)
Definition print_banner (minimizer_stringa : option string) : M unit :=
  n_calls <- default_parameter "n_calls";;
  different_iteration <- default_parameter "different_iteration";;
  n_random_starts <- default_parameter "n_random_starts";;
  name <- local_variable "minimizer_stringa" minimizer_stringa;;
  acq_func <- default_parameter "acq_func";;
  kernel <- default_parameter "kernel";;
  print_args
    (banner_arguments n_calls different_iteration n_random_starts name
       acq_func kernel).

Definition Bayesian_optimization (f : objective_t) (a : bo_args)
    (fuel : nat) : M (option (list OptimizeResult)) :=
  if number_of_call a <=? 0 then
    print "Error: number_of_call can't be <= 0";;;
    ret None
  else if different_iteration a <=? 2 then
    print "Error: different iteration should be 3 or more";;;
    ret None
  else
    let res : list OptimizeResult := [] in
    let checkpoint_saver : list (option callback) :=
      replicate (Z.to_nat (different_iteration a)) None in
    let x0 :=
      if is_list_of_None (X0 a)
      then replicate (Z.to_nat (different_iteration a)) None
      else X0 a in
    let y0 :=
      if is_list_of_None (Y0 a)
      then replicate (Z.to_nat (different_iteration a)) None
      else Y0 a in
    stringa <- minimizer_stringa;;
    print_banner stringa;;;
    print "------------------------------------------";;;
    st <- (if is_minimizer (minimizer a) dummy_minimize then
             dispatch a (dummy_plain f a x0 y0) (dummy_save_once f a x0 y0)
               (dummy_save f a fuel x0 y0) (dummy_early f a x0 y0)
               (dummy_save_early f a fuel x0 y0) (res, checkpoint_saver)
           else ret (res, checkpoint_saver));;
    st <- (if is_minimizer (minimizer a) forest_minimize then
             dispatch a (forest_plain f a x0 y0)
               (forest_save_once f a x0 y0) (forest_save f a fuel x0 y0)
               (forest_early f a x0 y0) (forest_save_early f a fuel x0 y0)
               st
           else ret st);;
    st <- (if is_minimizer (minimizer a) gp_minimize then
             dispatch a
               (λ st, res <- gp_plain f a x0 y0 st.1;; ret (res, st.2))
               (λ st, res <- gp_save_once f a x0 y0 st.1;; ret (res, st.2))
               (λ st, res <- gp_save f a fuel x0 y0 st.1;; ret (res, st.2))
               (λ st, res <- gp_early f a fuel x0 y0 st.1;; ret (res, st.2))
               (gp_save_early f a fuel x0 y0) st
           else ret st);;
    ret (Some st.1).
End Bayesian_optimization.

(* ===================================================================== *)
(** * optimization/optimizer.py: [Optimizer.optimize] *)
(* ===================================================================== *)

Section Optimize.
Context `{Collaborators}.

(** Modelled from the spec: [Best_evaluation] lives in
    [optimization/optimization_result.py], which is not part of the
    embedded sources.  The final report exposes the hyper-parameter names,
    the per-trial results, the iteration log and the name of the optimized
    metric; it is modelled by the record of the constructor's arguments. *)
Record Best_evaluation := mk_Best_evaluation {
  params_names : list string;
  optimized_result : option (list OptimizeResult);
  iters : list iteration;
  optimized_metric : string;
}.

(** [list(sorted(d.keys()))] *)
Definition sorted_keys {A} (d : gmap string A) : list string :=
  merge_sort String.le (elements (dom d)).

(** [self._iterations = []] *)
Definition reset_iterations : M unit :=
  λ w, (Ok tt, mk_World (default_parameters w) [] (files w) (trace w)
                        (stdout w)).

Definition get_iterations : M (list iteration) :=
  λ w, (Ok (_iterations w), w).

(** [default_parameters.update(d)]: the keys of [d] win. *)
Definition update_default_parameters (d : gmap string pyval) : M unit :=
  λ w, (Ok tt, mk_World (d ∪ default_parameters w) (_iterations w)
                        (files w) (trace w) (stdout w)).

(** Reading an argument of the expected type out of the dictionary.  A
    value of another type is outside the model and reported as a
    [TypeError]. *)
Definition as_bool (v : pyval) : outcome bool :=
  match v with
  | PBool b => Ok b
  | _ => Raise TypeError
  end.

Definition as_str (v : pyval) : outcome string :=
  match v with
  | PStr s => Ok s
  | _ => Raise TypeError
  end.

Definition as_points (v : pyval)
    : outcome (list (option (list point))) :=
  match v with
  | PPoints l => Ok l
  | _ => Raise TypeError
  end.

Definition as_values (v : pyval) : outcome (list (option (list Q))) :=
  match v with
  | PValues l => Ok l
  | _ => Raise TypeError
  end.

(** The keyword arguments of the call to [Bayesian_optimization]: the
    twenty-five entries of [default_parameters] are read in the order in
    which [optimize] writes them, every one a [KeyError] when the key is
    missing.  The driver's control flow then uses thirteen of them. *)
Definition read_arguments : M bo_args :=
  minimizer <- default_parameter "minimizer";;
  n_calls <- default_parameter "n_calls";;
  different_iteration <- default_parameter "different_iteration";;
  kernel <- default_parameter "kernel";;
  acq_func <- default_parameter "acq_func";;
  base_estimator <- default_parameter "base_estimator";;
  random_state <- default_parameter "random_state";;
  noise <- default_parameter "noise";;
  alpha <- default_parameter "alpha";;
  kappa <- default_parameter "kappa";;
  x0 <- default_parameter "x0";;
  y0 <- default_parameter "y0";;
  n_random_starts <- default_parameter "n_random_starts";;
  save <- default_parameter "save";;
  save_step <- default_parameter "save_step";;
  save_name <- default_parameter "save_name";;
  early_stop <- default_parameter "early_stop";;
  early_step <- default_parameter "early_step";;
  plot <- default_parameter "plot";;
  plot_name <- default_parameter "plot_name";;
  verbose <- default_parameter "verbose";;
  n_points <- default_parameter "n_points";;
  xi <- default_parameter "xi";;
  n_jobs <- default_parameter "n_jobs";;
  model_queue_size <- default_parameter "model_queue_size";;
  number_of_call <- lift (as_int n_calls);;
  different_iteration <- lift (as_int different_iteration);;
  X0 <- lift (as_points x0);;
  Y0 <- lift (as_values y0);;
  n_random_starts <- lift (as_int n_random_starts);;
  save <- lift (as_bool save);;
  save_step <- lift (as_int save_step);;
  save_name <- lift (as_str save_name);;
  early_stop <- lift (as_bool early_stop);;
  early_step <- lift (as_int early_step);;
  plot <- lift (as_bool plot);;
  plot_name <- lift (as_str plot_name);;
  ret (mk_bo_args minimizer number_of_call different_iteration X0 Y0
         n_random_starts save save_step save_name early_stop early_step
         plot plot_name).

(** [optimize_result[i].fun = - optimize_result[i].fun] and, for every
    [j], [optimize_result[i].func_vals[j] = - optimize_result[i].func_vals[j]]. *)
Definition negate_result (r : OptimizeResult) : OptimizeResult :=
  mk_OptimizeResult (x_iters r) ((λ v, - v)%Q <$> func_vals r)
    (- fun_ r)%Q (x_ r).

(** [if self.optimization_type == 'Maximize': for i in
    range(len(optimize_result)): ...]; [len(None)] is a [TypeError]. *)
Definition restore_sign (optimization_type_ : pyval)
    (optimize_result : option (list OptimizeResult))
    : outcome (option (list OptimizeResult)) :=
  if is_Maximize optimization_type_ then
    match optimize_result with
    | None => Raise TypeError
    | Some rs => Ok (Some (negate_result <$> rs))
    end
  else Ok optimize_result.

(** The instance once [optimize] has set [self.hyperparameters],
    [self.extra_metrics] and [self.optimization_type]. *)
Definition prepared (self : Optimizer) (extra_metrics_ : pyval)
    (optimization_type_ : pyval) : Optimizer :=
  mk_Optimizer (model self) (dataset self) (metric self)
    (search_space self) (optimization_parameters self)
    (sorted_keys (search_space self)) extra_metrics_ optimization_type_.

Definition optimize (self : Optimizer) (fuel : nat) : M Best_evaluation :=
  reset_iterations;;;
  update_default_parameters (optimization_parameters self);;;
  extra_metrics_ <- default_parameter "extra_metrics";;
  optimization_type_ <- default_parameter "optimization_type";;
  let self := prepared self extra_metrics_ optimization_type_ in
  a <- read_arguments;;
  optimize_result <- Bayesian_optimization (_objective_function self) a fuel;;
  optimize_result <- lift (restore_sign optimization_type_ optimize_result);;
  lift (print_func_vals optimize_result);;;
  its <- get_iterations;;
  ret (mk_Best_evaluation (hyperparameters self) optimize_result its
         (class_name (metric self))).
End Optimize.

(* ===================================================================== *)
(** * evaluation_metrics/coherence_metrics.py: the embedding scores *)
(* ===================================================================== *)

(** A finer model of [Coherence_word_embeddings.score] and
    [Coherence_word_embeddings_pairwise.score], whose loops are written in
    Python.  The calls into gensim, numpy and scikit-learn at their leaves
    are parameters. *)

(** [l[0:k]]: the first [k] elements, or all but the last [-k] when [k] is
    negative. *)
Definition slice_to {A} (k : Z) (l : list A) : list A :=
  if 0 <=? k then take (Z.to_nat k) l
  else take (length l - Z.to_nat (- k)) l.

(** [itertools.combinations(l, 2)] *)
Fixpoint combinations2 {A} (l : list A) : list (A * A) :=
  match l with
  | [] => []
  | x :: l' => (pair x <$> l') ++ combinations2 l'
  end.

Section Embedding_scores.
(** Floats and vectors of numpy, the vocabulary and the vectors of the
    gensim [KeyedVectors], and the numeric library calls. *)
Variables (F vec : Type).
Variable in_vocab : string → bool.            (* word in self.wv.vocab *)
Variable similarity : string → string → F.    (* self.wv.similarity *)
Variable np_mean : list F → F.                (* np.mean *)
Variable getitem_wv : string → vec.           (* self.wv.__getitem__ *)
Variable normalize : vec → vec.               (* v / v.sum() *)
(* np.sum(pairwise_distances(np.array(E), metric='cosine')) *)
Variable sum_pairwise_distances : list vec → outcome F.
Variable fdiv : F → Z → F.                    (* x / n *)
Variable fadd : F → F → F.                    (* x + y *)
Variable fzero : F.                           (* 0.0 *)

(** [Coherence_word_embeddings.score]: the similarities collected for one
    topic. *)
Definition local_simi (topk : Z) (topic : list string) : list F :=
  omap (λ p : string * string,
          if in_vocab p.1 && in_vocab p.2
          then Some (similarity p.1 p.2) else None)
    (combinations2 (slice_to topk topic)).

(** The list [arrays]: one mean per topic that is not empty. *)
Definition arrays (topk : Z) (topics : list (list string)) : list F :=
  omap (λ topic, match topic with
                 | [] => None
                 | _ => Some (np_mean (local_simi topk topic))
                 end) topics.

Definition word_embeddings_score (topics : list (list string)) (topk : Z)
    : outcome F :=
  match topics with
  | [] => Raise IndexError                       (* self.topics[0] *)
  | t0 :: _ =>
      if topk >? Z.of_nat (length t0)
      then Raise CoherenceMetrics.too_few_words
      else Ok (np_mean (arrays topk topics))
  end.

(** [Coherence_word_embeddings_pairwise.score]: the matrix [E] of a
    topic. *)
Definition embeddings (topk : Z) (topic : list string) : list vec :=
  omap (λ word, if in_vocab word
                then Some (normalize (getitem_wv word)) else None)
    (slice_to topk topic).

(** [for topic in self.topics: ...; result += topic_coherence] *)
Fixpoint pairwise_loop (topk : Z) (topics : list (list string))
    (result : F) : outcome F :=
  match topics with
  | [] => Ok result
  | topic :: rest =>
      (distances <- sum_pairwise_distances (embeddings topk topic);;
       let topic_coherence := fdiv distances (2 * topk * (topk - 1)) in
       pairwise_loop topk rest (fadd result topic_coherence))%outcome
  end.

Definition pairwise_score (topics : list (list string)) (topk : Z)
    : outcome F :=
  match topics with
  | [] => Raise IndexError
  | t0 :: _ =>
      if topk >? Z.of_nat (length t0)
      then Raise CoherenceMetrics.too_few_words
      else
        (result <- pairwise_loop topk topics fzero;;
         Ok (fdiv result (Z.of_nat (length topics))))%outcome
  end.
End Embedding_scores.

(* ===================================================================== *)
(** * Specification vocabulary *)
(* ===================================================================== *)

Section Vocabulary.
Context `{Collaborators}.

(** [steps R m]: from any world, running [m] ends in a world related to
    the initial one by [R], whatever the outcome. *)
Definition steps (R : relation World) {A} (m : M A) : Prop :=
  ∀ w, R w (m w).2.

(** Code that neither calls a traced collaborator nor touches the
    defaults. *)
Definition quiet : relation World :=
  λ w w', trace w' = trace w ∧ default_parameters w' = default_parameters w.

(** The module-level dictionary is left as it is. *)
Definition same_defaults : relation World :=
  λ w w', default_parameters w' = default_parameters w.

(** The trace grows by a list of events satisfying [Q]. *)
Definition emits (Q : list event → Prop) : relation World :=
  λ w w', ∃ evs, trace w' = trace w ++ evs ∧ Q evs.

(** A property of event lists that holds of the empty list and is kept by
    concatenation. *)
Class Segment (Q : list event → Prop) : Prop := {
  segment_nil : Q [];
  segment_app : ∀ e1 e2, Q e1 → Q e2 → Q (e1 ++ e2);
}.

(** The two kinds of trace events the resumption protocol is about. *)
Definition is_load (e : event) : Prop :=
  match e with
  | Load _ _ | LoadBO _ _ => True
  | _ => False
  end.

Definition is_chunk (e : event) : Prop :=
  match e with
  | Minimize _ _ _ | GpRun _ _ _ => True
  | _ => False
  end.

(** The history [(xs, ys)] is what an earlier event of [ctx] loaded from
    the checkpoint of trial [i]. *)
Definition restored_from (save_name_ : string) (ctx : list event)
    (i : nat) (xs : list point) (ys : list Q) : Prop :=
  (∃ r, Load (checkpoint_name save_name_ i) r ∈ ctx
        ∧ x_iters r = xs ∧ func_vals r = ys)
  ∨ (∃ handle rs r, LoadBO handle rs ∈ ctx ∧ rs !! i = Some r
        ∧ x_iters r = xs ∧ func_vals r = ys).

(** What a resumed chunk looks like, given the events [ctx] before it:
    a tree-ensemble call gets no random starts; a Gaussian-process run is
    issued on an optimizer built with no random starts and no initial
    points; in both cases the minimizer starts from a restored history
    (passed as [x0], [y0], or told to the optimizer before the run). *)
Definition resumed_chunk (save_name_ : string) (ctx : list event)
    (e : event) : Prop :=
  match e with
  | Minimize k i kw =>
      (k = forest_minimize → Kw.n_random_starts kw = Some 0)
      ∧ ∃ xs ys, Kw.x0 kw = Some xs ∧ Kw.y0 kw = Some ys
                 ∧ restored_from save_name_ ctx i xs ys
  | GpRun i opt _ =>
      opt_n_random_starts opt = 0 ∧ opt_n_initial_points opt = 0
      ∧ restored_from save_name_ ctx i (Xi opt) (yi opt)
  | _ => True
  end.

(** No event of the list loads a checkpoint. *)
Definition no_load (evs : list event) : Prop :=
  Forall (λ e, ¬ is_load e) evs.

(** The trial a chunk belongs to, and the trials of the chunks of a list of
    events, in order. *)
Definition trial_of (e : event) : option nat :=
  match e with
  | Minimize _ i _ | GpRun i _ _ => Some i
  | _ => None
  end.

Definition trials (evs : list event) : list nat := omap trial_of evs.

(** The events of one round of the first pass: no load, and at most one
    chunk, which belongs to trial [i]. *)
Definition chunk_of (i : nat) (evs : list event) : Prop :=
  no_load evs ∧ (trials evs = [] ∨ trials evs = [i]).

(** The events of the first pass: no load, and at most one chunk per
    trial. *)
Definition first_pass (evs : list event) : Prop :=
  no_load evs ∧ NoDup (trials evs).

(** [e] is a chunk, and not the first chunk of its trial among the events
    [pre] before it. *)
Definition later_chunk (pre : list event) (e : event) : Prop :=
  match trial_of e with
  | Some i => i ∈ trials pre
  | None => False
  end.

(** A resumed chunk: a chunk after the first of its trial, or one that
    comes after a checkpoint has been loaded. *)
Definition resumed (pre : list event) (e : event) : Prop :=
  later_chunk pre e ∨ Exists is_load pre.

(** Every chunk of the list is a resumed chunk with respect to [ctx] and
    the events of the list before it. *)
Definition all_resumed (save_name_ : string) (ctx evs : list event)
    : Prop :=
  ∀ pre e post, evs = pre ++ e :: post →
    resumed_chunk save_name_ (ctx ++ pre) e.

(** Every resumed chunk of the list has the shape of a resumed chunk. *)
Definition resumes_from_checkpoints (save_name_ : string)
    (evs : list event) : Prop :=
  ∀ pre e post, evs = pre ++ e :: post → resumed pre e →
    resumed_chunk save_name_ pre e.

(** The sizes of the chunks run for trial [i], in order. *)
Definition chunk_sizes (i : nat) (evs : list event) : list Z :=
  omap (λ e, match e with
             | Minimize _ j kw =>
                 if bool_decide (j = i) then Some (Kw.n_calls kw) else None
             | GpRun j _ n =>
                 if bool_decide (j = i) then Some n else None
             | _ => None
             end) evs.

(** The library function behind each chunk, in order ([None] stands for
    [Optimizer.run] on a Gaussian-process optimizer). *)
Definition callees (evs : list event) : list (option skopt_minimizer) :=
  omap (λ e, match e with
             | Minimize k _ _ => Some (Some k)
             | GpRun _ _ _ => Some None
             | _ => None
             end) evs.

(** An event that is not a call of [dummy_minimize] or [forest_minimize],
    and an event that is not a run of the Gaussian-process optimizer. *)
Definition not_minimize (e : event) : Prop :=
  match e with Minimize _ _ _ => False | _ => True end.

Definition not_gp_run (e : event) : Prop :=
  match e with GpRun _ _ _ => False | _ => True end.

(** The test of the second arm of the [if / elif] chain. *)
Definition saves_once (a : bo_args) : bool :=
  (save_step a >=? number_of_call a) && save a
  && ((early_step a >=? number_of_call a) || negb (early_stop a)).

Definition sum_list (l : list Z) : Z := foldr Z.add 0 l.

Definition is_Ok {A} (o : outcome A) : Prop :=
  match o with Ok _ => True | _ => False end.

(** The candidate key number [i] for an extra metric named [base]. *)
Definition numbered (base : string) (i : nat) : string :=
  base +:+ " " +:+ str i.

(** The extra metric [m] is recorded in [metrics_values] under [key]: the
    key is the class name, or the class name with a counter from 2 on, and
    it holds the score of [m]. *)
Definition recorded_as (out : model_output) (metrics_values : gmap string Q)
    (m : Metric) (key : string) : Prop :=
  (key = class_name m ∨ ∃ i, (2 ≤ i)%nat ∧ key = numbered (class_name m) i)
  ∧ ∃ v, metric_score m out = Ok v ∧ metrics_values !! key = Some v.

(** The value a computation returns, when it returns. *)
Definition returns {A} (P : A → Prop) (m : M A) : Prop :=
  ∀ w a w', m w = (Ok a, w') → P a.

(** The world [w] after [msg] has been printed, nothing else changed. *)
Definition with_output (w : World) (msg : string) : World :=
  mk_World (default_parameters w) (_iterations w) (files w) (trace w)
    (stdout w ++ [[PStr msg]]).

(** The world in which [optimize] starts the driver: the log is empty and
    the defaults are updated with the instance's parameters. *)
Definition configured (self : Optimizer) (w : World) : World :=
  mk_World (optimization_parameters self ∪ default_parameters w) []
    (files w) (trace w) (stdout w).

(** A string that starts with a character other than ['/'] and ['.']. *)
Definition starts_plain (t : string) : Prop :=
  ∃ c t', t = String c t' ∧ c ≠ slash ∧ c ≠ dot.

(** The number of evaluations in the history of each trial of a result. *)
Definition history_lengths
    (o : outcome (option (list OptimizeResult))) : list nat :=
  match o with
  | Ok (Some rs) => (λ r, length (x_iters r)) <$> rs
  | _ => []
  end.
(** ** Continuity of resumed trials *)

(** The result that the last chunk of trial [i] returned. *)
Definition last_returned (evs : list event) (i : nat)
    : option OptimizeResult :=
  foldl (λ acc e, match e with
                  | Returned j r => if bool_decide (j = i) then Some r else acc
                  | _ => acc
                  end) None evs.

(** The chunk [e] starts from the history that the last chunk of its trial
    returned. *)
Definition continues (pre : list event) (e : event) : Prop :=
  match e with
  | Minimize _ i kw =>
      ∃ r, last_returned pre i = Some r
           ∧ Kw.x0 kw = Some (x_iters r) ∧ Kw.y0 kw = Some (func_vals r)
  | GpRun i opt _ =>
      ∃ r, last_returned pre i = Some r
           ∧ Xi opt = x_iters r ∧ yi opt = func_vals r
  | _ => True
  end.

(** Every chunk that comes after a checkpoint load continues its trial. *)
Definition continuous (t : list event) : Prop :=
  ∀ pre e post, t = pre ++ e :: post → Exists is_load pre → continues pre e.

(** The pickle files. *)
Definition store : Type := gmap string OptimizeResult.

(** From a world with trace [t] and files [fs], [m] returns [a] with a
    trace and files that satisfy [Q a]; if it does not return, the trace it
    leaves is continuous. *)
Definition WP {A} (t : list event) (fs : store) (m : M A)
    (Q : A → list event → store → Prop) : Prop :=
  ∀ w, trace w = t → files w = fs →
    match m w with
    | (Ok a, w') => Q a (trace w') (files w')
    | (_, w') => continuous (trace w')
    end.

(** Code that leaves the trace and the files alone. *)
Definition same_store : relation World :=
  λ w w', trace w' = trace w ∧ files w' = files w.

(** Code that leaves the file [q] alone. *)
Definition keeps (q : string) : relation World :=
  λ w w', files w' !! q = files w !! q.

(** The list [res] holds, for each trial, the result its last chunk
    returned. *)
Definition latest (res : list OptimizeResult) (t : list event) : Prop :=
  ∀ j r, res !! j = Some r → last_returned t j = Some r.

(** The first pass of a Gaussian-process branch: no load yet, one result
    per trial so far. *)
Definition gp_first_pass_state (i : nat) (res : list OptimizeResult)
    (t : list event) : Prop :=
  continuous t ∧ no_load t ∧ length res = i ∧ latest res t.

(** Inside a later pass of a Gaussian-process branch that started from
    [res0]: the trials from [i] on have not run yet. *)
Definition gp_pass_state (res0 : list OptimizeResult) (i : nat)
    (res : list OptimizeResult) (t : list event) : Prop :=
  continuous t ∧ latest res t ∧ length res = length res0
  ∧ ∀ j, (i ≤ j)%nat → res !! j = res0 !! j.

Section Invariants.
Variable a : bo_args.

(** Every saver kept for a trial writes the checkpoint file of the trial. *)
Definition savers (cs : list (option callback)) : Prop :=
  ∀ j c, cs !! j = Some (Some c) →
    ∃ p, c = CheckpointSaver p
         ∧ resolve p = resolve (checkpoint_name (save_name a) j).

(** The checkpoint file of each of the first [i] trials holds the result
    that the last chunk of the trial returned. *)
Definition synced (i : nat) (t : list event) (fs : store) : Prop :=
  ∀ j, (j < i)%nat →
    ∃ r, last_returned t j = Some r
         ∧ fs !! resolve (checkpoint_name (save_name a) j) = Some r.

(** The first pass of a branch that keeps one saver per trial: no load yet,
    the trials before [i] have left their checkpoint. *)
Definition first_pass_state (i : nat) (st : locals) (t : list event)
    (fs : store) : Prop :=
  continuous t ∧ no_load t ∧ synced i t fs ∧ savers st.2.

(** After the first pass of such a branch: every trial has left its
    checkpoint. *)
Definition resumable_state (st : locals) (t : list event) (fs : store)
    : Prop :=
  continuous t ∧ synced (Z.to_nat (different_iteration a)) t fs
  ∧ savers st.2.

(** Between the passes of a Gaussian-process branch: the files of the
    handle hold [res]. *)
Definition gp_resumable_state (res : list OptimizeResult)
    (handle : list string) (t : list event) (fs : store) : Prop :=
  continuous t ∧ latest res t
  ∧ handle = imap (λ j _, checkpoint_name (save_name a) j) res
  ∧ ∀ j r, res !! j = Some r →
           fs !! resolve (checkpoint_name (save_name a) j) = Some r.
End Invariants.
(** ** Vocabulary of the further properties *)

(** An event that is not a chunk, or a chunk run by the minimizer [m]
    (by [Optimizer.run] for the Gaussian process). *)
Definition calls_only (m : skopt_minimizer) (e : event) : Prop :=
  match e with
  | Minimize k _ _ => k = m
  | GpRun _ _ _ => m = gp_minimize
  | _ => True
  end.

(** Code that leaves the pickle files alone. *)
Definition same_files : relation World := λ w w', files w' = files w.

(** A callback list without a checkpoint saver. *)
Definition no_saver (cbs : list callback) : Prop :=
  ∀ p, CheckpointSaver p ∉ cbs.

(** The name that the three tests bind when the dictionary holds the
    minimizer [m]. *)
Definition stringa_of (m : skopt_minimizer) : string :=
  match m with
  | gp_minimize => "gp_minimize"
  | dummy_minimize => "random_minimize"
  | forest_minimize => "forest_minimize"
  end.

(** What the driver prints before it dispatches on the minimizer: the
    arguments of its two [print] calls. *)
Definition banner (m : skopt_minimizer)
    (n_calls different_iteration n_random_starts acq_func kernel : pyval)
    : list (list pyval) :=
  [banner_arguments n_calls different_iteration n_random_starts
     (stringa_of m) acq_func kernel;
   [PStr "------------------------------------------"]].

(** The world [w] after the calls [lines] of [print]. *)
Definition printed (w : World) (lines : list (list pyval)) : World :=
  mk_World (default_parameters w) (_iterations w) (files w) (trace w)
    (stdout w ++ lines).

(** The numbers of random starts with which the library accepts a chunk
    of [n_calls] calls that has no initial points: the random search
    takes no such argument, the forest wants between one and [n_calls],
    and the Gaussian-process optimizer at least one. *)
Definition starts_accepted (m : skopt_minimizer)
    (n_random_starts n_calls : Z) : Prop :=
  match m with
  | dummy_minimize => True
  | forest_minimize => 0 < n_random_starts ≤ n_calls
  | gp_minimize => 0 < n_random_starts
  end.

(** The dictionary holds a minimizer under ["minimizer"] and the five
    entries that the banner shows. *)
Definition shows_banner (d : gmap string pyval) : Prop :=
  (∃ m, d !! "minimizer" = Some (PMinimizer m))
  ∧ Forall (λ key, is_Some (d !! key))
      ["n_calls"; "different_iteration"; "n_random_starts"; "acq_func";
       "kernel"].

(** The iteration log is extended, never rewritten. *)
Definition log_grows : relation World :=
  λ w w', _iterations w `prefix_of` _iterations w'.

(** An objective that only appends to the iteration log. *)
Definition appends (f : objective_t) : Prop :=
  ∀ p its, its `prefix_of` (f p its).2.

(** From a world that satisfies [Pre], a run of [m] that returns ends in a
    world that satisfies [Post]. *)
Definition hoare (Pre : World → Prop) {A} (m : M A)
    (Post : A → World → Prop) : Prop :=
  ∀ w x w', Pre w → m w = (Ok x, w') → Post x w'.

(** The checkpoint file of every trial holds the result of the trial. *)
Definition checkpointed_in (sn : string) (res : list OptimizeResult)
    (w : World) : Prop :=
  ∀ j r, res !! j = Some r →
    files w !! resolve (checkpoint_name sn j) = Some r.

(** From a world that satisfies [Pre], [m] returns, in a world that
    satisfies [Post]. *)
Definition thoare (Pre : World → Prop) {A} (m : M A)
    (Post : A → World → Prop) : Prop :=
  ∀ w, Pre w → ∃ x w', m w = (Ok x, w') ∧ Post x w'.

(** The objective returns a score for every candidate that a minimizer
    samples. *)
Definition samples_ok (f : objective_t) : Prop :=
  ∀ k nrs xs ys its, is_Ok (f (ask k nrs xs ys) its).1.

(** When the objective returns, it has appended one record to the log. *)
Definition records_one (f : objective_t) : Prop :=
  ∀ p its y its', f p its = (Ok y, its') → ∃ rec, its' = its ++ [rec].

(** The trace is [t] and the log has [L] records. *)
Definition at_ (t : list event) (L : nat) (w : World) : Prop :=
  trace w = t ∧ length (_iterations w) = L.

(** After [i] rounds of a plain first pass that started with the trace
    [t0] and [L0] records: one result per round, each with [n]
    evaluations; one chunk of [n] calls per round; [n] records per
    round. *)
Definition plain_progress (n : Z) (t0 : list event) (L0 : nat) (i : nat)
    (res : list OptimizeResult) (w : World) : Prop :=
  length res = i
  ∧ Forall (λ r, length (x_iters r) = Z.to_nat n) res
  ∧ length (_iterations w) = (L0 + i * Z.to_nat n)%nat
  ∧ ∃ evs, trace w = t0 ++ evs
           ∧ ∀ j, chunk_sizes j evs
                  = if bool_decide (j < i)%nat then [n] else [].
End Vocabulary.

(** ** The module-level [default_parameters] of [optimizer.py] *)

Section Defaults.
Context `{Collaborators}.

Definition initial_default_parameters : gmap string pyval :=
  list_to_map [
    ("n_calls", PInt 100);
    ("different_iteration", PInt 10);
    ("n_random_starts", PInt 10);
    ("minimizer", PMinimizer gp_minimize);
    ("acq_func", PStr "LCB");
    ("kernel", PObject 3);
    ("random_state", PNone);
    ("noise", PNone);
    ("verbose", PBool false);
    ("n_points", PInt 10000);
    ("base_estimator", PStr "RF");
    ("kappa", PFloat (196 # 100));
    ("alpha", PFloat (1 # 10000000000));
    ("x0", PPoints [None]);
    ("y0", PValues [None]);
    ("xi", PFloat (196 # 100));
    ("n_jobs", PInt 1);
    ("model_queue_size", PNone);
    ("optimization_type", PStr "Maximize");
    ("extra_metrics", PMetrics []);
    ("save", PBool false);
    ("save_step", PInt 1);
    ("save_name", PStr "partial_result");
    ("early_stop", PBool false);
    ("early_step", PInt 10);
    ("plot", PBool false);
    ("plot_name", PStr "Bayesian optimization plot");
    ("log_scale_plot", PBool false) ].

(** The world in which the module has just been imported. *)
Definition initial_world : World :=
  mk_World initial_default_parameters [] ∅ [] [].
End Defaults.

(** ** A concrete set of collaborators, for running the model *)

Module Demo.
(** The sampler proposes the number of points seen so far; nothing stops
    early; printing a missing result list fails. *)
Definition collaborators : Collaborators := {|
  dataset_t := unit;
  model_output := list (list string);
  ask := λ _ _ xs _, [HInt (Z.of_nat (length xs))];
  stopper := λ _ _ _, false;
  early_condition := λ _ _ _, false;
  print_func_vals := λ rs,
    match rs with Some _ => Ok tt | None => Raise TypeError end;
|}.

(** An objective that scores a candidate by its first coordinate. *)
Definition objective : objective_t :=
  λ p its,
    (Ok match p with HInt z :: _ => inject_Z z | _ => 0%Q end,
     its ++ [(p, ∅)]).

Definition world_with (m : skopt_minimizer) : @World collaborators :=
  mk_World (<["minimizer" := PMinimizer m]> initial_default_parameters)
    [] ∅ [] [].

(** A model whose output does not depend on the candidate, and metrics that
    return a constant. *)
Definition topic_model : @Model collaborators :=
  @mk_Model collaborators (λ _ _ _ _ _, Ok [["a"; "b"]; ["c"; "d"]]).

Definition constant_metric (name : string) (v : Q) : @Metric collaborators :=
  @mk_Metric collaborators name (λ _, Ok v).

Definition extras : list (@Metric collaborators) :=
  [constant_metric "Coherence" (1 # 3); constant_metric "Coherence" (1 # 4);
   constant_metric "Topic_diversity" (1 # 5)].

(** A model and a metric under which the candidates 0, 1, 2 of the single
    hyper-parameter ["x"] score 0.1, 0.5 and 0.3. *)
Definition scenario_model : @Model collaborators :=
  @mk_Model collaborators (λ _ params _ _ _,
    match params !! "x" with
    | Some (HInt k) => Ok [[pretty k]]
    | _ => Raise ValueError
    end).

Definition scenario_metric : @Metric collaborators :=
  @mk_Metric collaborators "Coherence" (λ out,
    match out with
    | [[word]] =>
        if bool_decide (word = "0") then Ok (1 # 10)%Q
        else if bool_decide (word = "1") then Ok (1 # 2)%Q
        else Ok (3 # 10)%Q
    | _ => Raise ValueError
    end).

(** Three trials of three random evaluations, checkpointed, in the default
    direction "Maximize". *)
Definition scenario : @Optimizer collaborators :=
  @mk_Optimizer collaborators scenario_model tt scenario_metric
    {[ "x" := Integer 0 10 ]}
    (list_to_map [("minimizer", PMinimizer dummy_minimize);
                  ("n_calls", PInt 3); ("different_iteration", PInt 3);
                  ("save", PBool true); ("save_step", PInt 3)])
    [] PNone PNone.

(** The same optimizer with a budget of zero calls. *)
Definition no_budget : @Optimizer collaborators :=
  @mk_Optimizer collaborators scenario_model tt scenario_metric
    {[ "x" := Integer 0 10 ]}
    (list_to_map [("minimizer", PMinimizer dummy_minimize);
                  ("n_calls", PInt 0)])
    [] PNone PNone.

(** Three trials of four evaluations, two of them random starts, with the
    forest minimizer and without checkpoints. *)
Definition plain_search : @Optimizer collaborators :=
  @mk_Optimizer collaborators scenario_model tt scenario_metric
    {[ "x" := Integer 0 10 ]}
    (list_to_map [("minimizer", PMinimizer forest_minimize);
                  ("n_calls", PInt 4); ("different_iteration", PInt 3);
                  ("n_random_starts", PInt 2)])
    [] PNone PNone.

(** An optimizer over two hyper-parameters, as [optimize] prepares it. *)
Definition optimizer : @Optimizer collaborators :=
  @mk_Optimizer collaborators topic_model tt
    (constant_metric "Coherence" (1 # 2))
    {[ "num_topics" := Integer 5 50; "alpha" := Real (1 # 100) 1 ]}
    ∅ ["alpha"; "num_topics"] (PMetrics extras) (PStr "Maximize").

(** A checkpointed configuration: five calls in chunks of two, three
    trials, no early stopping. *)
Definition checkpointed (m : skopt_minimizer) : @bo_args collaborators :=
  mk_bo_args (PMinimizer m) 5 3 [None] [None] 1 true 2 "partial_result"
    false 10 false "Bayesian optimization plot".
End Demo.

(** ** Collaborators whose [print_func_vals] accepts a missing list *)

Module Lenient.
Definition collaborators : Collaborators := {|
  dataset_t := unit;
  model_output := list (list string);
  ask := λ _ _ xs _, [HInt (Z.of_nat (length xs))];
  stopper := λ _ _ _, false;
  early_condition := λ _ _ _, false;
  print_func_vals := λ _, Ok tt;
|}.

(** An optimizer with a budget of zero calls, in the direction
    "Minimize". *)
Definition no_budget : @Optimizer collaborators :=
  @mk_Optimizer collaborators
    (@mk_Model collaborators (λ _ _ _ _ _, Ok [["a"; "b"]])) tt
    (@mk_Metric collaborators "Coherence" (λ _, Ok (1 # 2)%Q))
    {[ "x" := Integer 0 10 ]}
    (list_to_map [("n_calls", PInt 0);
                  ("optimization_type", PStr "Minimize")])
    [] PNone PNone.
End Lenient.

(** ** Concrete numerics, for running the coherence metrics *)

Module CoherenceDemo.
Import CoherenceMetrics.

(** Numerics that return a constant, for running [score]. *)
Definition numerics : Numerics := {|
  texts_t := list (list string);
  keyed_vectors := unit;
  get_coherence := λ _ _ _ _, Ok (1 # 2)%Q;
  mean_pair_similarity := λ _ _ _, Ok (1 # 3)%Q;
  pairwise_cosine := λ _ _ _, Ok (1 # 4)%Q;
  centroid_cosine := λ _ _ _, Ok (1 # 5)%Q;
|}.

Definition three_words : @coherence_metric numerics :=
  @Coherence_word_embeddings_centroid numerics
    [["a"; "b"; "c"]; ["d"]] 4 tt.
End CoherenceDemo.

(* ===================================================================== *)
(** * Reasoning about monadic code *)
(* ===================================================================== *)

Create HintDb steps discriminated.

Section Steps.
Context `{Collaborators}.
Context (R : relation World) `{!Reflexive R, !Transitive R}.

Lemma steps_ret {A} (a : A) : steps R (ret a).
Proof. intros w. reflexivity. Qed.

Lemma steps_raise {A} (e : exn) : steps R (raise (A := A) e).
Proof. intros w. reflexivity. Qed.

Lemma steps_lift {A} (o : outcome A) : steps R (lift o).
Proof. intros w. reflexivity. Qed.

Lemma steps_bind {A B} (m : M A) (k : A → M B) :
  steps R m → (∀ a, steps R (k a)) → steps R (bind m k).
Proof.
  intros Hm Hk w. unfold bind. specialize (Hm w).
  destruct (m w) as [[b | e |] w']; simpl in *; try assumption.
  etrans; [exact Hm | apply Hk].
Qed.

Lemma steps_for_loop {St} (idx : list nat) (body : nat → St → M St) s :
  (∀ i s, steps R (body i s)) → steps R (for_loop idx body s).
Proof.
  intros Hbody. revert s.
  induction idx as [| i idx IH]; intros s; simpl.
  - apply steps_ret.
  - apply steps_bind; [apply Hbody | intros s'; apply IH].
Qed.

Lemma steps_for_range {St} (n : Z) (body : nat → St → M St) s :
  (∀ i s, steps R (body i s)) → steps R (for_range n body s).
Proof. apply steps_for_loop. Qed.

Lemma steps_while {St} fuel (body : Z → St → M (Z * St)) r s :
  (∀ r s, steps R (body r s)) → steps R (while_calls_left fuel body r s).
Proof.
  intros Hbody. revert r s.
  induction fuel as [| fuel IH]; intros r s; simpl;
    destruct (r >? 0); try apply steps_ret; try apply steps_lift.
  apply steps_bind; [apply Hbody | intros rs; apply IH].
Qed.

Lemma steps_mapM {A B} (g : A → M B) (l : list A) :
  (∀ x, steps R (g x)) → steps R (mapM g l).
Proof.
  intros Hg. induction l as [| x l IH]; simpl.
  - apply steps_ret.
  - apply steps_bind; [apply Hg |].
    intros b. apply steps_bind; [apply IH |].
    intros bs. apply steps_ret.
Qed.

(** A pure step whose value the continuation may rely on. *)
Lemma steps_bind_lift {A B} (o : outcome A) (k : A → M B) :
  (∀ a, o = Ok a → steps R (k a)) → steps R (bind (lift o) k).
Proof.
  intros Hk w. unfold bind, lift. destruct o; simpl; try reflexivity.
  by apply Hk.
Qed.

Lemma steps_setitem {A} (l : list A) i v : steps R (setitem l i v).
Proof.
  unfold setitem. destruct (bool_decide _);
    [apply steps_ret | apply steps_raise].
Qed.
End Steps.

(** One step of symbolic execution of a goal [steps R m]. *)
Ltac step :=
  first
    [ solve [eauto 4 with steps]
    | apply steps_ret; tc_solve
    | apply steps_raise; tc_solve
    | apply steps_lift; tc_solve
    | apply steps_setitem; tc_solve
    | apply steps_bind; [tc_solve .. | | intros ?]
    | apply steps_for_range; [tc_solve .. | intros ? ?]
    | apply steps_while; [tc_solve .. | intros ? ?]
    | apply steps_mapM; [tc_solve .. | intros ?]
    | match goal with
      | |- steps _ (match ?x with _ => _ end) => destruct x
      | |- steps _ (if ?b then _ else _) => destruct b
      end
    | progress cbv beta ].

Ltac steps := repeat step.

Section Quiet.
Context `{Collaborators}.

Global Instance quiet_refl : Reflexive quiet.
Proof. intros w. split; reflexivity. Qed.

Global Instance quiet_trans : Transitive quiet.
Proof. intros w1 w2 w3 [? ?] [? ?]. split; congruence. Qed.

Global Instance same_defaults_refl : Reflexive same_defaults.
Proof. intros w. reflexivity. Qed.

Global Instance same_defaults_trans : Transitive same_defaults.
Proof. intros w1 w2 w3 ? ?. unfold same_defaults in *. congruence. Qed.

Global Instance emits_refl Q `{!Segment Q} : Reflexive (emits Q).
Proof.
  intros w. exists []. split; [by rewrite app_nil_r | apply segment_nil].
Qed.

Global Instance emits_trans Q `{!Segment Q} : Transitive (emits Q).
Proof.
  intros w1 w2 w3 (e1 & H1 & Q1) (e2 & H2 & Q2). exists (e1 ++ e2).
  split; [by rewrite H2, H1, app_assoc | by apply segment_app].
Qed.

Lemma quiet_same_defaults {A} (m : M A) :
  steps quiet m → steps same_defaults m.
Proof. intros Hm w. apply Hm. Qed.

Lemma quiet_emits Q `{!Segment Q} {A} (m : M A) :
  steps quiet m → steps (emits Q) m.
Proof.
  intros Hm w. destruct (Hm w) as [Ht _]. exists [].
  split; [by rewrite app_nil_r | apply segment_nil].
Qed.

Lemma quiet_print s : steps quiet (print s).
Proof. intros w. split; reflexivity. Qed.

Lemma quiet_print_args args : steps quiet (print_args args).
Proof. intros w. split; reflexivity. Qed.

Lemma quiet_write_file path r : steps quiet (write_file path r).
Proof. intros w. split; reflexivity. Qed.

Lemma quiet_read_file path : steps quiet (read_file path).
Proof. intros w. unfold read_file. destruct (_ !! _); split; reflexivity. Qed.

Lemma quiet_default_parameter key : steps quiet (default_parameter key).
Proof.
  intros w. unfold default_parameter. destruct (_ !! _); split; reflexivity.
Qed.

Lemma quiet_call_objective f p : steps quiet (call_objective f p).
Proof.
  intros w. unfold call_objective. destruct (f p _); split; reflexivity.
Qed.

Lemma quiet_get_iterations : steps quiet get_iterations.
Proof. intros w. split; reflexivity. Qed.

Lemma quiet_reset_iterations : steps quiet reset_iterations.
Proof. intros w. split; reflexivity. Qed.

Hint Resolve quiet_print quiet_print_args quiet_write_file quiet_read_file
  quiet_default_parameter quiet_call_objective quiet_get_iterations
  quiet_reset_iterations : steps.

Lemma quiet_dump r path : steps quiet (dump r path).
Proof. unfold dump. steps. Qed.

Hint Resolve quiet_dump : steps.

Lemma quiet_eval_callbacks cbs r : steps quiet (eval_callbacks cbs r).
Proof.
  induction cbs as [| c cbs IH]; simpl; [steps |].
  step; [destruct c; simpl; steps | steps].
Qed.

Hint Resolve quiet_eval_callbacks : steps.

Lemma quiet_minimize_loop n k nrs f cbs xs ys :
  steps quiet (minimize_loop n k nrs f cbs xs ys).
Proof.
  revert xs ys. induction n as [| n IH]; intros xs ys; simpl; steps.
Qed.

Hint Resolve quiet_minimize_loop : steps.

Lemma quiet_base_minimize k f kw : steps quiet (base_minimize k f kw).
Proof. unfold base_minimize. steps. Qed.

Lemma quiet_run opt f n : steps quiet (run opt f n).
Proof.
  unfold run. generalize (Z.to_nat n) as k. intros k. revert opt.
  induction k as [| k IH]; intros opt; simpl; steps.
Qed.

Lemma quiet_dump_each rs sn i : steps quiet (dump_each rs sn i).
Proof.
  revert i. induction rs as [| r rs IH]; intros i; simpl; steps.
Qed.

Lemma quiet_early_stopper a : steps quiet (early_stopper a).
Proof. unfold early_stopper. steps. Qed.

Lemma quiet_saver_of cs i : steps quiet (saver_of cs i).
Proof. unfold saver_of. steps. Qed.

Lemma quiet_new_saver a cs i : steps quiet (new_saver a cs i).
Proof. unfold new_saver. steps. Qed.

Lemma quiet_tell_initial opt x0 y0 i :
  steps quiet (tell_initial opt x0 y0 i).
Proof. unfold tell_initial. steps. Qed.

Lemma quiet_flag_if_early a flags i r :
  steps quiet (flag_if_early a flags i r).
Proof. unfold flag_if_early. steps. Qed.

Lemma quiet_minimizer_stringa : steps quiet minimizer_stringa.
Proof. unfold minimizer_stringa, bind_stringa. steps. Qed.

Lemma quiet_print_banner stringa : steps quiet (print_banner stringa).
Proof. unfold print_banner, local_variable. steps. Qed.

Lemma quiet_read_arguments : steps quiet read_arguments.
Proof.
  unfold read_arguments.
  steps.
Qed.
End Quiet.

Global Hint Resolve quiet_print quiet_print_args quiet_write_file
  quiet_read_file quiet_default_parameter quiet_call_objective
  quiet_get_iterations quiet_reset_iterations quiet_dump quiet_eval_callbacks
  quiet_minimize_loop quiet_base_minimize quiet_run quiet_dump_each
  quiet_early_stopper quiet_saver_of quiet_new_saver quiet_tell_initial
  quiet_flag_if_early quiet_minimizer_stringa quiet_print_banner
  quiet_read_arguments : steps.

(* ===================================================================== *)
(** * The driver leaves [default_parameters] alone *)
(* ===================================================================== *)

Section Frame.
Context `{Collaborators}.

Lemma same_defaults_emit e : steps same_defaults (emit e).
Proof. intros w. reflexivity. Qed.

Hint Resolve same_defaults_emit quiet_same_defaults : steps.

Lemma same_defaults_plot_if b name : steps same_defaults (plot_if b name).
Proof. unfold plot_if. steps. Qed.

Lemma same_defaults_call_minimize k i f kw :
  steps same_defaults (call_minimize k i f kw).
Proof. unfold call_minimize. steps. Qed.

Lemma same_defaults_call_run i opt f n :
  steps same_defaults (call_run i opt f n).
Proof. unfold call_run. steps. Qed.

Lemma same_defaults_load path : steps same_defaults (load path).
Proof. unfold load. steps. Qed.

Lemma same_defaults_restore a i : steps same_defaults (restore a i).
Proof. apply same_defaults_load. Qed.

Lemma same_defaults_load_BO handle : steps same_defaults (load_BO handle).
Proof. unfold load_BO. steps. Qed.

Lemma same_defaults_dump_BO rs sn : steps same_defaults (dump_BO rs sn).
Proof. unfold dump_BO. steps. Qed.

Hint Resolve same_defaults_plot_if same_defaults_call_minimize
  same_defaults_call_run same_defaults_restore same_defaults_load_BO
  same_defaults_dump_BO : steps.

Lemma same_defaults_Bayesian_optimization f a fuel :
  steps same_defaults (Bayesian_optimization f a fuel).
Proof.
  unfold Bayesian_optimization, dispatch,
    dummy_plain, dummy_save_once, dummy_save, dummy_early,
    dummy_save_early, forest_plain, forest_save_once, forest_save,
    forest_early, forest_save_early, gp_plain, gp_save_once, gp_save,
    gp_early, gp_save_early.
  steps.
Qed.

(** After [optimize], whatever its outcome, the module-level dictionary is
    the old one updated with the instance's [optimization_parameters]. *)
Lemma optimize_default_parameters self fuel w :
  default_parameters (optimize self fuel w).2
  = optimization_parameters self ∪ default_parameters w.
Proof.
  unfold optimize.
  set (rest := bind (default_parameter "extra_metrics") _).
  assert (Hrest : steps same_defaults rest).
  { unfold rest. steps. apply same_defaults_Bayesian_optimization. }
  unfold bind at 1 2. cbn. exact (Hrest _).
Qed.
End Frame.

(* ===================================================================== *)
(** * The resumption protocol of the driver *)
(* ===================================================================== *)

Section Protocol.
Context `{Collaborators}.

Lemma restored_from_mono sn ctx ctx' i xs ys :
  ctx ⊆ ctx' → restored_from sn ctx i xs ys → restored_from sn ctx' i xs ys.
Proof.
  intros Hsub [(r & Hin & ?) | (h & rs & r & Hin & ?)].
  - left. exists r. split; [by apply Hsub | done].
  - right. exists h, rs, r. split; [by apply Hsub | done].
Qed.

Lemma resumed_chunk_mono sn ctx ctx' e :
  ctx ⊆ ctx' → resumed_chunk sn ctx e → resumed_chunk sn ctx' e.
Proof.
  intros Hsub. destruct e; simpl; try done.
  - intros [Hrs (xs & ys & ? & ? & Hr)]. split; [done |].
    exists xs, ys. eauto using restored_from_mono.
  - intros (? & ? & Hr). eauto using restored_from_mono.
Qed.

Global Instance no_load_segment : Segment no_load.
Proof.
  split; [by constructor |]. intros e1 e2. unfold no_load.
  rewrite Forall_app. done.
Qed.

Global Instance all_resumed_segment sn ctx : Segment (all_resumed sn ctx).
Proof.
  split.
  - intros pre e post Heq. by destruct pre.
  - intros e1 e2 H1 H2 pre e post Heq.
    apply app_eq_app in Heq as [l [[-> Hl] | [-> ->]]].
    + destruct l as [| e' l]; simpl in Hl.
      * subst e2.
        eapply resumed_chunk_mono; [| by eapply (H2 [])].
        intros x. rewrite !elem_of_app, ?elem_of_nil. tauto.
      * injection Hl as <- ->. by eapply H1.
    + eapply resumed_chunk_mono; [| by eapply H2].
      intros x. rewrite !elem_of_app, ?elem_of_nil. tauto.
Qed.

Lemma all_resumed_cons sn ctx e evs :
  resumed_chunk sn ctx e → all_resumed sn (ctx ++ [e]) evs →
  all_resumed sn ctx (e :: evs).
Proof.
  intros He Hevs pre e' post Heq. destruct pre as [| e0 pre]; simpl in Heq.
  - injection Heq as <- <-. by rewrite app_nil_r.
  - injection Heq as <- ->. specialize (Hevs pre e' post eq_refl).
    by rewrite <- app_assoc in Hevs.
Qed.

Lemma emits_weaken (Q Q' : list event → Prop) {A} (m : M A) :
  (∀ evs, Q evs → Q' evs) → steps (emits Q) m → steps (emits Q') m.
Proof. intros HQ Hm w. destruct (Hm w) as (evs & ? & ?). exists evs. eauto. Qed.

Lemma emits_emit Q e : Q [e] → steps (emits Q) (emit e).
Proof. intros HQ w. by exists [e]. Qed.

(** A traced call: the event of the call, the quiet call, the event of its
    result. *)
Lemma emits_call Q `{!Segment Q} {A} (e : event) (m : M A) (e' : A → event) :
  Q [e] → (∀ r, Q [e' r]) → steps quiet m →
  steps (emits Q) (emit e;;; r <- m;; emit (e' r);;; ret r).
Proof.
  intros He He' Hm.
  apply steps_bind; [apply _ .. | by apply emits_emit | intros _].
  apply steps_bind; [apply _ .. | by apply quiet_emits | intros r].
  apply steps_bind; [apply _ .. | by apply emits_emit | intros _].
  apply steps_ret, _.
Qed.

(** Quiet code before or after code that emits [Q]. *)
Lemma emits_bind_quiet_l Q {A B} (m : M A) (k : A → M B) :
  steps quiet m → (∀ a, steps (emits Q) (k a)) → Q [] →
  steps (emits Q) (bind m k).
Proof.
  intros Hm Hk Hnil w. unfold bind. destruct (Hm w) as [Ht _].
  destruct (m w) as [[b | e |] w1]; simpl in *.
  - destruct (Hk b w1) as (evs & Hevs & HQ). exists evs.
    by rewrite Hevs, Ht.
  - exists []. by rewrite app_nil_r.
  - exists []. by rewrite app_nil_r.
Qed.

Lemma emits_bind_quiet_r Q {A B} (m : M A) (k : A → M B) :
  steps (emits Q) m → (∀ a, steps quiet (k a)) →
  steps (emits Q) (bind m k).
Proof.
  intros Hm Hk w. unfold bind. destruct (Hm w) as (evs & Ht & HQ).
  destruct (m w) as [[b | e |] w1]; simpl in *; try by exists evs.
  destruct (Hk b w1) as [Ht' _]. exists evs. by rewrite Ht'.
Qed.

(** Running [m] and then [k], when [m] emits [Q1] and [k] emits [Q2]. *)
Lemma steps_two_phase (Q1 Q2 Q : list event → Prop) {A B}
    (m : M A) (k : A → M B) :
  steps (emits Q1) m → (∀ a, steps (emits Q2) (k a)) → Q2 [] →
  (∀ e1 e2, Q1 e1 → Q2 e2 → Q (e1 ++ e2)) →
  steps (emits Q) (bind m k).
Proof.
  intros Hm Hk Hnil HQ w. unfold bind.
  destruct (Hm w) as (e1 & Ht1 & HQ1).
  destruct (m w) as [[b | e |] w1]; simpl in *.
  - destruct (Hk b w1) as (e2 & Ht2 & HQ2). exists (e1 ++ e2).
    split; [by rewrite Ht2, Ht1, app_assoc | by apply HQ].
  - exists e1. split; [done |]. rewrite <- (app_nil_r e1). by apply HQ.
  - exists e1. split; [done |]. rewrite <- (app_nil_r e1). by apply HQ.
Qed.

Lemma trials_app e1 e2 : trials (e1 ++ e2) = trials e1 ++ trials e2.
Proof. apply omap_app. Qed.

Lemma later_chunk_trials pre e l :
  later_chunk pre e → ¬ NoDup (trials (pre ++ e :: l)).
Proof.
  unfold later_chunk. destruct (trial_of e) as [i |] eqn:He; [| done].
  intros Hin Hnd. rewrite trials_app in Hnd. unfold trials at 2 in Hnd.
  simpl in Hnd. rewrite He in Hnd. apply NoDup_app in Hnd as (_ & Hnd & _).
  apply (Hnd i Hin). left.
Qed.

Lemma resumes_after_first_pass sn e1 e2 :
  first_pass e1 → all_resumed sn [] e2 →
  resumes_from_checkpoints sn (e1 ++ e2).
Proof.
  intros [H1 Hnd] H2 pre e post Heq Hres.
  apply app_eq_app in Heq as [l [[-> Hl] | [-> ->]]].
  - destruct l as [| e' l]; simpl in Hl.
    + subst e2.
      eapply resumed_chunk_mono; [| by eapply (H2 [])].
      intros x. rewrite !elem_of_app, ?elem_of_nil. tauto.
    + exfalso. injection Hl as <- Hl. destruct Hres as [Hlater | Hload].
      * by eapply later_chunk_trials.
      * unfold no_load in H1. rewrite Forall_app in H1.
        destruct H1 as [H1 _]. apply Exists_exists in Hload as (x & Hx & Hl').
        rewrite Forall_forall in H1. by eapply H1.
  - eapply resumed_chunk_mono; [| by eapply H2].
    intros x. rewrite !elem_of_app, ?elem_of_nil. tauto.
Qed.

(** A first pass with at most one chunk per trial and no load, followed by
    resumed chunks only. *)
Lemma steps_first_then_resumed sn {A B} (m : M A) (k : A → M B) :
  steps (emits first_pass) m →
  (∀ a, steps (emits (all_resumed sn [])) (k a)) →
  steps (emits (resumes_from_checkpoints sn)) (bind m k).
Proof.
  intros Hm Hk. eapply steps_two_phase; eauto using resumes_after_first_pass.
  apply segment_nil.
Qed.

(** One round of the first pass per trial of the loop. *)
Lemma first_pass_for_loop {St} lo len (body : nat → St → M St) s :
  (∀ i s, steps (emits (chunk_of i)) (body i s)) →
  steps (emits (λ evs, no_load evs ∧ trials evs `sublist_of` seq lo len))
    (for_loop (seq lo len) body s).
Proof.
  intros Hbody. revert lo s.
  induction len as [| len IH]; intros lo s w; simpl.
  - exists []. split; [by rewrite app_nil_r |]. split; [constructor | done].
  - unfold bind. destruct (Hbody lo s w) as (e1 & Ht1 & Hno1 & Htr1).
    destruct (body lo s w) as [[s' | e |] w1]; simpl in *.
    + destruct (IH (S lo) s' w1) as (e2 & Ht2 & Hno2 & Htr2).
      exists (e1 ++ e2). split; [by rewrite Ht2, Ht1, app_assoc |].
      split; [by apply Forall_app |]. rewrite trials_app.
      destruct Htr1 as [-> | ->]; simpl;
        [by apply sublist_cons | by apply sublist_skip].
    + exists e1. split; [done |]. split; [done |].
      destruct Htr1 as [-> | ->];
        [apply sublist_nil_l | apply sublist_skip, sublist_nil_l].
    + exists e1. split; [done |]. split; [done |].
      destruct Htr1 as [-> | ->];
        [apply sublist_nil_l | apply sublist_skip, sublist_nil_l].
Qed.

Lemma first_pass_for_range {St} n (body : nat → St → M St) s :
  (∀ i s, steps (emits (chunk_of i)) (body i s)) →
  steps (emits first_pass) (for_range n body s).
Proof.
  intros Hbody. unfold for_range.
  eapply emits_weaken; [| by apply first_pass_for_loop].
  intros evs [Hno Hsub]. split; [done |].
  eapply sublist_NoDup; [apply NoDup_seq | exact Hsub].
Qed.

(** ** The primitives, in the first pass *)

Lemma no_load_call_minimize k i f kw :
  steps (emits no_load) (call_minimize k i f kw).
Proof.
  apply emits_call; [apply _ | | | apply quiet_base_minimize];
    intros; apply Forall_singleton; simpl; tauto.
Qed.

Lemma no_load_call_run i opt f n : steps (emits no_load) (call_run i opt f n).
Proof.
  apply emits_call; [apply _ | | | apply quiet_run];
    intros; apply Forall_singleton; simpl; tauto.
Qed.

Lemma no_load_plot_if b name : steps (emits no_load) (plot_if b name).
Proof.
  unfold plot_if. destruct b; [| step].
  apply emits_emit. apply Forall_singleton. simpl. tauto.
Qed.

Lemma no_load_dump_BO rs sn : steps (emits no_load) (dump_BO rs sn).
Proof.
  unfold dump_BO. step.
  - apply emits_emit. apply Forall_singleton. simpl. tauto.
  - apply quiet_emits; [apply _ | apply quiet_dump_each].
Qed.

(** ** The primitives, in one round of the first pass *)

Lemma chunk_of_nil i : chunk_of i [].
Proof. split; [constructor | by left]. Qed.

(** A traced call of trial [i] is one chunk of trial [i]. *)
Lemma chunk_of_call i {A} (e : event) (m : M A) (e' : A → event) :
  ¬ is_load e → trial_of e = Some i →
  (∀ r, ¬ is_load (e' r) ∧ trial_of (e' r) = None) →
  steps quiet m →
  steps (emits (chunk_of i)) (emit e;;; r <- m;; emit (e' r);;; ret r).
Proof.
  intros He Hi He' Hm w. unfold bind, emit, ret. simpl.
  match goal with |- context [m ?w1] =>
    destruct (Hm w1) as [Ht _]; destruct (m w1) as [[r | x |] w2]
  end; simpl in *.
  - exists [e; e' r]. rewrite Ht, <- app_assoc. split; [done |].
    destruct (He' r) as [Hr Hn]. split; [by repeat constructor |].
    right. unfold trials. simpl. by rewrite Hi, Hn.
  - exists [e]. rewrite Ht. split; [done |].
    split; [by repeat constructor |]. right. unfold trials. simpl.
    by rewrite Hi.
  - exists [e]. rewrite Ht. split; [done |].
    split; [by repeat constructor |]. right. unfold trials. simpl.
    by rewrite Hi.
Qed.

Lemma chunk_of_call_minimize k i f kw :
  steps (emits (chunk_of i)) (call_minimize k i f kw).
Proof.
  apply chunk_of_call; [simpl; tauto | done | | apply quiet_base_minimize].
  intros r. simpl. tauto.
Qed.

Lemma chunk_of_call_run i opt f n :
  steps (emits (chunk_of i)) (call_run i opt f n).
Proof.
  apply chunk_of_call; [simpl; tauto | done | | apply quiet_run].
  intros r. simpl. tauto.
Qed.

Lemma chunk_of_quiet i {A} (m : M A) :
  steps quiet m → steps (emits (chunk_of i)) m.
Proof.
  intros Hm w. destruct (Hm w) as [Ht _]. exists [].
  split; [by rewrite app_nil_r | apply chunk_of_nil].
Qed.

(** ** The primitives, in a resumed chunk *)

Lemma all_resumed_plot_if sn ctx b name :
  steps (emits (all_resumed sn ctx)) (plot_if b name).
Proof.
  unfold plot_if. destruct b; [| step]. apply emits_emit.
  apply all_resumed_cons; [done | apply segment_nil].
Qed.

Lemma all_resumed_dump_BO sn ctx rs name :
  steps (emits (all_resumed sn ctx)) (dump_BO rs name).
Proof.
  unfold dump_BO. step.
  - apply emits_emit. apply all_resumed_cons; [done | apply segment_nil].
  - apply quiet_emits; [apply _ | apply quiet_dump_each].
Qed.

Lemma all_resumed_call_minimize sn ctx k i f kw :
  resumed_chunk sn ctx (Minimize k i kw) →
  steps (emits (all_resumed sn ctx)) (call_minimize k i f kw).
Proof.
  intros Hok.
  apply emits_call; [apply _ | | | apply quiet_base_minimize]; intros;
    (apply all_resumed_cons; [done | apply segment_nil]).
Qed.

Lemma all_resumed_call_run sn ctx i opt f n :
  resumed_chunk sn ctx (GpRun i opt n) →
  steps (emits (all_resumed sn ctx)) (call_run i opt f n).
Proof.
  intros Hok.
  apply emits_call; [apply _ | | | apply quiet_run]; intros;
    (apply all_resumed_cons; [done | apply segment_nil]).
Qed.

(** Loading extends the context of what follows. *)
Lemma all_resumed_load sn ctx path {B} (k : OptimizeResult → M B) :
  (∀ r, steps (emits (all_resumed sn (ctx ++ [Load path r]))) (k r)) →
  steps (emits (all_resumed sn ctx)) (bind (load path) k).
Proof.
  intros Hk w. unfold bind, load, bind, read_file, emit, ret.
  destruct (files w !! resolve path) as [r |]; simpl.
  - match goal with |- emits _ _ (k r ?w1).2 =>
      destruct (Hk r w1) as (evs & Ht & HQ) end.
    exists (Load path r :: evs). simpl in Ht.
    split; [by rewrite Ht, <- app_assoc |].
    by apply all_resumed_cons.
  - exists []. split; [by rewrite app_nil_r | apply segment_nil].
Qed.

Lemma all_resumed_load_BO sn ctx handle {B}
    (k : list OptimizeResult → M B) :
  (∀ rs, steps (emits (all_resumed sn (ctx ++ [LoadBO handle rs]))) (k rs)) →
  steps (emits (all_resumed sn ctx)) (bind (load_BO handle) k).
Proof.
  intros Hk w. unfold load_BO.
  pose proof (quiet_emits (all_resumed sn ctx) _
                (steps_mapM quiet (λ path, read_file (resolve path)) handle
                   (λ x, quiet_read_file _)) w) as (e0 & Ht0 & _).
  assert (He0 : trace (mapM (λ path, read_file (resolve path)) handle w).2
                = trace w).
  { apply (steps_mapM quiet (λ path, read_file (resolve path)) handle
             (λ x, quiet_read_file _) w). }
  unfold bind at 1 2.
  destruct (mapM _ handle w) as [[rs | e |] w1]; simpl in *.
  - unfold bind, emit, ret. simpl.
    match goal with |- emits _ _ (k rs ?w2).2 =>
      destruct (Hk rs w2) as (evs & Ht & HQ) end.
    exists (LoadBO handle rs :: evs). simpl in Ht.
    split; [by rewrite Ht, He0, <- app_assoc |].
    by apply all_resumed_cons.
  - exists []. split; [by rewrite app_nil_r, He0 | apply segment_nil].
  - exists []. split; [by rewrite app_nil_r, He0 | apply segment_nil].
Qed.
End Protocol.

Section Branch_protocol.
Context `{Collaborators}.

Lemma quiet_no_load {A} (m : M A) : steps quiet m → steps (emits no_load) m.
Proof. apply quiet_emits, _. Qed.

Lemma quiet_all_resumed sn ctx {A} (m : M A) :
  steps quiet m → steps (emits (all_resumed sn ctx)) m.
Proof. apply quiet_emits, _. Qed.

Lemma getitem_Ok {A} (l : list A) i x : getitem l i = Ok x → l !! i = Some x.
Proof. unfold getitem. destruct (l !! i); congruence. Qed.

Lemma tell_new_Ok n m xs ys opt :
  tell (new_optimizer n m) xs ys = Ok opt →
  opt = mk_skopt_optimizer n m xs ys.
Proof.
  unfold tell, new_optimizer. destruct (_ =? _)%nat; simpl; congruence.
Qed.
End Branch_protocol.

Global Hint Resolve quiet_no_load quiet_all_resumed no_load_call_minimize
  no_load_call_run no_load_plot_if no_load_dump_BO all_resumed_plot_if
  all_resumed_dump_BO : steps.

(** Discharging [restored_from] and [resumed_chunk] for the chunk about to
    run: the load is among the events of the context. *)
Ltac solve_restored :=
  first
    [ left; eexists; split; [| split; reflexivity];
      apply list_elem_of_In; rewrite ?in_app_iff; simpl; solve [auto 10]
    | right; eexists _, _, _;
      split; [| split; [eassumption | split; reflexivity]];
      apply list_elem_of_In; rewrite ?in_app_iff; simpl; solve [auto 10] ].

Ltac solve_resumed :=
  repeat match goal with
         | H : getitem _ _ = Ok _ |- _ => apply getitem_Ok in H
         | H : tell (new_optimizer _ _) _ _ = Ok _ |- _ =>
             apply tell_new_Ok in H; subst
         end;
  simpl;
  lazymatch goal with
  | |- (_ → _) ∧ _ =>
      split;
      [ intros ?; first [reflexivity | discriminate]
      | eexists _, _; split; [reflexivity | split; [reflexivity |]];
        solve_restored ]
  | |- _ = _ ∧ _ = _ ∧ _ =>
      split; [reflexivity | split; [reflexivity | solve_restored]]
  end.

(** One step of symbolic execution inside a round of the first pass: quiet
    code, then the call of the minimizer, then quiet code. *)
Ltac cstep :=
  first
    [ apply chunk_of_quiet; solve [steps]
    | apply emits_bind_quiet_r;
        [ first [apply chunk_of_call_minimize | apply chunk_of_call_run]
        | intros; solve [steps] ]
    | apply emits_bind_quiet_l;
        [solve [steps] | intros ? | apply chunk_of_nil]
    | match goal with
      | |- steps _ (match ?x with _ => _ end) => destruct x
      | |- steps _ (if ?b then _ else _) => destruct b
      end
    | progress cbv beta ].

Ltac first_pass :=
  apply first_pass_for_range; intros ? ?; repeat cstep.

(** One step of symbolic execution inside a resumed chunk. *)
Ltac rstep :=
  first
    [ apply all_resumed_load; intros ?
    | apply all_resumed_load_BO; intros ?
    | apply all_resumed_call_minimize; solve_resumed
    | apply all_resumed_call_run; solve_resumed
    | apply steps_bind_lift; [tc_solve .. | intros ? ?]
    | step ].

Ltac rsteps := repeat rstep.

Section Driver_protocol.
Context `{Collaborators}.
Variables (f : objective_t) (a : bo_args) (fuel : nat).
Variables (x0 : list (option (list point))) (y0 : list (option (list Q))).

Local Abbreviation protocol :=
  (steps (emits (resumes_from_checkpoints (save_name a)))).

Lemma protocol_dummy_plain st : protocol (dummy_plain f a x0 y0 st).
Proof.
  unfold dummy_plain. apply steps_first_then_resumed; [first_pass |].
  intros st'. unfold restore. rsteps.
Qed.

Lemma protocol_dummy_save_once st : protocol (dummy_save_once f a x0 y0 st).
Proof.
  unfold dummy_save_once. apply steps_first_then_resumed; [first_pass |].
  intros st'. unfold restore. rsteps.
Qed.

Lemma protocol_dummy_save st : protocol (dummy_save f a fuel x0 y0 st).
Proof.
  unfold dummy_save. apply steps_first_then_resumed; [first_pass |].
  intros st'. unfold restore. rsteps.
Qed.

Lemma protocol_dummy_early st : protocol (dummy_early f a x0 y0 st).
Proof.
  unfold dummy_early. apply steps_first_then_resumed; [first_pass |].
  intros st'. unfold restore. rsteps.
Qed.

Lemma protocol_dummy_save_early st :
  protocol (dummy_save_early f a fuel x0 y0 st).
Proof.
  unfold dummy_save_early. apply steps_first_then_resumed; [first_pass |].
  intros st'. unfold restore. rsteps.
Qed.

Lemma protocol_forest_plain st : protocol (forest_plain f a x0 y0 st).
Proof.
  unfold forest_plain. apply steps_first_then_resumed; [first_pass |].
  intros st'. unfold restore. rsteps.
Qed.

Lemma protocol_forest_save_once st : protocol (forest_save_once f a x0 y0 st).
Proof.
  unfold forest_save_once. apply steps_first_then_resumed; [first_pass |].
  intros st'. unfold restore. rsteps.
Qed.

Lemma protocol_forest_save st : protocol (forest_save f a fuel x0 y0 st).
Proof.
  unfold forest_save. apply steps_first_then_resumed; [first_pass |].
  intros st'. unfold restore. rsteps.
Qed.

Lemma protocol_forest_early st : protocol (forest_early f a x0 y0 st).
Proof.
  unfold forest_early. apply steps_first_then_resumed; [first_pass |].
  intros st'. unfold restore. rsteps.
Qed.

Lemma protocol_forest_save_early st :
  protocol (forest_save_early f a fuel x0 y0 st).
Proof.
  unfold forest_save_early. apply steps_first_then_resumed; [first_pass |].
  intros st'. unfold restore. rsteps.
Qed.

Lemma protocol_gp_plain res : protocol (gp_plain f a x0 y0 res).
Proof.
  unfold gp_plain. apply steps_first_then_resumed; [first_pass |].
  intros res'. unfold restore. rsteps.
Qed.

Lemma protocol_gp_save_once res : protocol (gp_save_once f a x0 y0 res).
Proof.
  unfold gp_save_once. apply steps_first_then_resumed; [first_pass |].
  intros res'. unfold restore. rsteps.
Qed.

Lemma protocol_gp_save res : protocol (gp_save f a fuel x0 y0 res).
Proof.
  unfold gp_save. apply steps_first_then_resumed; [first_pass |].
  intros res'. unfold restore. rsteps.
Qed.

Lemma protocol_gp_early res : protocol (gp_early f a fuel x0 y0 res).
Proof.
  unfold gp_early. apply steps_first_then_resumed; [first_pass |].
  intros res'. unfold restore. rsteps.
Qed.

Lemma protocol_gp_save_early st : protocol (gp_save_early f a fuel x0 y0 st).
Proof.
  unfold gp_save_early. apply steps_first_then_resumed; [first_pass |].
  intros st'. unfold restore. rsteps.
Qed.

End Driver_protocol.

Section Whole_driver.
Context `{Collaborators}.

Lemma quiet_resumes sn {A} (m : M A) :
  steps quiet m → steps (emits (resumes_from_checkpoints sn)) m.
Proof.
  intros Hm w. destruct (Hm w) as [Ht _]. exists [].
  split; [by rewrite app_nil_r |]. intros pre e post Heq. by destruct pre.
Qed.

Lemma resumes_nil sn : resumes_from_checkpoints sn [].
Proof. intros pre e post Heq. by destruct pre. Qed.

Lemma protocol_dispatch {A} (a : bo_args)
    (b1 b2 b3 b4 b5 : A → M A) st :
  let protocol := steps (emits (resumes_from_checkpoints (save_name a))) in
  (∀ st, protocol (b1 st)) → (∀ st, protocol (b2 st)) →
  (∀ st, protocol (b3 st)) → (∀ st, protocol (b4 st)) →
  (∀ st, protocol (b5 st)) →
  protocol (dispatch a b1 b2 b3 b4 b5 st).
Proof.
  intros protocol H1 H2 H3 H4 H5. unfold dispatch.
  repeat match goal with
         | |- protocol (if ?b then _ else _) => destruct b
         end; auto.
  apply quiet_resumes. steps.
Qed.

Lemma protocol_gp_lift (a : bo_args)
    (g : list OptimizeResult → M (list OptimizeResult)) (st : locals) :
  (∀ res, steps (emits (resumes_from_checkpoints (save_name a))) (g res)) →
  steps (emits (resumes_from_checkpoints (save_name a)))
    (res <- g st.1;; ret (res, st.2)).
Proof. intros Hg. apply emits_bind_quiet_r; [apply Hg | intros; steps]. Qed.

(** Over a whole run of the driver, every chunk that comes after a
    checkpoint load is a resumed chunk. *)
Lemma Bayesian_optimization_protocol f a fuel :
  steps (emits (resumes_from_checkpoints (save_name a)))
    (Bayesian_optimization f a fuel).
Proof.
  unfold Bayesian_optimization.
  destruct (number_of_call a <=? 0); [apply quiet_resumes; steps |].
  destruct (different_iteration a <=? 2); [apply quiet_resumes; steps |].
  apply emits_bind_quiet_l; [steps | intros name | apply resumes_nil].
  apply emits_bind_quiet_l; [steps | intros _ | apply resumes_nil].
  apply emits_bind_quiet_l; [steps | intros _ | apply resumes_nil].
  destruct (minimizer a) as [| | | | | m | | | |];
    try (cbn [is_minimizer]; apply quiet_resumes; solve [steps]).
  destruct m; cbn [is_minimizer];
    rewrite ?bool_decide_eq_true_2 by done;
    rewrite ?bool_decide_eq_false_2 by done; cbv iota.
  - apply emits_bind_quiet_l; [steps | intros st | apply resumes_nil].
    apply emits_bind_quiet_l; [steps | intros st' | apply resumes_nil].
    apply emits_bind_quiet_r; [| intros; steps].
    apply protocol_dispatch; intros;
      try apply protocol_gp_lift; intros;
      auto using protocol_gp_plain, protocol_gp_save_once, protocol_gp_save,
        protocol_gp_early, protocol_gp_save_early.
  - apply emits_bind_quiet_l; [steps | intros st | apply resumes_nil].
    apply emits_bind_quiet_r; [| intros; steps].
    apply protocol_dispatch;
      auto using protocol_forest_plain, protocol_forest_save_once,
        protocol_forest_save, protocol_forest_early,
        protocol_forest_save_early.
  - apply emits_bind_quiet_r; [| intros; steps].
    apply protocol_dispatch;
      auto using protocol_dummy_plain, protocol_dummy_save_once,
        protocol_dummy_save, protocol_dummy_early,
        protocol_dummy_save_early.
Qed.
End Whole_driver.

(* ===================================================================== *)
(** * Which library function runs the chunks *)
(* ===================================================================== *)

Section Strategy.
Context `{Collaborators}.

Global Instance Forall_segment (P : event → Prop) : Segment (Forall P).
Proof. split; [constructor | intros e1 e2; by rewrite Forall_app]. Qed.

Section Only.
Variable P : event → Prop.
Hypothesis P_other : ∀ e, ¬ is_chunk e → P e.

Lemma only_quiet {A} (m : M A) : steps quiet m → steps (emits (Forall P)) m.
Proof. apply quiet_emits, _. Qed.

Lemma only_emit e : P e → steps (emits (Forall P)) (emit e).
Proof. intros He. apply emits_emit. by apply Forall_singleton. Qed.

Lemma only_plot_if b name : steps (emits (Forall P)) (plot_if b name).
Proof.
  unfold plot_if. destruct b; [| step]. apply only_emit, P_other. tauto.
Qed.

Lemma only_dump_BO rs sn : steps (emits (Forall P)) (dump_BO rs sn).
Proof.
  unfold dump_BO. step; [apply only_emit, P_other; tauto |].
  apply only_quiet, quiet_dump_each.
Qed.

Lemma only_load path : steps (emits (Forall P)) (load path).
Proof.
  unfold load. step; [apply only_quiet, quiet_read_file |].
  step; [apply only_emit, P_other; tauto | step].
Qed.

Lemma only_load_BO handle : steps (emits (Forall P)) (load_BO handle).
Proof.
  unfold load_BO. step.
  - apply only_quiet. apply steps_mapM; [apply _ .. |].
    intros path. apply quiet_read_file.
  - step; [apply only_emit, P_other; tauto | step].
Qed.

Lemma only_call_run i opt f n :
  (∀ i opt n, P (GpRun i opt n)) →
  steps (emits (Forall P)) (call_run i opt f n).
Proof.
  intros HP. apply emits_call; [apply _ | | | apply quiet_run]; intros;
    apply Forall_singleton; [done | apply P_other; tauto].
Qed.

Lemma only_call_minimize k i f kw :
  (∀ k i kw, P (Minimize k i kw)) →
  steps (emits (Forall P)) (call_minimize k i f kw).
Proof.
  intros HP.
  apply emits_call; [apply _ | | | apply quiet_base_minimize]; intros;
    apply Forall_singleton; [done | apply P_other; tauto].
Qed.
End Only.

Lemma not_minimize_other e : ¬ is_chunk e → not_minimize e.
Proof. destruct e; simpl; tauto. Qed.

Lemma not_gp_run_other e : ¬ is_chunk e → not_gp_run e.
Proof. destruct e; simpl; tauto. Qed.

Hint Resolve not_minimize_other not_gp_run_other : steps.
Hint Resolve only_quiet only_plot_if only_dump_BO only_load only_load_BO
  : steps.

Lemma not_minimize_call_run i opt f n :
  steps (emits (Forall not_minimize)) (call_run i opt f n).
Proof. apply only_call_run; [apply not_minimize_other | done]. Qed.

Lemma not_gp_run_call_minimize k i f kw :
  steps (emits (Forall not_gp_run)) (call_minimize k i f kw).
Proof. apply only_call_minimize; [apply not_gp_run_other | done]. Qed.

Hint Resolve not_minimize_call_run not_gp_run_call_minimize : steps.

(** With the Gaussian-process minimizer selected, and unless checkpoints
    and early stopping are both on with more than one chunk, every chunk is
    a run of the Gaussian-process optimizer. *)
Lemma gp_chunks_are_gp_runs f a fuel :
  minimizer a = PMinimizer gp_minimize →
  save a && early_stop a && negb (saves_once a) = false →
  steps (emits (Forall not_minimize)) (Bayesian_optimization f a fuel).
Proof.
  intros Hm Hcfg. unfold Bayesian_optimization, dispatch.
  rewrite Hm. cbn [is_minimizer].
  rewrite !bool_decide_eq_false_2 by done.
  rewrite bool_decide_eq_true_2 by done. cbv iota.
  fold (saves_once a).
  destruct (save a), (early_stop a), (saves_once a); try discriminate Hcfg;
    cbn [negb andb orb];
    unfold gp_plain, gp_save_once, gp_save, gp_early; steps.
Qed.

(** With the Gaussian-process minimizer selected and checkpoints and early
    stopping both on with more than one chunk, no chunk is a run of the
    Gaussian-process optimizer. *)
Lemma gp_save_early_has_no_gp_run f a fuel :
  minimizer a = PMinimizer gp_minimize →
  save a = true → early_stop a = true → saves_once a = false →
  steps (emits (Forall not_gp_run)) (Bayesian_optimization f a fuel).
Proof.
  intros Hm Hsave Hearly Honce. unfold Bayesian_optimization, dispatch.
  rewrite Hm. cbn [is_minimizer].
  rewrite !bool_decide_eq_false_2 by done.
  rewrite bool_decide_eq_true_2 by done. cbv iota.
  fold (saves_once a). rewrite Hsave, Hearly, Honce. cbn [negb andb orb].
  unfold gp_save_early, restore. steps.
Qed.
End Strategy.

(* ===================================================================== *)
(** * Coherence metrics: the [topk] guard *)
(* ===================================================================== *)

(** C8.  For each of the four coherence metrics, if [topk] exceeds the
    number of words of the first topic of the model output, [score] raises
    the exception 'Words in topics are less than topk'; otherwise it returns
    what the metric computes from the topics with the unchanged [topk]. *)
Theorem score_too_few_words `{CoherenceMetrics.Numerics}
    (m : CoherenceMetrics.coherence_metric) (t0 : CoherenceMetrics.topic)
    (rest : list CoherenceMetrics.topic) :
  CoherenceMetrics.topics_of m = t0 :: rest →
  (CoherenceMetrics.topk_of m > Z.of_nat (length t0) →
     CoherenceMetrics.score m = Raise CoherenceMetrics.too_few_words)
  ∧ (CoherenceMetrics.topk_of m ≤ Z.of_nat (length t0) →
     CoherenceMetrics.score m = CoherenceMetrics.computed_score m).
Proof.
  intros Htopics.
  destruct m as [t x k c | t k wv | t k wv | t k wv];
    cbn [CoherenceMetrics.topics_of CoherenceMetrics.topk_of
         CoherenceMetrics.score CoherenceMetrics.computed_score] in *;
    subst t;
    unfold CoherenceMetrics.Coherence_score,
      CoherenceMetrics.Coherence_word_embeddings_score,
      CoherenceMetrics.Coherence_word_embeddings_pairwise_score,
      CoherenceMetrics.Coherence_word_embeddings_centroid_score;
    destruct (Z.gtb_spec k (Z.of_nat (length t0)));
    split; intros Hk; first [reflexivity | lia].
Qed.

Lemma score_too_few_words_witness :
  CoherenceMetrics.topics_of CoherenceDemo.three_words
    = ["a"; "b"; "c"] :: [["d"]]
  ∧ CoherenceMetrics.score CoherenceDemo.three_words
    = Raise (Exception "Words in topics are less than topk").
Proof.
  split; [reflexivity |].
  apply (score_too_few_words CoherenceDemo.three_words ["a"; "b"; "c"]
           [["d"]] eq_refl).
  simpl. lia.
Defined.

(* ===================================================================== *)
(** * The objective adapter: metric names *)
(* ===================================================================== *)

Section Metric_names.
Context `{Collaborators}.

Lemma numbered_inj base i j : numbered base i = numbered base j → i = j.
Proof.
  unfold numbered, str. intros Heq.
  apply (inj (String.app base)) in Heq.
  apply (inj (String.app " ")) in Heq.
  by apply (inj pretty) in Heq.
Qed.

(** The loop stops within [fuel] rounds as soon as [fuel] bounds the number
    of taken candidates, and it stops at the first free counter. *)
Lemma while_name_taken_returns fuel base i (mv : gmap string Q)
    (X : gset string) :
  (∀ j, (i ≤ j)%nat → is_Some (mv !! numbered base j) → numbered base j ∈ X) →
  (size X ≤ fuel)%nat →
  ∃ j, (i ≤ j)%nat
       ∧ while_name_taken fuel base i (numbered base i) mv
         = Ok (numbered base j)
       ∧ mv !! numbered base j = None
       ∧ ∀ j', (i ≤ j' < j)%nat → is_Some (mv !! numbered base j').
Proof.
  revert i X. induction fuel as [| fuel IH]; intros i X HX Hsize.
  - exists i. simpl. destruct (mv !! numbered base i) as [v |] eqn:Hi.
    + assert (numbered base i ∈ X) as Hin by (apply HX; [lia | eauto]).
      assert (size X = 0)%nat as Hz%size_empty_inv by lia.
      apply Hz in Hin. by apply not_elem_of_empty in Hin.
    + repeat split; try done. intros j' ?. lia.
  - simpl. destruct (mv !! numbered base i) as [v |] eqn:Hi.
    + assert (numbered base i ∈ X) as Hin by (apply HX; [lia | eauto]).
      destruct (IH (S i) (X ∖ {[numbered base i]})) as (j & Hj & Hrun & Hfree & Hbelow).
      * intros j Hj Hsome. apply elem_of_difference. split.
        -- apply HX; [lia | done].
        -- rewrite elem_of_singleton. intros Heq%numbered_inj. lia.
      * assert (size X = S (size (X ∖ {[numbered base i]}))) as Hs.
        { rewrite (size_difference X {[numbered base i]}).
          - rewrite size_singleton.
            assert (size X ≠ 0)%nat; [| lia].
            intros Hz%size_empty_inv. apply Hz in Hin.
            by apply not_elem_of_empty in Hin.
          - by apply singleton_subseteq_l. }
        lia.
      * exists j. split; [lia |]. split; [exact Hrun |]. split; [done |].
        intros j' Hj'. destruct (decide (j' = i)) as [-> | Hne]; [eauto |].
        apply Hbelow. lia.
    + exists i. repeat split; try done. intros j' ?. lia.
Qed.

(** [metric_key] always returns, with a key that is not taken yet: the
    class name if it is free, and otherwise the class name followed by the
    first free counter from 2 on. *)
Lemma metric_key_returns base (mv : gmap string Q) :
  ∃ key, metric_key base mv = Ok key ∧ mv !! key = None
    ∧ (mv !! base = None → key = base)
    ∧ (is_Some (mv !! base) →
       ∃ i, (2 ≤ i)%nat ∧ key = numbered base i
            ∧ ∀ j, (2 ≤ j < i)%nat → is_Some (mv !! numbered base j)).
Proof.
  unfold metric_key. destruct (mv !! base) as [v |] eqn:Hbase.
  - destruct (while_name_taken_returns (size mv) base 2 mv (dom mv))
      as (i & Hi & Hrun & Hfree & Hbelow).
    + intros j _ Hsome. by apply elem_of_dom.
    + by rewrite size_dom.
    + exists (numbered base i). split; [exact Hrun |]. split; [done |].
      split; [done |]. intros _. exists i. eauto.
  - exists base. repeat split; try done.
Qed.
End Metric_names.

Section Objective_log.
Context `{Collaborators}.

(** Scoring the extra metrics keeps every entry already recorded and adds
    one new key per extra metric. *)
Lemma score_extra_metrics_records extra out (mv mv' : gmap string Q) :
  score_extra_metrics extra out mv = Ok mv' →
  ∃ keys, Forall2 (recorded_as out mv') extra keys
    ∧ NoDup keys ∧ Forall (λ k, mv !! k = None) keys
    ∧ mv ⊆ mv' ∧ dom mv' = dom mv ∪ list_to_set keys.
Proof.
  revert mv. induction extra as [| m extra IH]; intros mv Hrun; simpl in Hrun.
  - injection Hrun as <-. exists [].
    split; [constructor |]. split; [constructor |]. split; [constructor |].
    split; [done |]. simpl. by rewrite (right_id_L ∅ (∪)).
  - destruct (metric_key_returns (class_name m) mv)
      as (key & Hkey & Hfree & Hname & Hnum).
    rewrite Hkey in Hrun. simpl in Hrun.
    destruct (metric_score m out) as [v | |] eqn:Hv; simpl in Hrun; try done.
    destruct (IH _ Hrun) as (keys & Hrec & Hnodup & Hnew & Hsub & Hdom).
    assert (mv' !! key = Some v) as Hmv'.
    { eapply lookup_weaken; [| exact Hsub]. by rewrite lookup_insert_eq. }
    exists (key :: keys). split; [| split; [| split; [| split]]].
    + constructor; [| done]. split; [| eauto].
      destruct (mv !! class_name m) as [v0 |] eqn:Hbase.
      * right. destruct Hnum as (i & ? & ? & _); eauto.
      * left. by apply Hname.
    + constructor; [| done]. intros Hin.
      rewrite Forall_forall in Hnew. specialize (Hnew _ Hin).
      by rewrite lookup_insert_eq in Hnew.
    + constructor; [done |]. eapply Forall_impl; [exact Hnew |].
      intros k Hk. simpl in Hk.
      destruct (decide (key = k)) as [-> | Hne].
      * by rewrite lookup_insert_eq in Hk.
      * by rewrite lookup_insert_ne in Hk.
    + etrans; [| exact Hsub]. by apply insert_subseteq.
    + rewrite Hdom, dom_insert_L, list_to_set_cons.
      by rewrite (comm_L (∪) {[key]} (dom mv)), <- (assoc_L (∪)).
Qed.

Lemma score_extra_metrics_returns extra out (mv : gmap string Q) :
  Forall (λ m, is_Ok (metric_score m out)) extra →
  is_Ok (score_extra_metrics extra out mv).
Proof.
  revert mv. induction extra as [| m extra IH]; intros mv Hall; simpl.
  - done.
  - destruct (metric_key_returns (class_name m) mv) as (key & -> & _).
    simpl. inversion Hall as [| ? ? Hm Hrest]; subst.
    destruct (metric_score m out); simpl in *; try done. by apply IH.
Qed.
End Objective_log.

Section Objective_theorem.
Context `{Collaborators}.

Lemma evaluate_records self v extra result mv :
  extra_metrics self = PMetrics extra →
  evaluate self v = Ok (result, mv) →
  ∃ out keys,
    metric_score (metric self) out = Ok result
    ∧ mv !! class_name (metric self) = Some result
    ∧ Forall2 (recorded_as out mv) extra keys
    ∧ NoDup (class_name (metric self) :: keys)
    ∧ dom mv = list_to_set (class_name (metric self) :: keys)
    ∧ size mv = S (length extra).
Proof.
  intros Hextra. unfold evaluate, score_model. rewrite Hextra.
  destruct (retrieve_params _ _) as [params | |]; simpl; try done.
  destruct (train_model _ _ _ _ _ _) as [out | |]; simpl; try done.
  destruct (metric_score (metric self) out) as [res | |] eqn:Hres;
    simpl; try done.
  destruct (score_extra_metrics _ _ _) as [mv' | |] eqn:Hrun;
    simpl; try done.
  intros [= -> ->].
  apply score_extra_metrics_records in Hrun
    as (keys & Hrec & Hnodup & Hnew & Hsub & Hdom).
  assert (class_name (metric self) ∉ keys) as Hnotin.
  { intros Hin. rewrite Forall_forall in Hnew. specialize (Hnew _ Hin).
    by rewrite lookup_singleton_eq in Hnew. }
  assert (dom mv = list_to_set (class_name (metric self) :: keys)) as Hd.
  { by rewrite Hdom, dom_singleton_L, list_to_set_cons. }
  exists out, keys. split; [done |]. split.
  { eapply lookup_weaken; [| exact Hsub]. by rewrite lookup_singleton_eq. }
  split; [done |]. split; [by constructor |]. split; [done |].
  rewrite <- size_dom, Hd, size_list_to_set by (by constructor).
  simpl. f_equal. symmetry. by eapply Forall2_length.
Qed.

Lemma evaluate_returns self v extra params out result :
  extra_metrics self = PMetrics extra →
  retrieve_params (hyperparameters self) v = Ok params →
  train_model (model self) (dataset self) params topk topic_word_matrix
    topic_document_matrix = Ok out →
  metric_score (metric self) out = Ok result →
  Forall (λ m, is_Ok (metric_score m out)) extra →
  is_Ok (evaluate self v).
Proof.
  intros Hextra Hparams Htrain Hscore Hall. unfold evaluate, score_model.
  rewrite Hparams. simpl. rewrite Htrain. simpl. rewrite Hscore. simpl.
  rewrite Hextra. simpl.
  pose proof (score_extra_metrics_returns extra out
                {[class_name (metric self) := result]} Hall) as Hok.
  by destruct (score_extra_metrics _ _ _).
Qed.

(** C9.  Within one evaluation an extra metric is recorded under its class
    name, or, when that name is taken, under the class name followed by the
    first free counter from 2 on; so every entry stays, the keys of the
    metric values are pairwise distinct, one per metric, and the record of
    the candidate and its metric values is appended to the log exactly once
    (and not at all when the evaluation raises).  The evaluation returns
    whenever the collaborators do. *)
Theorem objective_records_each_metric_once
    (self : Optimizer) (v : point) (its : list iteration)
    (extra : list Metric) :
  extra_metrics self = PMetrics extra →
  (∀ base (mv : gmap string Q),
     ∃ key, metric_key base mv = Ok key ∧ mv !! key = None
       ∧ (mv !! base = None → key = base)
       ∧ (is_Some (mv !! base) →
          ∃ i, (2 ≤ i)%nat ∧ key = numbered base i
               ∧ ∀ j, (2 ≤ j < i)%nat → is_Some (mv !! numbered base j)))
  ∧ match _objective_function self v its with
    | (Ok y, its') =>
        ∃ out result mv keys,
          its' = its ++ [(v, mv)]
          ∧ metric_score (metric self) out = Ok result
          ∧ mv !! class_name (metric self) = Some result
          ∧ Forall2 (recorded_as out mv) extra keys
          ∧ NoDup (class_name (metric self) :: keys)
          ∧ dom mv = list_to_set (class_name (metric self) :: keys)
          ∧ size mv = S (length extra)
    | (_, its') => its' = its
    end
  ∧ (∀ params out result,
       retrieve_params (hyperparameters self) v = Ok params →
       train_model (model self) (dataset self) params topk
         topic_word_matrix topic_document_matrix = Ok out →
       metric_score (metric self) out = Ok result →
       Forall (λ m, is_Ok (metric_score m out)) extra →
       is_Ok (_objective_function self v its).1).
Proof.
  intros Hextra. split; [apply metric_key_returns |]. split.
  - unfold _objective_function.
    destruct (evaluate self v) as [[result mv] | |] eqn:Hev; try done.
    destruct (evaluate_records _ _ _ _ _ Hextra Hev)
      as (out & keys & ? & ? & ? & ? & ? & ?).
    destruct (is_Maximize _); exists out, result, mv, keys; by repeat split.
  - intros params out result Hp Ht Hs Hall.
    pose proof (evaluate_returns _ _ _ _ _ _ Hextra Hp Ht Hs Hall) as Hok.
    unfold _objective_function.
    destruct (evaluate self v) as [[r mv] | |]; try done.
    by destruct (is_Maximize _).
Qed.
End Objective_theorem.

Lemma objective_records_each_metric_once_witness :
  extra_metrics Demo.optimizer = PMetrics Demo.extras
  ∧ ∃ y mv,
      _objective_function Demo.optimizer [HReal (1 # 2); HInt 7] []
        = (Ok y, [([HReal (1 # 2); HInt 7], mv)])
      ∧ size mv = 4%nat.
Proof.
  split; [reflexivity |].
  destruct (objective_records_each_metric_once Demo.optimizer
              [HReal (1 # 2); HInt 7] [] Demo.extras eq_refl)
    as (_ & Hlog & Hret).
  assert (is_Ok (_objective_function Demo.optimizer
                   [HReal (1 # 2); HInt 7] []).1) as Hok.
  { eapply Hret; [reflexivity | reflexivity | reflexivity |].
    repeat constructor. }
  destruct (_objective_function Demo.optimizer [HReal (1 # 2); HInt 7] [])
    as [[y | e |] its']; simpl in Hok; try destruct Hok.
  destruct Hlog as (out & result & mv & keys & -> & _ & _ & _ & _ & _ & Hsize).
  exists y, mv. split; [reflexivity | exact Hsize].
Defined.

(** The keys recorded for three extra metrics, two of which share the class
    name of the optimized metric. *)
Example objective_keys :
  match _objective_function Demo.optimizer [HReal (1 # 2); HInt 7] [] with
  | (Ok y, [(v, mv)]) =>
      y = (- (1 # 2))%Q
      ∧ map_to_list mv ≡ₚ [("Coherence", (1 # 2)%Q); ("Coherence 2", (1 # 3)%Q);
                           ("Coherence 3", (1 # 4)%Q);
                           ("Topic_diversity", (1 # 5)%Q)]
  | _ => False
  end.
Proof.
  vm_compute. split; [reflexivity |].
  apply NoDup_Permutation.
  - repeat constructor; rewrite ?elem_of_cons, ?elem_of_nil; intuition discriminate.
  - repeat constructor; rewrite ?elem_of_cons, ?elem_of_nil; intuition discriminate.
  - intros x. rewrite !elem_of_cons, !elem_of_nil. tauto.
Qed.

(* ===================================================================== *)
(** * The positional contract of hyper-parameter vectors *)
(* ===================================================================== *)

Section Positions.
Context `{Collaborators}.

Lemma returns_bind {A B} (P : B → Prop) (m : M A) (k : A → M B) :
  (∀ a, returns P (k a)) → returns P (bind m k).
Proof.
  intros Hk w b w'. unfold bind.
  destruct (m w) as [[a | e |] w1]; try done. apply Hk.
Qed.

Lemma returns_ret {A} (P : A → Prop) (a : A) : P a → returns P (ret a).
Proof. intros HP w a' w' [= <- _]. exact HP. Qed.








End Positions.


(* ===================================================================== *)
(** * The optimization direction *)
(* ===================================================================== *)

Section Direction.
Context `{Collaborators}.





End Direction.


(** The scenario end to end: three checkpointed random trials under
    "Maximize".  The checkpoint of a trial holds what the minimizer saw, the
    report holds the scores with their sign restored. *)
Example maximize_scenario :
  let run := optimize Demo.scenario 0 initial_world in
  match run.1 with
  | Ok report =>
      params_names report = ["x"]
      ∧ (λ r, (func_vals r, fun_ r)) <$> default [] (optimized_result report)
        = replicate 3 ([(1 # 10)%Q; (1 # 2)%Q; (3 # 10)%Q], (1 # 2)%Q)
      ∧ func_vals <$> files run.2 !! "partial_result_0.pkl"
        = Some [(- (1 # 10))%Q; (- (1 # 2))%Q; (- (3 # 10))%Q]
      ∧ length (iters report) = 9%nat
  | _ => False
  end.
Proof. vm_compute. repeat split; reflexivity. Qed.

(* ===================================================================== *)
(** * Configuration errors *)
(* ===================================================================== *)

Section Configuration.
Context `{Collaborators}.


End Configuration.



(** Zero calls with the source's defaults otherwise: the message printed. *)
Example zero_calls_message :
  let a := @mk_bo_args Demo.collaborators (PMinimizer gp_minimize) 0 10
             [None] [None] 10 false 1 "partial_result" false 10 false
             "Bayesian optimization plot" in
  let run := Bayesian_optimization Demo.objective a 0 initial_world in
  run.1 = Ok None
  ∧ stdout run.2 = [[PStr "Error: number_of_call can't be <= 0"]]
  ∧ trace run.2 = [].
Proof. vm_compute. repeat split; reflexivity. Qed.

(* ===================================================================== *)
(** * The shared default dictionary *)
(* ===================================================================== *)

(** C10.  [optimize] updates the module-level [default_parameters] with the
    instance's [optimization_parameters] and nothing puts the old values
    back; so, of two successive optimizations, the second reads every key
    that the first one set and that it does not set itself with the value
    of the first. *)
Theorem optimize_leaks_parameters `{Collaborators}
    (first second : Optimizer) (fuel1 fuel2 : nat) (w : World)
    (key : string) (value : pyval) :
  optimization_parameters first !! key = Some value →
  optimization_parameters second !! key = None →
  let w1 := (optimize first fuel1 w).2 in
  let w2 := (optimize second fuel2 w1).2 in
  default_parameters w1
  = optimization_parameters first ∪ default_parameters w
  ∧ default_parameters w2
    = optimization_parameters second
      ∪ (optimization_parameters first ∪ default_parameters w)
  ∧ default_parameters w2 !! key = Some value
  ∧ (default_parameter key (configured second w1)).1 = Ok value.
Proof.
  intros Hfirst Hsecond w1 w2.
  assert (default_parameters w1
          = optimization_parameters first ∪ default_parameters w) as H1
    by apply optimize_default_parameters.
  assert (default_parameters w2
          = optimization_parameters second
            ∪ (optimization_parameters first ∪ default_parameters w)) as H2.
  { unfold w2. by rewrite optimize_default_parameters, H1. }
  assert ((optimization_parameters second
           ∪ (optimization_parameters first ∪ default_parameters w)) !! key
          = Some value) as Hkey.
  { rewrite lookup_union_r by done. by apply lookup_union_Some_l. }
  split; [done |]. split; [done |]. split; [by rewrite H2 |].
  unfold default_parameter, configured. simpl. rewrite H1. by rewrite Hkey.
Qed.

Lemma optimize_leaks_parameters_witness :
  optimization_parameters Demo.scenario !! "n_calls" = Some (PInt 3)
  ∧ optimization_parameters Demo.optimizer !! "n_calls" = None
  ∧ default_parameters
      (optimize Demo.optimizer 0
         (optimize Demo.scenario 0 initial_world).2).2 !! "n_calls"
    = Some (PInt 3).
Proof.
  assert (optimization_parameters Demo.scenario !! "n_calls" = Some (PInt 3))
    as Hfirst by reflexivity.
  assert (optimization_parameters Demo.optimizer !! "n_calls" = None)
    as Hsecond by reflexivity.
  split; [exact Hfirst |]. split; [exact Hsecond |].
  apply (optimize_leaks_parameters Demo.scenario Demo.optimizer 0 0
           initial_world "n_calls" (PInt 3) Hfirst Hsecond).
Defined.

(** The source's default budget is 100 calls; after one optimization with a
    budget of 3, an optimizer that sets nothing runs with 3. *)
Example second_run_budget :
  initial_default_parameters (H := Demo.collaborators) !! "n_calls"
  = Some (PInt 100)
  ∧ (read_arguments
       (configured Demo.optimizer
          (optimize Demo.scenario 0 initial_world).2)).1
    = Ok (@mk_bo_args Demo.collaborators (PMinimizer dummy_minimize) 3 3
            [None] [None] 10 true 3 "partial_result" false 10 false
            "Bayesian optimization plot").
Proof. vm_compute. split; reflexivity. Qed.

(* ===================================================================== *)
(** * Checkpoints: saving, loading, resuming *)
(* ===================================================================== *)

Section Checkpoints.
Context `{Collaborators}.

Lemma bind_Ok {A B} (m : M A) (k : A → M B) w b w' :
  bind m k w = (Ok b, w') → ∃ a w1, m w = (Ok a, w1) ∧ k a w1 = (Ok b, w').
Proof.
  unfold bind. destruct (m w) as [[a | e |] w1]; try discriminate. eauto.
Qed.

Lemma lift_Ok {A} (o : outcome A) w a w' :
  lift o w = (Ok a, w') → o = Ok a ∧ w' = w.
Proof. unfold lift. by intros [= -> ->]. Qed.

Lemma ret_Ok {A} (a : A) w a' w' : ret a w = (Ok a', w') → a' = a ∧ w' = w.
Proof. unfold ret. by intros [= -> ->]. Qed.

Lemma create_result_fields (xs : list point) (ys : list Q) r :
  create_result xs ys = Ok r → x_iters r = xs ∧ func_vals r = ys.
Proof.
  unfold create_result. destruct xs as [| x xs], ys as [| y ys]; try done.
  destruct (argmin_from x y xs ys). by intros [= <-].
Qed.

(** ** A minimizer keeps the history it starts from *)

Lemma minimize_loop_extends n k nrs f cbs (xs : list point) (ys : list Q)
    w r w' :
  minimize_loop n k nrs f cbs xs ys w = (Ok r, w') →
  xs `prefix_of` x_iters r ∧ ys `prefix_of` func_vals r.
Proof.
  revert xs ys w. induction n as [| n IH]; intros xs ys w Hrun; simpl in Hrun.
  - apply lift_Ok in Hrun as [Hr _].
    apply create_result_fields in Hr as [-> ->]. done.
  - apply bind_Ok in Hrun as (y & w1 & _ & Hrun).
    apply bind_Ok in Hrun as (r1 & w2 & Hr1 & Hrun).
    apply lift_Ok in Hr1 as [Hr1 ->].
    apply create_result_fields in Hr1 as [Hx Hy].
    apply bind_Ok in Hrun as (stop & w3 & _ & Hrun).
    destruct stop.
    + apply ret_Ok in Hrun as [-> _]. rewrite Hx, Hy.
      split; by apply prefix_app_r.
    + apply IH in Hrun as [Hpx Hpy].
      split; by eapply prefix_app_l.
Qed.

Lemma base_minimize_extends k f kw (xs : list point) (ys : list Q) w r w' :
  Kw.x0 kw = Some xs → Kw.y0 kw = Some ys → length xs = length ys →
  base_minimize k f kw w = (Ok r, w') →
  xs `prefix_of` x_iters r ∧ ys `prefix_of` func_vals r.
Proof.
  intros Hx0 Hy0 Hlen. unfold base_minimize. intros Hrun.
  apply bind_Ok in Hrun as (u & w0 & Hchk & Hrun).
  apply lift_Ok in Hchk as [_ ->]. rewrite Hx0, Hy0 in Hrun.
  destruct xs as [| x xs].
  - destruct ys; [| done]. split; apply prefix_nil.
  - apply bind_Ok in Hrun as (told & w1 & Htold & Hrun).
    apply ret_Ok in Htold as [-> ->].
    destruct (negb _); [discriminate |].
    apply bind_Ok in Hrun as (r1 & w2 & Hr1 & Hrun).
    apply lift_Ok in Hr1 as [Hr1 ->].
    apply create_result_fields in Hr1 as [Hx Hy].
    apply bind_Ok in Hrun as (stop & w3 & _ & Hrun).
    destruct stop.
    + apply ret_Ok in Hrun as [-> _]. by rewrite Hx, Hy.
    + by apply minimize_loop_extends in Hrun.
Qed.

Lemma run_loop_extends n opt f w r w' :
  run_loop n opt f w = (Ok r, w') →
  Xi opt `prefix_of` x_iters r ∧ yi opt `prefix_of` func_vals r.
Proof.
  revert opt w. induction n as [| n IH]; intros opt w Hrun; simpl in Hrun.
  - apply lift_Ok in Hrun as [Hr _].
    apply create_result_fields in Hr as [-> ->]. done.
  - apply bind_Ok in Hrun as (p & w0 & Hask & Hrun).
    apply lift_Ok in Hask as [_ ->].
    apply bind_Ok in Hrun as (y & w1 & _ & Hrun).
    apply bind_Ok in Hrun as (opt' & w2 & Htell & Hrun).
    apply lift_Ok in Htell as [Htell ->]. unfold tell in Htell. simpl in Htell.
    injection Htell as <-.
    apply IH in Hrun as [Hpx Hpy]. simpl in *.
    split; by eapply prefix_app_l.
Qed.

Lemma run_extends opt f n w r w' :
  run opt f n w = (Ok r, w') →
  Xi opt `prefix_of` x_iters r ∧ yi opt `prefix_of` func_vals r.
Proof. apply run_loop_extends. Qed.

(** ** Files *)

(** What [load] returns from a file that [dump] has just written, also
    under another name of the same file. *)
Lemma load_after_dump r path path' w :
  resolve path' = resolve path →
  (load path' (dump r path w).2).1 = Ok r.
Proof.
  intros Hsame. unfold load, dump, bind, read_file, write_file, emit, ret.
  simpl. by rewrite Hsame, lookup_insert_eq.
Qed.

Lemma call_objective_files f p w : files (call_objective f p w).2 = files w.
Proof. unfold call_objective. by destruct (f p _). Qed.

(** Once the file [q] holds [r], evaluating callbacks on [r] leaves it so. *)
Lemma eval_callbacks_keeps cbs r q w :
  files w !! q = Some r → files (eval_callbacks cbs r w).2 !! q = Some r.
Proof.
  revert w. induction cbs as [| c cbs IH]; intros w Hq; simpl; [done |].
  unfold bind at 1.
  assert (files (call_callback c r w).2 !! q = Some r) as Hq1.
  { destruct c as [path | n m]; simpl; [| done].
    unfold bind, dump, write_file, ret. simpl.
    destruct (decide (resolve path = q)) as [-> | Hne];
      [by rewrite lookup_insert_eq | by rewrite lookup_insert_ne]. }
  destruct (call_callback c r w) as [[d | e |] w1]; simpl in *; try done.
  unfold bind. specialize (IH w1 Hq1).
  destruct (eval_callbacks cbs r w1) as [[s | e |] w2]; simpl in *; done.
Qed.

(** A [CheckpointSaver] among the callbacks leaves the result in its
    file. *)
Lemma eval_callbacks_saves cbs r p w b w' :
  eval_callbacks cbs r w = (Ok b, w') → CheckpointSaver p ∈ cbs →
  files w' !! resolve p = Some r.
Proof.
  revert w b w'. induction cbs as [| c cbs IH]; intros w b w' Hrun Hin.
  - by apply elem_of_nil in Hin.
  - simpl in Hrun. apply bind_Ok in Hrun as (d & w1 & Hc & Hrun).
    apply bind_Ok in Hrun as (s & w2 & Hrest & Hrun).
    apply ret_Ok in Hrun as [_ ->].
    apply elem_of_cons in Hin as [<- | Hin].
    + assert (files w1 !! resolve p = Some r) as Hq.
      { simpl in Hc. unfold bind, dump, write_file, ret in Hc. simpl in Hc.
        injection Hc as _ <-. simpl. by rewrite lookup_insert_eq. }
      pose proof (eval_callbacks_keeps cbs r _ w1 Hq) as Hkeep.
      by rewrite Hrest in Hkeep.
    + by eapply IH.
Qed.

Lemma minimize_loop_saves n k nrs f cbs (xs : list point) (ys : list Q)
    p w r w' :
  minimize_loop n k nrs f cbs xs ys w = (Ok r, w') →
  CheckpointSaver p ∈ cbs →
  (n = 0%nat → files w !! resolve p = Some r) →
  files w' !! resolve p = Some r.
Proof.
  intros Hrun Hin. revert xs ys w Hrun.
  induction n as [| n IH]; intros xs ys w Hrun Hzero; simpl in Hrun.
  - apply lift_Ok in Hrun as [_ ->]. by apply Hzero.
  - apply bind_Ok in Hrun as (y & w1 & _ & Hrun).
    apply bind_Ok in Hrun as (r1 & w2 & Hr1 & Hrun).
    apply lift_Ok in Hr1 as [Hr1 ->].
    apply bind_Ok in Hrun as (stop & w3 & Hcb & Hrun).
    pose proof (eval_callbacks_saves _ _ _ _ _ _ Hcb Hin) as Hsaved.
    destruct stop.
    + by apply ret_Ok in Hrun as [-> ->].
    + eapply IH; [exact Hrun |]. intros ->. simpl in Hrun.
      apply lift_Ok in Hrun as [Hr ->]. rewrite Hr1 in Hr.
      by injection Hr as <-.
Qed.

(** When a chunk returns, the file of each of its savers holds the result
    the chunk returns. *)
Lemma base_minimize_saves k f kw p w r w' :
  base_minimize k f kw w = (Ok r, w') →
  CheckpointSaver p ∈ Kw.callback kw →
  files w' !! resolve p = Some r.
Proof.
  unfold base_minimize. intros Hrun Hin.
  apply bind_Ok in Hrun as (u & wc & Hchk & Hrun).
  apply lift_Ok in Hchk as [_ ->]. cbv zeta in Hrun.
  assert (∀ w0, minimize_loop (Z.to_nat (Kw.n_calls kw)) k
                  (random_starts k kw) f
                  (Kw.callback kw) [] [] w0 = (Ok r, w') →
                files w' !! resolve p = Some r) as Hempty.
  { intros w0 Hrun0. eapply minimize_loop_saves; [exact Hrun0 | exact Hin |].
    intros Hz. rewrite Hz in Hrun0. cbn [minimize_loop] in Hrun0.
    by apply lift_Ok in Hrun0 as [? _]. }
  destruct (Kw.x0 kw) as [[| x xs] |]; [by eapply Hempty | | by eapply Hempty].
  apply bind_Ok in Hrun as ([ys n] & w1 & _ & Hrun).
  destruct (negb _); [discriminate |].
  apply bind_Ok in Hrun as (r1 & w2 & Hr1 & Hrun).
  apply lift_Ok in Hr1 as [Hr1 ->].
  apply bind_Ok in Hrun as (stop & w3 & Hcb & Hrun).
  pose proof (eval_callbacks_saves _ _ _ _ _ _ Hcb Hin) as Hsaved.
  destruct stop.
  - by apply ret_Ok in Hrun as [-> ->].
  - eapply minimize_loop_saves; [exact Hrun | exact Hin |].
    intros Hz. rewrite Hz in Hrun. cbn [minimize_loop] in Hrun.
    apply lift_Ok in Hrun as [Hr ->]. rewrite Hr1 in Hr.
    by injection Hr as <-.
Qed.

(** Loading the checkpoint of a chunk that has returned gives the history
    the chunk returned. *)
Lemma load_after_chunk k f kw p p' w r w' :
  base_minimize k f kw w = (Ok r, w') →
  CheckpointSaver p ∈ Kw.callback kw →
  resolve p' = resolve p →
  (load p' w').1 = Ok r.
Proof.
  intros Hrun Hin Hsame.
  pose proof (base_minimize_saves _ _ _ _ _ _ _ Hrun Hin) as Hfile.
  unfold load, bind, read_file. by rewrite Hsame, Hfile.
Qed.
(** The two names the driver uses for the checkpoint of a trial name the
    same file, unless the save name is an absolute path. *)
Lemma resolve_dot_slash path :
  (∀ rest, path ≠ String slash rest) →
  resolve ("./" +:+ path) = resolve path.
Proof.
  intros Hrel. destruct path as [| c rest]; [done |].
  unfold resolve at 2. destruct (Ascii.eqb c slash) eqn:Hc; [| done].
  apply Ascii.eqb_eq in Hc as ->. by destruct (Hrel rest).
Qed.
End Checkpoints.

Section Checkpoint_store.
Context `{Collaborators}.

Lemma string_length_app (s t : string) :
  String.length (s +:+ t) = (String.length s + String.length t)%nat.
Proof. induction s as [| c s IH]; simpl; [done | by rewrite IH]. Qed.

Lemma string_app_inj_r (s1 s2 t : string) : s1 +:+ t = s2 +:+ t → s1 = s2.
Proof.
  revert s2. induction s1 as [| c s1 IH]; intros [| d s2] Heq; simpl in *.
  - done.
  - apply (f_equal String.length) in Heq.
    rewrite !string_length_app in Heq. simpl in Heq. lia.
  - apply (f_equal String.length) in Heq.
    rewrite !string_length_app in Heq. simpl in Heq. lia.
  - injection Heq as -> Heq. f_equal. by apply IH.
Qed.

(** Resolving a name only removes a part of its directory prefix. *)
Lemma resolve_relative_app (n : nat) (sn : string) :
  (String.length sn ≤ n)%nat →
  ∃ sn', ∀ t, starts_plain t → resolve_relative (sn +:+ t) = sn' +:+ t.
Proof.
  revert sn. induction n as [| n IH]; intros sn Hlen.
  - destruct sn; [| simpl in Hlen; lia]. exists "".
    intros t (c & t' & -> & Hs & Hd). simpl.
    apply Ascii.eqb_neq in Hs, Hd. by rewrite Hs, Hd.
  - destruct sn as [| c rest].
    { exists "". intros t (c & t' & -> & Hs & Hd). simpl.
      apply Ascii.eqb_neq in Hs, Hd. by rewrite Hs, Hd. }
    simpl in Hlen. simpl.
    destruct (Ascii.eqb c slash) eqn:Hc.
    { destruct (IH rest) as [sn' Hsn']; [lia |]. by exists sn'. }
    destruct (Ascii.eqb c dot) eqn:Hc'; [| by exists (String c rest)].
    destruct rest as [| c' rest'].
    { exists (String c ""). intros t (d & t' & -> & Hs & Hd). simpl.
      apply Ascii.eqb_neq in Hs. by rewrite Hs. }
    simpl in Hlen. simpl.
    destruct (Ascii.eqb c' slash) eqn:Hc''; [| by exists (String c (String c' rest'))].
    destruct (IH rest') as [sn' Hsn']; [lia |]. by exists sn'.
Qed.

Lemma resolve_app (sn : string) :
  ∃ sn', ∀ t, starts_plain t → resolve (sn +:+ t) = sn' +:+ t.
Proof.
  destruct sn as [| c rest].
  - exists "". intros t (c & t' & -> & Hs & Hd). simpl.
    apply Ascii.eqb_neq in Hs, Hd. by rewrite !Hs, Hd.
  - unfold resolve. simpl. destruct (Ascii.eqb c slash) eqn:Hc.
    + by exists (String c rest).
    + destruct (resolve_relative_app (String.length (String c rest))
                  (String c rest)) as [sn' Hsn']; [done |].
      exists sn'. intros t Ht. specialize (Hsn' t Ht). simpl in Hsn'.
      by rewrite Hc in Hsn'.
Qed.

(** The checkpoints of distinct trials are distinct files. *)
Lemma checkpoint_file_inj sn i j :
  resolve (checkpoint_name sn i) = resolve (checkpoint_name sn j) → i = j.
Proof.
  unfold checkpoint_name. destruct (resolve_app sn) as [sn' Hsn'].
  rewrite !Hsn'.
  - intros Heq. apply (inj (String.app sn')) in Heq.
    apply (inj (String.app "_")) in Heq.
    apply string_app_inj_r in Heq. by apply (inj pretty) in Heq.
  - eexists _, _. split; [reflexivity |]. split; discriminate.
  - eexists _, _. split; [reflexivity |]. split; discriminate.
Qed.

Lemma dump_each_other rs sn i w p :
  (∀ j, p ≠ resolve (checkpoint_name sn (i + j))) →
  files (dump_each rs sn i w).2 !! p = files w !! p.
Proof.
  revert i w. induction rs as [| r rs IH]; intros i w Hp; simpl; [done |].
  unfold bind at 1. unfold dump, write_file. simpl.
  set (w1 := mk_World _ _ _ _ _).
  assert (files (dump_each rs sn (S i) w1).2 !! p = files w1 !! p) as Hrest.
  { apply IH. intros j. specialize (Hp (S j)).
    by rewrite Nat.add_succ_r in Hp. }
  unfold bind at 1.
  destruct (dump_each rs sn (S i) w1) as [[names | e |] w2]; simpl in *;
    rewrite Hrest; unfold w1; simpl;
    (rewrite lookup_insert_ne; [done |]);
    specialize (Hp 0%nat); rewrite Nat.add_0_r in Hp; congruence.
Qed.

Lemma dump_each_files rs sn i w :
  ∃ w', dump_each rs sn i w
        = (Ok (imap (λ j _, checkpoint_name sn (i + j)) rs), w')
    ∧ (∀ j r, rs !! j = Some r →
              files w' !! resolve (checkpoint_name sn (i + j)) = Some r).
Proof.
  revert i w. induction rs as [| r rs IH]; intros i w; simpl.
  - exists w. split; [done |]. intros j r Hj. by rewrite lookup_nil in Hj.
  - unfold bind at 1. unfold dump, write_file. simpl.
    set (w1 := mk_World _ _ _ _ _).
    destruct (IH (S i) w1) as (w' & Hrun & Hfiles).
    exists w'. unfold bind at 1. rewrite Hrun. unfold ret. split.
    + f_equal. f_equal. rewrite Nat.add_0_r. f_equal.
      apply imap_ext. intros j x _. simpl. by rewrite Nat.add_succ_r.
    + intros [| j] r' Hj; simpl in Hj.
      * injection Hj as <-.
        pose proof (dump_each_other rs sn (S i) w1
                      (resolve (checkpoint_name sn (i + 0)))) as Hkeep.
        rewrite Hrun in Hkeep. simpl in Hkeep. rewrite Hkeep.
        -- by rewrite Nat.add_0_r, lookup_insert_eq.
        -- intros j Heq. apply checkpoint_file_inj in Heq. lia.
      * rewrite Nat.add_succ_r. by apply Hfiles.
Qed.

Lemma mapM_read_files (names : list string) (rs : list OptimizeResult) w :
  length names = length rs →
  (∀ j name r, names !! j = Some name → rs !! j = Some r →
               files w !! resolve name = Some r) →
  mapM (λ path, read_file (resolve path)) names w = (Ok rs, w).
Proof.
  revert rs. induction names as [| name names IH]; intros [| r rs] Hlen Hall;
    try discriminate; simpl; [done |].
  unfold bind at 1, read_file at 1.
  rewrite (Hall 0%nat name r eq_refl eq_refl).
  unfold bind at 1. rewrite (IH rs).
  - done.
  - by injection Hlen.
  - intros j name' r' Hn Hr. by apply (Hall (S j)).
Qed.

(** What [load_BO] returns from the handle of a [dump_BO]: the list of
    results that was saved. *)
Lemma load_BO_after_dump_BO rs sn w handle w' :
  dump_BO rs sn w = (Ok handle, w') → (load_BO handle w').1 = Ok rs.
Proof.
  unfold dump_BO. intros Hrun.
  apply bind_Ok in Hrun as ([] & w1 & _ & Hrun).
  destruct (dump_each_files rs sn 0 w1) as (w2 & Hrun' & Hfiles).
  rewrite Hrun' in Hrun. injection Hrun as <- <-.
  unfold load_BO, bind at 1. rewrite (mapM_read_files _ rs).
  - done.
  - by rewrite length_imap.
  - intros j name r Hname Hr. rewrite list_lookup_imap, Hr in Hname.
    injection Hname as <-. by apply Hfiles.
Qed.
End Checkpoint_store.

(* ===================================================================== *)
(** * Continuity of resumed trials *)
(* ===================================================================== *)

Section Logic.
Context `{Collaborators}.

Lemma last_returned_snoc evs e i :
  last_returned (evs ++ [e]) i
  = match e with
    | Returned j r =>
        if bool_decide (j = i) then Some r else last_returned evs i
    | _ => last_returned evs i
    end.
Proof. unfold last_returned. by rewrite foldl_app. Qed.

Lemma continuous_nil : continuous [].
Proof. intros pre e post Heq. by destruct pre. Qed.

Lemma continuous_snoc t e :
  continuous t → (Exists is_load t → continues t e) → continuous (t ++ [e]).
Proof.
  intros Ht He pre e' post Heq Hload.
  destruct post as [| e'' post _] using rev_ind.
  - apply app_inj_tail in Heq as [<- <-]. by apply He.
  - rewrite app_comm_cons, app_assoc in Heq.
    apply app_inj_tail in Heq as [-> _]. by eapply Ht.
Qed.

Lemma continuous_snoc_no_load t e :
  continuous t → no_load t → continuous (t ++ [e]).
Proof.
  intros Ht Hno. apply continuous_snoc; [done |]. intros Hload.
  apply Exists_exists in Hload as (x & Hx & Hl).
  unfold no_load in Hno. rewrite Forall_forall in Hno. by destruct (Hno x).
Qed.

Global Instance same_store_refl : Reflexive same_store.
Proof. intros w. split; reflexivity. Qed.

Global Instance same_store_trans : Transitive same_store.
Proof. intros w1 w2 w3 [? ?] [? ?]. split; congruence. Qed.

Lemma WP_mono {A} t fs (m : M A) (Q Q' : A → list event → store → Prop) :
  (∀ a t' fs', Q a t' fs' → Q' a t' fs') → WP t fs m Q → WP t fs m Q'.
Proof.
  intros HQ Hm w Ht Hf. specialize (Hm w Ht Hf).
  destruct (m w) as [[a | e |] w']; auto.
Qed.

Lemma WP_bind {A B} t fs (m : M A) (k : A → M B) Q :
  WP t fs m (λ a t' fs', WP t' fs' (k a) Q) → WP t fs (bind m k) Q.
Proof.
  intros Hm w Ht Hf. specialize (Hm w Ht Hf). unfold bind.
  destruct (m w) as [[a | e |] w1]; try done. by apply Hm.
Qed.

Lemma WP_ret {A} t fs (a : A) (Q : A → list event → store → Prop) :
  Q a t fs → WP t fs (ret a) Q.
Proof. intros HQ w <- <-. done. Qed.

Lemma WP_raise {A} t fs e (Q : A → list event → store → Prop) :
  continuous t → WP t fs (raise e) Q.
Proof. intros HQ w <- <-. done. Qed.

Lemma WP_lift {A} t fs (o : outcome A) (Q : A → list event → store → Prop) :
  continuous t → (∀ a, o = Ok a → Q a t fs) → WP t fs (lift o) Q.
Proof. intros Ht HQ w <- <-. unfold lift. destruct o; auto. Qed.

(** Code that leaves the store alone and whose value satisfies [Φ]. *)
Lemma WP_stable {A} t fs (m : M A) (Φ : A → Prop)
    (Q : A → list event → store → Prop) :
  steps same_store m → returns Φ m → continuous t →
  (∀ a, Φ a → Q a t fs) → WP t fs m Q.
Proof.
  intros Hm HΦ Ht HQ w <- <-. destruct (Hm w) as [Htr Hfs].
  specialize (HΦ w). destruct (m w) as [[a | e |] w']; simpl in *.
  - rewrite Htr, Hfs. apply HQ. by eapply HΦ.
  - by rewrite Htr.
  - by rewrite Htr.
Qed.

Lemma WP_emit t fs e (Q : unit → list event → store → Prop) :
  Q tt (t ++ [e]) fs → WP t fs (emit e) Q.
Proof. intros HQ w <- <-. done. Qed.

Lemma WP_for_loop {St} (I : nat → St → list event → store → Prop)
    lo len (body : nat → St → M St) s t fs Q :
  I lo s t fs →
  (∀ i s t fs, (lo ≤ i < lo + len)%nat → I i s t fs →
     WP t fs (body i s) (I (S i))) →
  (∀ s t fs, I (lo + len)%nat s t fs → Q s t fs) →
  WP t fs (for_loop (seq lo len) body s) Q.
Proof.
  revert lo s t fs. induction len as [| len IH]; intros lo s t fs HI Hbody HQ.
  - simpl. apply WP_ret, HQ. by rewrite Nat.add_0_r.
  - simpl. apply WP_bind. eapply WP_mono; [| apply Hbody; [lia | done]].
    intros s' t' fs' HI'. apply IH; [done | |].
    + intros i s0 t0 fs0 Hi. apply Hbody. lia.
    + intros s0 t0 fs0 HI0. apply HQ.
      by replace (lo + S len)%nat with (S lo + len)%nat by lia.
Qed.

Lemma WP_for_range {St} (I : nat → St → list event → store → Prop)
    n (body : nat → St → M St) s t fs Q :
  I 0%nat s t fs →
  (∀ i s t fs, (i < Z.to_nat n)%nat → I i s t fs →
     WP t fs (body i s) (I (S i))) →
  (∀ s t fs, I (Z.to_nat n) s t fs → Q s t fs) →
  WP t fs (for_range n body s) Q.
Proof.
  intros HI Hbody HQ. unfold for_range.
  apply (WP_for_loop I); [done | | done].
  intros i s0 t0 fs0 Hi. apply Hbody. lia.
Qed.

Lemma WP_while {St} (I : St → list event → store → Prop)
    fuel (body : Z → St → M (Z * St)) r s t fs Q :
  I s t fs →
  (∀ r s t fs, I s t fs → WP t fs (body r s) (λ rs, I rs.2)) →
  (∀ s t fs, I s t fs → Q s t fs ∧ continuous t) →
  WP t fs (while_calls_left fuel body r s) Q.
Proof.
  intros HI Hbody HQ. revert r s t fs HI.
  induction fuel as [| fuel IH]; intros r s t fs HI; simpl.
  - destruct (r >? 0).
    + intros w <- <-. simpl. by destruct (HQ s _ _ HI).
    + apply WP_ret. by apply HQ.
  - destruct (r >? 0); [| apply WP_ret; by apply HQ].
    apply WP_bind. eapply WP_mono; [| by apply Hbody].
    intros [r' s'] t' fs' HI'. by apply IH.
Qed.
End Logic.

Section Stable.
Context `{Collaborators}.

Lemma same_store_print s : steps same_store (print s).
Proof. intros w. split; reflexivity. Qed.

Lemma same_store_print_args args : steps same_store (print_args args).
Proof. intros w. split; reflexivity. Qed.

Lemma same_store_read_file path : steps same_store (read_file path).
Proof. intros w. unfold read_file. destruct (_ !! _); split; reflexivity. Qed.

Lemma same_store_default_parameter key :
  steps same_store (default_parameter key).
Proof.
  intros w. unfold default_parameter. destruct (_ !! _); split; reflexivity.
Qed.

Lemma same_store_call_objective f p : steps same_store (call_objective f p).
Proof.
  intros w. unfold call_objective. destruct (f p _); split; reflexivity.
Qed.

Hint Resolve same_store_print same_store_print_args same_store_read_file
  same_store_default_parameter same_store_call_objective : steps.

Lemma same_store_minimizer_stringa : steps same_store minimizer_stringa.
Proof. unfold minimizer_stringa, bind_stringa. steps. Qed.

Lemma same_store_print_banner stringa :
  steps same_store (print_banner stringa).
Proof. unfold print_banner, local_variable. steps. Qed.

Lemma same_store_run opt f n : steps same_store (run opt f n).
Proof.
  unfold run. generalize (Z.to_nat n) as k. intros k. revert opt.
  induction k as [| k IH]; intros opt; simpl; steps.
Qed.

Lemma same_store_early_stopper a : steps same_store (early_stopper a).
Proof. unfold early_stopper. steps. Qed.

Lemma same_store_saver_of cs i : steps same_store (saver_of cs i).
Proof. unfold saver_of. steps. Qed.

Lemma same_store_tell_initial opt x0 y0 i :
  steps same_store (tell_initial opt x0 y0 i).
Proof. unfold tell_initial. steps. Qed.

Lemma same_store_flag_if_early a flags i r :
  steps same_store (flag_if_early a flags i r).
Proof. unfold flag_if_early. steps. Qed.

Lemma same_store_setitem {A} (l : list A) i v :
  steps same_store (setitem l i v).
Proof. apply steps_setitem; apply _. Qed.

Lemma returns_setitem {A} (l : list A) i v :
  returns (λ l', l' = <[i := v]> l ∧ (i < length l)%nat) (setitem l i v).
Proof.
  intros w l' w'. unfold setitem. case_bool_decide; [| done].
  by intros [= <- _].
Qed.

Lemma returns_saver_of cs i :
  returns (λ c, cs !! i = Some (Some c)) (saver_of cs i).
Proof.
  intros w c w'. unfold saver_of, bind, lift, getitem.
  destruct (cs !! i) as [[c' |] |]; try done. by intros [= <- _].
Qed.

Lemma returns_early_stopper a :
  returns (λ c, ∃ n, c = MyCustomEarlyStopper (early_step a) n)
    (early_stopper a).
Proof.
  intros w c w'. unfold early_stopper, bind, default_parameter, lift.
  destruct (_ !! _) as [v |]; [| done].
  destruct (as_int v) as [n | |]; try done. intros [= <- _]. by eexists.
Qed.

Lemma returns_tell_initial opt x0 y0 i :
  returns (λ opt', opt_n_random_starts opt' = opt_n_random_starts opt
                   ∧ opt_n_initial_points opt' = opt_n_initial_points opt)
    (tell_initial opt x0 y0 i).
Proof.
  intros w c w'. unfold tell_initial, bind, lift, getitem.
  destruct (x0 !! i) as [[xs |] |]; try done; [| by intros [= <- _]].
  destruct (y0 !! i) as [[ys |] |]; try done; [| by intros [= <- _]].
  unfold tell. destruct (_ =? _)%nat; [| done]. by intros [= <- _].
Qed.

Lemma returns_True {A} (m : M A) : returns (λ _, True) m.
Proof. by intros w a w' _. Qed.
End Stable.

Section Primitives.
Context `{Collaborators}.

Lemma continuous_snoc_other t e :
  continuous t → ¬ is_chunk e → continuous (t ++ [e]).
Proof.
  intros Ht He. apply continuous_snoc; [done |]. intros _.
  destruct e; simpl in *; tauto.
Qed.

Lemma WP_plot_if t fs b name (Q : unit → list event → store → Prop) :
  Q tt t fs → Q tt (t ++ [Plot (name +:+ ".png")]) fs →
  WP t fs (plot_if b name) Q.
Proof.
  intros H1 H2. unfold plot_if. destruct b; [by apply WP_emit | by apply WP_ret].
Qed.

Lemma WP_load t fs path (Q : OptimizeResult → list event → store → Prop) :
  continuous t →
  (∀ r, fs !! resolve path = Some r → Q r (t ++ [Load path r]) fs) →
  WP t fs (load path) Q.
Proof.
  intros Ht HQ w <- <-. unfold load, bind, read_file, emit, ret.
  destruct (files w !! resolve path) as [r |] eqn:Hr; simpl; [| done].
  by apply HQ.
Qed.

Global Instance keeps_refl q : Reflexive (keeps q).
Proof. intros w. reflexivity. Qed.

Global Instance keeps_trans q : Transitive (keeps q).
Proof. intros w1 w2 w3 H1 H2. unfold keeps in *. congruence. Qed.

Lemma keeps_call_objective q f p : steps (keeps q) (call_objective f p).
Proof. intros w. unfold keeps. by rewrite call_objective_files. Qed.

Lemma keeps_eval_callbacks q cbs r :
  (∀ p, CheckpointSaver p ∈ cbs → resolve p ≠ q) →
  steps (keeps q) (eval_callbacks cbs r).
Proof.
  induction cbs as [| c cbs IH]; intros Hq; simpl; [steps |].
  step; [| step; [apply IH; intros p Hp; apply Hq; by right | steps]].
  destruct c as [path | n m]; simpl; [| steps].
  step; [| steps]. intros w. unfold keeps, dump, write_file. simpl.
  rewrite lookup_insert_ne; [done |]. apply Hq. left.
Qed.

Lemma keeps_minimize_loop q n k nrs f cbs xs ys :
  (∀ p, CheckpointSaver p ∈ cbs → resolve p ≠ q) →
  steps (keeps q) (minimize_loop n k nrs f cbs xs ys).
Proof.
  intros Hq. revert xs ys.
  induction n as [| n IH]; intros xs ys; simpl; [steps |].
  step; [apply keeps_call_objective |].
  step; [steps |]. step; [by apply keeps_eval_callbacks |].
  step; [steps | apply IH].
Qed.

Lemma keeps_base_minimize q k f kw :
  (∀ p, CheckpointSaver p ∈ Kw.callback kw → resolve p ≠ q) →
  steps (keeps q) (base_minimize k f kw).
Proof.
  intros Hq. unfold base_minimize. step; [steps |]. cbv zeta.
  destruct (Kw.x0 kw) as [[| x xs] |]; try by apply keeps_minimize_loop.
  apply steps_bind; [apply _ .. | | intros [ys n]].
  - destruct (Kw.y0 kw); [steps |]. step; [| steps].
    apply steps_mapM; [apply _ .. |]. intros p. apply keeps_call_objective.
  - destruct (negb _); [steps |].
    step; [steps |]. step; [by apply keeps_eval_callbacks |].
    step; [steps | by apply keeps_minimize_loop].
Qed.

Lemma base_minimize_other k f kw q w :
  (∀ p, CheckpointSaver p ∈ Kw.callback kw → resolve p ≠ q) →
  files (base_minimize k f kw w).2 !! q = files w !! q.
Proof. intros Hq. by apply keeps_base_minimize. Qed.

Lemma WP_call_minimize t fs k i f kw
    (Q : OptimizeResult → list event → store → Prop) :
  continuous (t ++ [Minimize k i kw]) →
  (∀ r fs',
     (∀ p, CheckpointSaver p ∈ Kw.callback kw → fs' !! resolve p = Some r) →
     (∀ q, (∀ p, CheckpointSaver p ∈ Kw.callback kw → resolve p ≠ q) →
           fs' !! q = fs !! q) →
     Q r (t ++ [Minimize k i kw; Returned i r]) fs') →
  WP t fs (call_minimize k i f kw) Q.
Proof.
  intros Ht HQ w <- <-. unfold call_minimize, bind at 1, emit. simpl.
  set (w1 := mk_World _ _ _ _ _).
  destruct (quiet_base_minimize k f kw w1) as [Htr _].
  unfold bind at 1.
  destruct (base_minimize k f kw w1) as [[r | e |] w2] eqn:Hrun; simpl in *.
  - unfold bind, emit, ret. simpl. rewrite Htr, <- app_assoc. simpl.
    apply HQ.
    + intros p Hp. by eapply base_minimize_saves.
    + intros q Hq. pose proof (base_minimize_other k f kw q w1 Hq) as Hother.
      by rewrite Hrun in Hother.
  - by rewrite Htr.
  - by rewrite Htr.
Qed.

Lemma WP_call_run t fs i opt f n
    (Q : OptimizeResult → list event → store → Prop) :
  continuous (t ++ [GpRun i opt n]) →
  (∀ r, Q r (t ++ [GpRun i opt n; Returned i r]) fs) →
  WP t fs (call_run i opt f n) Q.
Proof.
  intros Ht HQ w <- <-. unfold call_run, bind at 1, emit. simpl.
  set (w1 := mk_World _ _ _ _ _).
  destruct (same_store_run opt f n w1) as [Htr Hfs].
  unfold bind at 1.
  destruct (run opt f n w1) as [[r | e |] w2]; simpl in *.
  - unfold bind, emit, ret. simpl. rewrite Htr, Hfs, <- app_assoc. simpl.
    apply HQ.
  - by rewrite Htr.
  - by rewrite Htr.
Qed.

Lemma WP_dump_BO t fs rs sn (Q : list string → list event → store → Prop) :
  (∀ fs',
     (∀ j r, rs !! j = Some r →
             fs' !! resolve (checkpoint_name sn j) = Some r) →
     Q (imap (λ j _, checkpoint_name sn j) rs) (t ++ [DumpBO sn rs]) fs') →
  WP t fs (dump_BO rs sn) Q.
Proof.
  intros HQ w <- <-. unfold dump_BO, bind at 1, emit. simpl.
  set (w1 := mk_World _ _ _ _ _).
  destruct (dump_each_files rs sn 0 w1) as (w2 & Hrun & Hfiles).
  destruct (quiet_dump_each rs sn 0%nat w1) as [Htr _].
  rewrite Hrun in *. simpl in *. rewrite Htr. by apply HQ.
Qed.

Lemma mapM_read_file_Ok (names : list string) w rs w' :
  mapM (λ path, read_file (resolve path)) names w = (Ok rs, w') →
  w' = w ∧ Forall2 (λ name r, files w !! resolve name = Some r) names rs.
Proof.
  revert rs. induction names as [| name names IH]; intros rs; simpl.
  - intros [= <- <-]. by split.
  - intros Hrun. apply bind_Ok in Hrun as (r & w1 & Hr & Hrun).
    apply bind_Ok in Hrun as (rs' & w2 & Hrs & Hrun).
    apply ret_Ok in Hrun as [-> ->].
    unfold read_file in Hr.
    destruct (files w !! resolve name) as [r' |] eqn:Hfile; [| done].
    injection Hr as <- <-. apply IH in Hrs as [-> Hall]. by split; [| constructor].
Qed.

Lemma WP_load_BO t fs handle
    (Q : list OptimizeResult → list event → store → Prop) :
  continuous t →
  (∀ rs, Forall2 (λ name r, fs !! resolve name = Some r) handle rs →
         Q rs (t ++ [LoadBO handle rs]) fs) →
  WP t fs (load_BO handle) Q.
Proof.
  intros Ht HQ w <- <-. unfold load_BO, bind at 1.
  assert (steps same_store (mapM (λ path, read_file (resolve path)) handle))
    as Hst by (apply steps_mapM; [apply _ .. |]; intros; apply same_store_read_file).
  destruct (Hst w) as [Htr Hfs].
  destruct (mapM _ handle w) as [[rs | e |] w1] eqn:Hrun; simpl in *;
    [| by rewrite Htr | by rewrite Htr].
  apply mapM_read_file_Ok in Hrun as [-> Hall].
  unfold bind, emit, ret. simpl. by apply HQ.
Qed.
End Primitives.

Section Savers.
Context `{Collaborators}.
Variables (f : objective_t) (a : bo_args) (fuel : nat).
Variables (x0 : list (option (list point))) (y0 : list (option (list Q))).
Hypothesis relative : ∀ rest, save_name a ≠ String slash rest.

Local Abbreviation file := (λ i, resolve (checkpoint_name (save_name a) i)).
Local Abbreviation n := (Z.to_nat (different_iteration a)).

Lemma savers_insert cs i p :
  savers a cs → resolve p = file i →
  savers a (<[i := Some (CheckpointSaver p)]> cs).
Proof.
  intros Hcs Hp j c Hj.
  destruct (decide (i = j)) as [-> | Hne].
  - apply list_lookup_insert_Some in Hj as [(_ & Hc & _) | [? _]]; [| done].
    injection Hc as <-. by eexists.
  - rewrite list_lookup_insert_ne in Hj by done. by apply Hcs.
Qed.

Lemma savers_dot_slash cs i :
  savers a cs → savers a (<[i := Some (checkpoint_saver_t a i)]> cs).
Proof.
  intros Hcs. apply savers_insert; [done |]. apply resolve_dot_slash.
  intros rest Heq. unfold checkpoint_name in Heq.
  destruct (save_name a) as [| c s] eqn:Hsn; [discriminate |].
  injection Heq as -> _. by eapply relative.
Qed.

Lemma last_returned_chunk t e i r j :
  (∀ j' r', e ≠ Returned j' r') →
  last_returned (t ++ [e; Returned i r]) j
  = if bool_decide (i = j) then Some r else last_returned t j.
Proof.
  intros He. change [e; Returned i r] with ([e] ++ [Returned i r]).
  rewrite app_assoc, !last_returned_snoc.
  case_bool_decide; [done |]. destruct e; try done. by destruct (He i0 r0).
Qed.

Lemma last_returned_other t e j :
  (∀ j' r', e ≠ Returned j' r') →
  last_returned (t ++ [e]) j = last_returned t j.
Proof.
  intros He. rewrite last_returned_snoc. destruct e; try done.
  by destruct (He i r).
Qed.

(** What a chunk of trial [i] with the saver of trial [i] leaves behind. *)
Lemma synced_chunk i' i t (fs fs' : store) e r (cbs : list callback) :
  synced a i' t fs →
  (∀ j' r', e ≠ Returned j' r') →
  (∃ p, CheckpointSaver p ∈ cbs) →
  (∀ p, CheckpointSaver p ∈ cbs → resolve p = file i) →
  (∀ p, CheckpointSaver p ∈ cbs → fs' !! resolve p = Some r) →
  (∀ q, (∀ p, CheckpointSaver p ∈ cbs → resolve p ≠ q) →
        fs' !! q = fs !! q) →
  ∀ j, (j < i' ∨ j = i)%nat →
    ∃ r', last_returned (t ++ [e; Returned i r]) j = Some r'
          ∧ fs' !! file j = Some r'.
Proof.
  intros Hsync He [p Hp] Hfile Hsaved Hother j Hj.
  rewrite last_returned_chunk by done. case_bool_decide as Hij.
  - subst j. exists r. split; [done |]. rewrite <- (Hfile p Hp).
    by apply Hsaved.
  - destruct Hj as [Hj | ->]; [| done].
    destruct (Hsync j Hj) as (r' & Hlast & Hfs). exists r'.
    split; [done |]. rewrite Hother; [done |].
    intros p' Hp' Heq. rewrite (Hfile p' Hp') in Heq.
    by apply checkpoint_file_inj in Heq.
Qed.

Lemma synced_other i t (fs : store) e :
  synced a i t fs → (∀ j' r', e ≠ Returned j' r') → synced a i (t ++ [e]) fs.
Proof.
  intros Hsync He j Hj. rewrite last_returned_other by done. by apply Hsync.
Qed.

Lemma no_load_snoc t e : no_load t → ¬ is_load e → no_load (t ++ [e]).
Proof. intros Ht He. apply Forall_app. split; [done | by constructor]. Qed.

Lemma first_pass_state_chunk i res res' cs cs' t fs fs' k kw r :
  first_pass_state a i (res, cs) t fs → savers a cs' →
  (∃ p, CheckpointSaver p ∈ Kw.callback kw) →
  (∀ p, CheckpointSaver p ∈ Kw.callback kw → resolve p = file i) →
  (∀ p, CheckpointSaver p ∈ Kw.callback kw → fs' !! resolve p = Some r) →
  (∀ q, (∀ p, CheckpointSaver p ∈ Kw.callback kw → resolve p ≠ q) →
        fs' !! q = fs !! q) →
  first_pass_state a (S i) (res', cs') (t ++ [Minimize k i kw; Returned i r]) fs'.
Proof.
  intros (Hc & Hno & Hsync & Hcs) Hcs' Hex Hfile Hsaved Hother.
  assert (no_load (t ++ [Minimize k i kw; Returned i r])) as Hno'.
  { apply Forall_app. split; [done |]. repeat constructor; simpl; tauto. }
  split; [| split; [done | split; [| done]]].
  - change [Minimize k i kw; Returned i r]
      with ([Minimize k i kw] ++ [Returned i r]).
    rewrite app_assoc. apply continuous_snoc_no_load.
    + by apply continuous_snoc_no_load.
    + apply no_load_snoc; [done | simpl; tauto].
  - intros j Hj. eapply synced_chunk; try done. lia.
Qed.

Lemma first_pass_state_other i st t fs e :
  first_pass_state a i st t fs → ¬ is_chunk e → ¬ is_load e →
  (∀ j' r', e ≠ Returned j' r') →
  first_pass_state a i st (t ++ [e]) fs.
Proof.
  intros (Hc & Hno & Hsync & Hcs) He Hl Hr.
  split; [by apply continuous_snoc_other |].
  split; [by apply no_load_snoc |]. split; [| done].
  by apply synced_other.
Qed.

Lemma savers_first cs i :
  savers a cs →
  savers a (<[i := Some (CheckpointSaver (checkpoint_name (save_name a) i))]> cs).
Proof. intros Hcs. by apply savers_insert. Qed.

Lemma first_pass_state_savers i st t fs : first_pass_state a i st t fs → savers a st.2.
Proof. by intros (_ & _ & _ & Hcs). Qed.

Lemma resumable_state_savers st t fs : resumable_state a st t fs → savers a st.2.
Proof. by intros (_ & _ & Hcs). Qed.

Lemma first_pass_state_continuous i st t fs k j kw :
  first_pass_state a i st t fs → continuous (t ++ [Minimize k j kw]).
Proof. intros (Hc & Hno & _). by apply continuous_snoc_no_load. Qed.

Lemma first_pass_is_resumable st t fs : first_pass_state a n st t fs → resumable_state a st t fs.
Proof. intros (Hc & Hno & Hsync & Hcs). done. Qed.

Lemma resumable_state_other st t fs e :
  resumable_state a st t fs → ¬ is_chunk e → (∀ j' r', e ≠ Returned j' r') →
  resumable_state a st (t ++ [e]) fs.
Proof.
  intros (Hc & Hsync & Hcs) He Hr.
  split; [by apply continuous_snoc_other | split; [| done]].
  by apply synced_other.
Qed.

Lemma resumable_state_chunk res res' cs cs' t fs fs' i k kw r :
  resumable_state a (res, cs) t fs → (i < n)%nat → savers a cs' →
  continuous (t ++ [Minimize k i kw]) →
  (∃ p, CheckpointSaver p ∈ Kw.callback kw) →
  (∀ p, CheckpointSaver p ∈ Kw.callback kw → resolve p = file i) →
  (∀ p, CheckpointSaver p ∈ Kw.callback kw → fs' !! resolve p = Some r) →
  (∀ q, (∀ p, CheckpointSaver p ∈ Kw.callback kw → resolve p ≠ q) →
        fs' !! q = fs !! q) →
  resumable_state a (res', cs') (t ++ [Minimize k i kw; Returned i r]) fs'.
Proof.
  intros (Hc & Hsync & Hcs) Hi Hcs' Hc' Hex Hfile Hsaved Hother.
  split; [| split; [| done]].
  - change [Minimize k i kw; Returned i r]
      with ([Minimize k i kw] ++ [Returned i r]).
    rewrite app_assoc. by apply continuous_snoc_other; [| simpl; tauto].
  - intros j Hj. eapply synced_chunk; try done. lia.
Qed.

(** A chunk that starts from what has just been loaded from the checkpoint
    of its trial continues the trial. *)
Lemma resumable_state_resumes st t fs i path r0 k kw :
  resumable_state a st t fs → (i < n)%nat →
  fs !! file i = Some r0 →
  Kw.x0 kw = Some (x_iters r0) → Kw.y0 kw = Some (func_vals r0) →
  continuous ((t ++ [Load path r0]) ++ [Minimize k i kw]).
Proof.
  intros (Hc & Hsync & _) Hi Hfile Hx Hy.
  apply continuous_snoc; [by apply continuous_snoc_other; [| simpl; tauto] |].
  intros _. destruct (Hsync i Hi) as (r & Hlast & Hfs).
  rewrite Hfile in Hfs. injection Hfs as <-. exists r0.
  by rewrite last_returned_other.
Qed.

Lemma first_pass_state_continuous_t i st t fs : first_pass_state a i st t fs → continuous t.
Proof. by intros (Hc & _). Qed.

Lemma resumable_state_continuous_t st t fs : resumable_state a st t fs → continuous t.
Proof. by intros (Hc & _). Qed.

Lemma WP_plot_resumable st t fs b name (Q : unit → list event → store → Prop) :
  resumable_state a st t fs → (∀ t', resumable_state a st t' fs → Q tt t' fs) →
  WP t fs (plot_if b name) Q.
Proof.
  intros HI HQ. apply WP_plot_if; apply HQ; [done |].
  apply resumable_state_other; [done | simpl; tauto | done].
Qed.

Lemma resumable_state_state res cs res' cs' t fs :
  resumable_state a (res, cs) t fs → savers a cs' → resumable_state a (res', cs') t fs.
Proof. by intros (Hc & Hsync & _) Hcs. Qed.

Lemma resumable_state_load res cs t fs path r0 :
  resumable_state a (res, cs) t fs → resumable_state a (res, cs) (t ++ [Load path r0]) fs.
Proof. intros HI. apply resumable_state_other; [done | simpl; tauto | done]. Qed.

Lemma resumable_state_resumed_chunk res cs t fs fs' i path r0 k kw r :
  resumable_state a (res, cs) t fs → (i < n)%nat →
  fs !! file i = Some r0 →
  Kw.x0 kw = Some (x_iters r0) → Kw.y0 kw = Some (func_vals r0) →
  (∃ p, CheckpointSaver p ∈ Kw.callback kw) →
  (∀ p, CheckpointSaver p ∈ Kw.callback kw → resolve p = file i) →
  (∀ p, CheckpointSaver p ∈ Kw.callback kw → fs' !! resolve p = Some r) →
  (∀ q, (∀ p, CheckpointSaver p ∈ Kw.callback kw → resolve p ≠ q) →
        fs' !! q = fs !! q) →
  resumable_state a (res, cs)
    ((t ++ [Load path r0]) ++ [Minimize k i kw; Returned i r]) fs'.
Proof.
  intros HI Hi Hfile Hx Hy Hex Hres Hsaved Hother.
  eapply resumable_state_chunk; try done.
  - by apply resumable_state_load.
  - by apply resumable_state_savers in HI.
  - by eapply resumable_state_resumes.
Qed.

Lemma WP_first_pass_end st t fs (Q : unit → list event → store → Prop) b name :
  first_pass_state a n st t fs → (∀ t', resumable_state a st t' fs → Q tt t' fs) →
  WP t fs (plot_if b name) Q.
Proof. intros HI%first_pass_is_resumable HQ. by eapply WP_plot_resumable. Qed.
End Savers.

(** The savers among the callbacks of a chunk. *)
Ltac solve_callbacks :=
  lazymatch goal with
  | |- ∃ p, CheckpointSaver p ∈ _ =>
      simpl; eexists; apply elem_of_cons; by left
  | |- ∀ p, CheckpointSaver p ∈ _ → _ =>
      let p := fresh "p" in
      let Hp := fresh "Hp" in
      intros p Hp; simpl in Hp;
      repeat (apply elem_of_cons in Hp as [Hp | Hp];
              [first [injection Hp as ->; done | discriminate Hp] |]);
      by apply elem_of_nil in Hp
  end.

Ltac continuity :=
  first [ eassumption
        | eapply resumable_state_continuous_t; eassumption
        | eapply first_pass_state_continuous_t; eassumption ].

(** One step of symbolic execution through code that leaves the trace and
    the files alone. *)
Ltac wp_step :=
  lazymatch goal with
  | |- WP _ _ (bind (lift _) _) _ =>
      apply WP_bind; apply WP_lift; [continuity | intros ? ?]
  | |- WP _ _ (bind (setitem _ _ _) _) _ =>
      apply WP_bind;
      eapply WP_stable;
        [apply same_store_setitem | apply returns_setitem | continuity
        | intros ? [-> ?]]
  | |- WP _ _ (bind (new_saver _ _ _) _) _ =>
      apply WP_bind; unfold new_saver;
      eapply WP_stable;
        [apply same_store_setitem | apply returns_setitem | continuity
        | intros ? [-> ?]]
  | |- WP _ _ (bind (saver_of _ _) _) _ =>
      let c := fresh "c" in
      let Hc := fresh "Hc" in
      apply WP_bind;
      eapply WP_stable;
        [apply same_store_saver_of | apply returns_saver_of | continuity
        | intros c Hc; cbv beta in Hc]
  | |- WP _ _ (bind (early_stopper _) _) _ =>
      apply WP_bind;
      eapply WP_stable;
        [apply same_store_early_stopper | apply returns_early_stopper
        | continuity | intros ? [? ->]]
  | |- WP _ _ (bind (if ?b then _ else _) _) _ => destruct b
  | |- WP _ _ (ret _) _ => apply WP_ret
  | |- WP _ _ (if ?b then _ else _) _ => destruct b
  | |- WP _ _ (match ?x with _ => _ end) _ => destruct x
  | |- _ => progress cbv beta zeta
  end.

(** The saver kept for the trial is the one just stored, or one that the
    invariant describes. *)
Ltac find_saver :=
  match goal with
  | Hc : <[?i := Some ?c]> ?cs !! ?i = Some (Some ?c') |- _ =>
      rewrite list_lookup_insert_eq in Hc by done; injection Hc as <-
  | Hcs : savers _ ?cs, Hc : ?cs !! ?i = Some (Some ?c) |- _ =>
      let p := fresh "p" in
      let Hp := fresh "Hp" in
      destruct (Hcs _ _ Hc) as (p & -> & Hp)
  end.

(** A round of the first pass: the code before the call, the call, the
    code after it. *)
Ltac first_round :=
  lazymatch goal with
  | HI : first_pass_state _ _ (_, _) ?t ?fs |- WP ?t ?fs _ _ =>
      let Hcs := fresh "Hcs" in
      pose proof (first_pass_state_savers _ _ _ _ _ HI) as Hcs; simpl in Hcs
  end;
  repeat wp_step; try find_saver; repeat wp_step;
  (apply WP_bind; apply WP_call_minimize; [by eapply first_pass_state_continuous |]);
  intros ? ? ? ?; repeat wp_step;
  (eapply first_pass_state_chunk; [eassumption | by apply savers_first | ..];
   first [done | solve_callbacks]).

(** A round of a later pass: the checkpoint of the trial is loaded, the
    chunk runs from it, and the result is stored. *)
Ltac resumed_round :=
  lazymatch goal with
  | HI : resumable_state ?a (?res, ?cs) ?t ?fs |- WP ?t ?fs _ _ =>
      let r0 := fresh "r0" in
      let Hr0 := fresh "Hr0" in
      let HI1 := fresh "HI" in
      let Hcs := fresh "Hcs" in
      pose proof (resumable_state_savers _ _ _ _ HI) as Hcs; simpl in Hcs;
      unfold restore;
      apply WP_bind; apply WP_load; [continuity | intros r0 Hr0];
      lazymatch goal with
      | |- WP (_ ++ [Load ?path _]) _ _ _ =>
          pose proof (resumable_state_load a res cs t fs path r0 HI) as HI1
      end;
      repeat wp_step; try find_saver; repeat wp_step;
      (apply WP_bind; apply WP_call_minimize;
        [ eapply resumable_state_resumes;
            [exact HI | done | exact Hr0 | reflexivity | reflexivity] |]);
      let r1 := fresh "r1" in
      let fs' := fresh "fs'" in
      let Hs := fresh "Hsaved" in
      let Ho := fresh "Hother" in
      let HI2 := fresh "HI" in
      intros r1 fs' Hs Ho;
      lazymatch goal with
      | |- WP ?t' _ _ _ =>
          assert (resumable_state a (res, cs) t' fs') as HI2
            by (eapply resumable_state_resumed_chunk;
                [ exact HI | done | exact Hr0 | reflexivity | reflexivity
                | solve_callbacks | solve_callbacks | exact Hs | exact Ho ])
      end;
      repeat wp_step;
      (eapply resumable_state_state; [exact HI2 |]);
      first [by apply savers_dot_slash | done]
  end.

(** A later pass over the trials, and the plot that follows it. *)
Ltac resumed_pass a :=
  apply WP_bind;
  apply (WP_for_range (λ _ st, resumable_state a st));
    [ done
    | intros ? [? ?] ? ? ? ?; resumed_round
    | let st := fresh "st" in
      intros st ? ? ?; repeat wp_step;
      apply WP_bind; apply (WP_plot_resumable a st); [done |];
      intros ? ?; by apply WP_ret ].

(** The first pass over the trials, and the plot that follows it. *)
Ltac first_pass_wp a :=
  apply WP_bind;
  apply (WP_for_range (λ i st, first_pass_state a i st));
    [ done
    | intros ? [? ?] ? ? ? ?; first_round
    | let st := fresh "st" in
      intros st ? ? ?;
      apply WP_bind; apply (WP_first_pass_end a st); [done |];
      intros ? ? ].

(** The loop of later passes. *)
Ltac resumed_loop a :=
  apply (WP_while (resumable_state a));
    [ done
    | let r := fresh "r" in
      intros r ? ? ? ?;
      lazymatch goal with
      | |- WP _ _ (if ?b then _ else _) _ => destruct b
      end; resumed_pass a
    | ].

Section Saving_branches.
Context `{Collaborators}.
Variables (f : objective_t) (a : bo_args) (fuel : nat).
Variables (x0 : list (option (list point))) (y0 : list (option (list Q))).
Hypothesis relative : ∀ rest, save_name a ≠ String slash rest.

Lemma resumable_state_continuous_both st t fs :
  resumable_state a st t fs → continuous t ∧ continuous t.
Proof. intros HI. split; by eapply resumable_state_continuous_t. Qed.

Lemma WP_dummy_save st t fs :
  first_pass_state a 0 st t fs →
  WP t fs (dummy_save f a fuel x0 y0 st) (λ _ t' _, continuous t').
Proof.
  intros HI. unfold dummy_save. first_pass_wp a. resumed_loop a.
  apply resumable_state_continuous_both.
Qed.

Lemma WP_dummy_save_early st t fs :
  first_pass_state a 0 st t fs →
  WP t fs (dummy_save_early f a fuel x0 y0 st) (λ _ t' _, continuous t').
Proof.
  intros HI. unfold dummy_save_early. first_pass_wp a.
  apply WP_bind. resumed_loop a.
  intros st_end t_end fs_end HI_end. split; [| by eapply resumable_state_continuous_t].
  apply WP_bind. apply (WP_plot_resumable a st_end); [done |].
  intros t_plot HI_plot. apply WP_ret. by eapply resumable_state_continuous_t.
Qed.

Lemma WP_forest_save st t fs :
  first_pass_state a 0 st t fs →
  WP t fs (forest_save f a fuel x0 y0 st) (λ _ t' _, continuous t').
Proof.
  intros HI. unfold forest_save. first_pass_wp a. resumed_loop a.
  apply resumable_state_continuous_both.
Qed.

Lemma WP_forest_save_early st t fs :
  first_pass_state a 0 st t fs →
  WP t fs (forest_save_early f a fuel x0 y0 st) (λ _ t' _, continuous t').
Proof.
  intros HI. unfold forest_save_early. first_pass_wp a.
  apply WP_bind. resumed_loop a.
  intros st_end t_end fs_end HI_end. split; [| by eapply resumable_state_continuous_t].
  apply WP_bind. apply (WP_plot_resumable a st_end); [done |].
  intros t_plot HI_plot. apply WP_ret. by eapply resumable_state_continuous_t.
Qed.

Lemma WP_gp_save_early st t fs :
  first_pass_state a 0 st t fs →
  WP t fs (gp_save_early f a fuel x0 y0 st) (λ _ t' _, continuous t').
Proof.
  intros HI. unfold gp_save_early. first_pass_wp a.
  apply WP_bind. resumed_loop a.
  intros st_end t_end fs_end HI_end. split; [| by eapply resumable_state_continuous_t].
  apply WP_bind. apply (WP_plot_resumable a st_end); [done |].
  intros t_plot HI_plot. apply WP_ret. by eapply resumable_state_continuous_t.
Qed.
End Saving_branches.

Section Gp_branches.
Context `{Collaborators}.
Variables (f : objective_t) (a : bo_args) (fuel : nat).
Variables (x0 : list (option (list point))) (y0 : list (option (list Q))).

Local Abbreviation file := (λ i, resolve (checkpoint_name (save_name a) i)).
Local Abbreviation n := (Z.to_nat (different_iteration a)).

Lemma latest_other res t e :
  latest res t → (∀ j' r', e ≠ Returned j' r') → latest res (t ++ [e]).
Proof. intros Hl He j r Hj. rewrite last_returned_other by done. eauto. Qed.

Lemma latest_append res t e r :
  latest res t → (∀ j' r', e ≠ Returned j' r') →
  latest (res ++ [r]) (t ++ [e; Returned (length res) r]).
Proof.
  intros Hl He j r' Hj. rewrite last_returned_chunk by done.
  case_bool_decide as Hij.
  - subst j. rewrite lookup_app_r, Nat.sub_diag in Hj by lia. done.
  - apply lookup_app_Some in Hj as [Hj | [Hge Hj]]; [eauto |].
    destruct (j - length res)%nat as [| k] eqn:Hk; [lia | done].
Qed.

Lemma latest_insert res t e i r :
  latest res t → (∀ j' r', e ≠ Returned j' r') →
  latest (<[i := r]> res) (t ++ [e; Returned i r]).
Proof.
  intros Hl He j r' Hj. rewrite last_returned_chunk by done.
  case_bool_decide as Hij.
  - subst j. apply list_lookup_insert_Some in Hj as [(_ & -> & _) | [? _]];
      done.
  - rewrite list_lookup_insert_ne in Hj by done. eauto.
Qed.

Lemma gp_first_pass_state_round i res t opt k r :
  gp_first_pass_state i res t →
  gp_first_pass_state (S i) (res ++ [r]) (t ++ [GpRun i opt k; Returned i r]).
Proof.
  intros (Hc & Hno & Hlen & Hl).
  assert (no_load (t ++ [GpRun i opt k; Returned i r])) as Hno'.
  { apply Forall_app. split; [done |]. repeat constructor; simpl; tauto. }
  split; [| split; [done | split]].
  - change [GpRun i opt k; Returned i r]
      with ([GpRun i opt k] ++ [Returned i r]).
    rewrite app_assoc. apply continuous_snoc_no_load.
    + by apply continuous_snoc_no_load.
    + apply no_load_snoc; [done | simpl; tauto].
  - rewrite length_app. simpl. lia.
  - subst i. by apply latest_append.
Qed.

(** What the files of a handle give back. *)
Lemma gp_resumable_state_load_BO res handle t fs rs :
  gp_resumable_state a res handle t fs →
  Forall2 (λ name r, fs !! resolve name = Some r) handle rs →
  rs = res.
Proof.
  intros (_ & _ & -> & Hfs) Hall. apply list_eq. intros j.
  apply Forall2_length in Hall as Hlen. rewrite length_imap in Hlen.
  destruct (res !! j) as [r |] eqn:Hr.
  - destruct (rs !! j) as [r' |] eqn:Hr'.
    + rewrite Forall2_lookup in Hall. specialize (Hall j).
      rewrite list_lookup_imap, Hr, Hr' in Hall. simpl in Hall.
      inversion Hall as [? ? Hfile |]; subst.
      rewrite (Hfs j r Hr) in Hfile. by injection Hfile as ->.
    + apply lookup_ge_None in Hr'. apply lookup_lt_Some in Hr. lia.
  - apply lookup_ge_None in Hr. apply lookup_ge_None. lia.
Qed.

Lemma gp_resumable_state_dump res t fs' :
  continuous t → latest res t →
  (∀ j r, res !! j = Some r → fs' !! file j = Some r) →
  gp_resumable_state a res (imap (λ j _, checkpoint_name (save_name a) j) res)
    (t ++ [DumpBO (save_name a) res]) fs'.
Proof.
  intros Hc Hl Hfs. split; [by apply continuous_snoc_other; [| simpl; tauto] |].
  split; [by apply latest_other |]. done.
Qed.

Lemma gp_resumable_state_other res handle t fs e :
  gp_resumable_state a res handle t fs → ¬ is_chunk e → (∀ j' r', e ≠ Returned j' r') →
  gp_resumable_state a res handle (t ++ [e]) fs.
Proof.
  intros (Hc & Hl & Hh & Hfs) He Hr.
  split; [by apply continuous_snoc_other |].
  split; [by apply latest_other | done].
Qed.

Lemma gp_resumable_state_continuous res handle t fs : gp_resumable_state a res handle t fs → continuous t.
Proof. by intros (Hc & _). Qed.

Lemma WP_plot_gp_resumable res handle t fs b name
    (Q : unit → list event → store → Prop) :
  gp_resumable_state a res handle t fs → (∀ t', gp_resumable_state a res handle t' fs → Q tt t' fs) →
  WP t fs (plot_if b name) Q.
Proof.
  intros HG HQ. apply WP_plot_if; apply HQ; [done |].
  apply gp_resumable_state_other; [done | simpl; tauto | done].
Qed.

(** A later pass starts: the files of the handle are loaded. *)
Lemma gp_pass_state_start res handle t fs :
  gp_resumable_state a res handle t fs → gp_pass_state res 0 res (t ++ [LoadBO handle res]).
Proof.
  intros (Hc & Hl & _). split; [by apply continuous_snoc_other; [| simpl; tauto] |].
  split; [by apply latest_other |]. done.
Qed.

(** The run of trial [i] in a later pass continues the trial. *)
Lemma gp_pass_state_resumes res0 i res t p k :
  gp_pass_state res0 i res t → res0 !! i = Some p →
  continuous
    (t ++ [GpRun i (mk_skopt_optimizer 0 0 (x_iters p) (func_vals p)) k]).
Proof.
  intros (Hc & Hl & _ & Hsame) Hp. apply continuous_snoc; [done |].
  intros _. exists p. split; [| done]. apply Hl. by rewrite Hsame.
Qed.

Lemma gp_pass_state_round res0 i res t p k r :
  gp_pass_state res0 i res t → res0 !! i = Some p →
  gp_pass_state res0 (S i) (<[i := r]> res)
    (t ++ [GpRun i (mk_skopt_optimizer 0 0 (x_iters p) (func_vals p)) k;
           Returned i r]).
Proof.
  intros HG Hp. pose proof (gp_pass_state_resumes _ _ _ _ _ k HG Hp) as Hc'.
  destruct HG as (Hc & Hl & Hlen & Hsame).
  split; [| split; [| split]].
  - match goal with |- continuous (_ ++ [?e; ?e']) =>
      change [e; e'] with ([e] ++ [e']) end.
    rewrite app_assoc. by apply continuous_snoc_other; [| simpl; tauto].
  - by apply latest_insert.
  - by rewrite length_insert.
  - intros j Hj. rewrite list_lookup_insert_ne by lia. apply Hsame. lia.
Qed.

Lemma gp_pass_state_skip res0 i res t : gp_pass_state res0 i res t → gp_pass_state res0 (S i) res t.
Proof.
  intros (Hc & Hl & Hlen & Hsame). repeat split; try done.
  intros j Hj. apply Hsame. lia.
Qed.

Lemma gp_pass_state_continuous res0 i res t : gp_pass_state res0 i res t → continuous t.
Proof. by intros (Hc & _). Qed.

Lemma gp_first_pass_state_continuous i res t : gp_first_pass_state i res t → continuous t.
Proof. by intros (Hc & _). Qed.

Lemma gp_first_pass_state_run i res t opt k : gp_first_pass_state i res t → continuous (t ++ [GpRun i opt k]).
Proof. intros (Hc & Hno & _). by apply continuous_snoc_no_load. Qed.

(** A round of a later pass of the Gaussian-process branches. *)
Lemma WP_gp_round {B} res0 i res t fs k (after : OptimizeResult → M B)
    (Q : B → list event → store → Prop) :
  gp_pass_state res0 i res t →
  (∀ p r, res0 !! i = Some p →
     WP (t ++ [GpRun i (mk_skopt_optimizer 0 0 (x_iters p) (func_vals p)) k;
               Returned i r]) fs (after r) Q) →
  WP t fs
    (partial_res_i <- lift (getitem res0 i);;
     opt <- lift (tell (new_optimizer 0 0) (x_iters partial_res_i)
                    (func_vals partial_res_i));;
     res_t <- call_run i opt f k;;
     after res_t) Q.
Proof.
  intros HG Hafter. pose proof (gp_pass_state_continuous _ _ _ _ HG) as Hc.
  apply WP_bind. apply WP_lift; [done |]. intros p Hp%getitem_Ok.
  apply WP_bind. apply WP_lift; [done |]. intros opt ->%tell_new_Ok.
  apply WP_bind. apply WP_call_run; [by eapply gp_pass_state_resumes |].
  intros r. by apply Hafter.
Qed.

Lemma WP_gp_save res t fs :
  gp_first_pass_state 0 res t →
  WP t fs (gp_save f a fuel x0 y0 res) (λ _ t' _, continuous t').
Proof.
  intros HG. unfold gp_save.
  apply WP_bind. apply (WP_for_range (λ i res t _, gp_first_pass_state i res t)); [done | |].
  - clear res t fs HG. intros i res t fs Hi HG. cbv zeta.
    apply WP_bind.
    apply WP_lift; [by eapply gp_first_pass_state_continuous |].
    intros opt0 _. apply WP_bind.
    eapply WP_stable;
      [ apply same_store_tell_initial | apply returns_True
      | by eapply gp_first_pass_state_continuous | intros opt _ ].
    apply WP_bind. apply WP_call_run; [by eapply gp_first_pass_state_run |]. intros r.
    apply WP_ret. by apply gp_first_pass_state_round.
  - clear res t fs HG. intros res t fs (Hc & _ & _ & Hl).
    apply WP_bind. apply WP_dump_BO. intros fs' Hfs.
    pose proof (gp_resumable_state_dump res t fs' Hc Hl Hfs) as HG. clear Hc Hl Hfs.
    apply WP_bind. eapply WP_plot_gp_resumable; [exact HG |]. clear HG. intros t' HG.
    apply WP_bind.
    apply (WP_while (λ st t fs, gp_resumable_state a st.1 st.2 t fs)); [done | |].
    + clear. intros r [res cs] t fs HG. simpl in HG.
      pose proof (gp_resumable_state_continuous _ _ _ _ HG) as Hc.
      assert (∀ k,
        WP t fs
          (partial_res <- load_BO cs;;
           res0 <- for_range (different_iteration a) (λ i res0,
               partial_res_i <- lift (getitem partial_res i);;
               opt <- lift (tell (new_optimizer 0 0) (x_iters partial_res_i)
                              (func_vals partial_res_i));;
               res_t <- call_run i opt f k;;
               setitem res0 i res_t) res;;
           checkpoint_saver <- dump_BO res0 (save_name a);;
           plot_if (plot a) (plot_name a);;;
           ret (r - save_step a, (res0, checkpoint_saver)))
          (λ rs t' fs', gp_resumable_state a rs.2.1 rs.2.2 t' fs')) as Hpass.
      { intros k. apply WP_bind. apply WP_load_BO; [done |].
        intros rs ->%(gp_resumable_state_load_BO _ _ _ _ _ HG).
        apply WP_bind.
        apply (WP_for_range (λ i res' t _, gp_pass_state res i res' t));
          [cbv beta; eapply gp_pass_state_start; exact HG | |].
        - intros i res' t1 fs1 Hi HG3. eapply WP_gp_round; [exact HG3 |].
          intros p r1 Hp.
          eapply WP_stable;
            [ apply same_store_setitem | apply returns_setitem | | ].
          + eapply gp_pass_state_continuous. by eapply gp_pass_state_round.
          + intros res'' [-> _]. by apply gp_pass_state_round.
        - intros res' t1 fs1 (Hc1 & Hl1 & _).
          apply WP_bind. apply WP_dump_BO. intros fs2 Hfs2.
          pose proof (gp_resumable_state_dump res' t1 fs2 Hc1 Hl1 Hfs2) as HG2.
          apply WP_bind. eapply WP_plot_gp_resumable; [exact HG2 |]. intros t2 HG2'.
          by apply WP_ret. }
      destruct (r >=? save_step a); apply Hpass.
    + intros [res' cs'] t1 fs1 HG1. simpl in HG1.
      pose proof (gp_resumable_state_continuous _ _ _ _ HG1) as Hc1.
      split; [by apply WP_ret | done].
Qed.

Lemma returns_flag_if_early flags i r :
  returns (λ flags', ∀ j, j ≠ i → flags' !! j = flags !! j)
    (flag_if_early a flags i r).
Proof.
  intros w flags' w'. unfold flag_if_early.
  destruct (early_condition _ _ _).
  - intros [-> _]%returns_setitem j Hj. by rewrite list_lookup_insert_ne.
  - by intros [= <- _].
Qed.

Lemma WP_gp_early res t fs :
  gp_first_pass_state 0 res t →
  WP t fs (gp_early f a fuel x0 y0 res) (λ _ t' _, continuous t').
Proof.
  intros HG. unfold gp_early.
  apply WP_bind.
  apply (WP_for_range
           (λ i st t _, gp_first_pass_state i st.1 t
                        ∧ ∀ j, (i ≤ j < n)%nat → st.2 !! j = Some false)).
  - split; [done |]. intros j Hj. simpl. apply lookup_replicate_2. lia.
  - clear res t fs HG. intros i [res flags] t fs Hi [HG Hflags].
    simpl in HG, Hflags.
    pose proof (gp_first_pass_state_continuous _ _ _ HG) as Hc.
    apply WP_bind. apply WP_lift; [done |]. intros flag Hflag%getitem_Ok.
    rewrite Hflags in Hflag by lia. injection Hflag as <-. cbn [negb].
    cbv zeta. apply WP_bind. apply WP_lift; [done |]. intros opt0 _.
    apply WP_bind.
    eapply WP_stable;
      [ apply same_store_tell_initial | apply returns_True | done
      | intros opt _ ].
    apply WP_bind. apply WP_call_run; [by eapply gp_first_pass_state_run |]. intros r.
    pose proof (gp_first_pass_state_round _ _ _ opt (early_step a) r HG) as HG'.
    apply WP_bind.
    eapply WP_stable;
      [ apply same_store_flag_if_early | apply returns_flag_if_early
      | by eapply gp_first_pass_state_continuous | intros flags' Hflags' ].
    apply WP_ret. split; [done |]. intros j Hj. simpl.
    rewrite Hflags' by lia. apply Hflags. lia.
  - clear res t fs HG. intros [res flags] t fs [(Hc & _ & _ & Hl) _].
    simpl in Hc, Hl.
    apply WP_bind. apply WP_dump_BO. intros fs' Hfs.
    pose proof (gp_resumable_state_dump res t fs' Hc Hl Hfs) as HG. clear Hc Hl Hfs.
    apply WP_bind. eapply WP_plot_gp_resumable; [exact HG |]. clear HG. intros t' HG.
    apply WP_bind.
    apply (WP_while (λ st t fs, gp_resumable_state a st.1.1 st.2 t fs)); [done | |].
    + clear. intros r [[res flags] cs] t fs HG. simpl in HG.
      pose proof (gp_resumable_state_continuous _ _ _ _ HG) as Hc.
      assert (∀ k (d : Z),
        WP t fs
          (partial_res <- load_BO cs;;
           st <- for_range (different_iteration a)
             (λ i '(res, early_stop_flag),
               flag <- lift (getitem early_stop_flag i);;
               if negb flag then
                 partial_res_i <- lift (getitem partial_res i);;
                 opt <- lift (tell (new_optimizer 0 0)
                                (x_iters partial_res_i)
                                (func_vals partial_res_i));;
                 res_t <- call_run i opt f k;;
                 early_stop_flag <-
                   flag_if_early a early_stop_flag i res_t;;
                 res <- setitem res i res_t;;
                 ret (res, early_stop_flag)
               else ret (res, early_stop_flag)) (res, flags);;
           let '(res, early_stop_flag) := st in
           checkpoint_saver <- dump_BO res (save_name a);;
           plot_if (plot a) (plot_name a);;;
           ret (d, (res, early_stop_flag, checkpoint_saver)))
          (λ (rs : Z * gp_locals) t' fs', gp_resumable_state a rs.2.1.1 rs.2.2 t' fs'))
        as Hpass.
      { intros k d. apply WP_bind. apply WP_load_BO; [done |].
        intros rs ->%(gp_resumable_state_load_BO _ _ _ _ _ HG).
        apply WP_bind.
        apply (WP_for_range (λ i st t _, gp_pass_state res i st.1 t));
          [cbv beta; eapply gp_pass_state_start; exact HG | |].
        - intros i [res' flags'] t1 fs1 Hi HG3. simpl in HG3.
          pose proof (gp_pass_state_continuous _ _ _ _ HG3) as Hc3.
          apply WP_bind. apply WP_lift; [done |]. intros flag _.
          destruct flag; cbn [negb]; [apply WP_ret; by apply gp_pass_state_skip |].
          eapply WP_gp_round; [exact HG3 |]. intros p r1 Hp.
          pose proof (gp_pass_state_round _ _ _ _ _ k r1 HG3 Hp) as HG3'.
          apply WP_bind.
          eapply WP_stable;
            [ apply same_store_flag_if_early | apply returns_True
            | by eapply gp_pass_state_continuous | intros flags'' _ ].
          apply WP_bind.
          eapply WP_stable;
            [ apply same_store_setitem | apply returns_setitem
            | by eapply gp_pass_state_continuous | intros res'' [-> _] ].
          by apply WP_ret.
        - intros [res' flags'] t1 fs1 (Hc1 & Hl1 & _). simpl in Hc1, Hl1.
          apply WP_bind. apply WP_dump_BO. intros fs2 Hfs2.
          pose proof (gp_resumable_state_dump res' t1 fs2 Hc1 Hl1 Hfs2) as HG2.
          apply WP_bind. eapply WP_plot_gp_resumable; [exact HG2 |]. intros t2 HG2'.
          by apply WP_ret. }
      destruct (r >=? early_step a); apply Hpass.
    + intros [[res' flags'] cs'] t1 fs1 HG1. simpl in HG1.
      pose proof (gp_resumable_state_continuous _ _ _ _ HG1) as Hc1.
      split; [by apply WP_ret | done].
Qed.
End Gp_branches.

Section Whole_run.
Context `{Collaborators}.
Variables (f : objective_t) (a : bo_args) (fuel : nat).
Hypothesis relative : ∀ rest, save_name a ≠ String slash rest.

Lemma no_load_continuous t : no_load t → continuous t.
Proof.
  intros Hno pre e post -> Hload. exfalso.
  apply Exists_exists in Hload as (x & Hx & Hl).
  unfold no_load in Hno. rewrite Forall_forall in Hno.
  apply (Hno x); [| done]. apply elem_of_app. by left.
Qed.

(** Code that loads nothing, run before any load. *)
Lemma WP_no_load {A} t fs (m : M A) :
  no_load t → steps (emits no_load) m →
  WP t fs m (λ _ t' _, continuous t').
Proof.
  intros Hno Hm w <- <-. destruct (Hm w) as (evs & Ht & Hevs).
  assert (continuous (trace (m w).2)) as Hc.
  { rewrite Ht. apply no_load_continuous. by apply Forall_app. }
  by destruct (m w) as [[b | e |] w'].
Qed.

Lemma WP_quiet {A} t fs (m : M A) (Q : A → list event → store → Prop) :
  steps same_store m → continuous t → (∀ b, Q b t fs) → WP t fs m Q.
Proof.
  intros Hm Hc HQ. eapply WP_stable; [done | apply returns_True | done |].
  intros b _. apply HQ.
Qed.

Lemma WP_dispatch {A} t fs (b1 b2 b3 b4 b5 : A → M A) st :
  continuous t →
  (∀ i, i ∈ [b1; b2; b3; b4; b5] →
        WP t fs (i st) (λ _ t' _, continuous t')) →
  WP t fs (dispatch a b1 b2 b3 b4 b5 st) (λ _ t' _, continuous t').
Proof.
  intros Hc Hb. unfold dispatch.
  repeat match goal with
         | |- WP _ _ (if ?b then _ else _) _ => destruct b
         end;
    try (apply Hb; set_solver).
  apply WP_bind. apply WP_quiet; [apply same_store_print | done |].
  intros _. by apply WP_ret.
Qed.

Lemma WP_Bayesian_optimization t fs :
  no_load t →
  WP t fs (Bayesian_optimization f a fuel) (λ _ t' _, continuous t').
Proof.
  intros Hno. pose proof (no_load_continuous t Hno) as Hc.
  unfold Bayesian_optimization.
  destruct (number_of_call a <=? 0).
  { apply WP_bind. apply WP_quiet; [apply same_store_print | done |].
    intros _. by apply WP_ret. }
  destruct (different_iteration a <=? 2).
  { apply WP_bind. apply WP_quiet; [apply same_store_print | done |].
    intros _. by apply WP_ret. }
  apply WP_bind.
  apply WP_quiet; [apply same_store_minimizer_stringa | done |]. intros name.
  apply WP_bind.
  apply WP_quiet; [apply same_store_print_banner | done |]. intros _.
  apply WP_bind. apply WP_quiet; [apply same_store_print | done |]. intros _.
  set (x0 := if is_list_of_None (X0 a) then _ else _).
  set (y0 := if is_list_of_None (Y0 a) then _ else _).
  set (cs := replicate (Z.to_nat (different_iteration a)) None).
  assert (first_pass_state a 0 ([], cs) t fs) as HI.
  { split; [done |]. split; [done |]. split; [intros j Hj; lia |].
    intros j c Hj. unfold cs in Hj. simpl in Hj.
    apply lookup_replicate in Hj as [Hj _]. discriminate. }
  assert (gp_first_pass_state 0 [] t) as HG.
  { split; [done |]. split; [done |]. split; [done |].
    intros j r Hj. by rewrite lookup_nil in Hj. }
  assert (∀ {A B} (rest : A → M B) (m : M A),
            (∀ st, steps same_store (rest st)) →
            WP t fs m (λ _ t' _, continuous t') →
            WP t fs (bind m rest) (λ _ t' _, continuous t')) as Hthen.
  { intros A B rest m Hrest Hm. apply WP_bind. eapply WP_mono; [| exact Hm].
    intros st t' fs' Hc'. by apply WP_quiet. }
  destruct (minimizer a) as [| | | | | m | | | |];
    try (cbn [is_minimizer]; repeat (apply WP_bind; apply WP_ret);
         by apply WP_ret).
  destruct m; cbn [is_minimizer];
    rewrite ?bool_decide_eq_true_2 by done;
    rewrite ?bool_decide_eq_false_2 by done; cbv iota.
  - (* gp_minimize *)
    apply WP_bind. apply WP_ret. apply WP_bind. apply WP_ret.
    apply Hthen; [intros; steps |].
    apply WP_dispatch; [done |]. intros b Hb.
    repeat (apply elem_of_cons in Hb as [-> | Hb]);
      [ .. | by apply elem_of_nil in Hb ].
    + apply Hthen; [intros; steps |]. apply WP_no_load; [done |].
      unfold gp_plain. steps.
    + apply Hthen; [intros; steps |]. apply WP_no_load; [done |].
      unfold gp_save_once. steps.
    + apply Hthen; [intros; steps |]. by apply WP_gp_save.
    + apply Hthen; [intros; steps |]. by apply WP_gp_early.
    + by apply WP_gp_save_early.
  - (* forest_minimize *)
    apply WP_bind. apply WP_ret.
    apply Hthen; [intros; steps |].
    apply WP_dispatch; [done |]. intros b Hb.
    repeat (apply elem_of_cons in Hb as [-> | Hb]);
      [ .. | by apply elem_of_nil in Hb ].
    + apply WP_no_load; [done |]. unfold forest_plain. steps.
    + apply WP_no_load; [done |]. unfold forest_save_once. steps.
    + by apply WP_forest_save.
    + apply WP_no_load; [done |]. unfold forest_early. steps.
    + by apply WP_forest_save_early.
  - (* dummy_minimize *)
    apply Hthen; [intros; steps |].
    apply WP_dispatch; [done |]. intros b Hb.
    repeat (apply elem_of_cons in Hb as [-> | Hb]);
      [ .. | by apply elem_of_nil in Hb ].
    + apply WP_no_load; [done |]. unfold dummy_plain. steps.
    + apply WP_no_load; [done |]. unfold dummy_save_once. steps.
    + by apply WP_dummy_save.
    + apply WP_no_load; [done |]. unfold dummy_early. steps.
    + by apply WP_dummy_save_early.
Qed.
End Whole_run.

(* ===================================================================== *)
(** * Resumed chunks *)
(* ===================================================================== *)

Section Resumed.
Context `{Collaborators}.

(** The events a run of the driver adds to the trace. *)
Lemma Bayesian_optimization_events f a fuel w evs :
  trace (Bayesian_optimization f a fuel w).2 = trace w ++ evs →
  resumes_from_checkpoints (save_name a) evs.
Proof.
  intros Ht. destruct (Bayesian_optimization_protocol f a fuel w)
    as (evs' & Ht' & HQ).
  rewrite Ht' in Ht. by apply app_inv_head in Ht as <-.
Qed.

Lemma Exists_lookup {A} (P : A → Prop) (l : list A) i :
  match l !! i with Some x => P x | None => False end → Exists P l.
Proof.
  destruct (l !! i) as [x |] eqn:Hi; [| done]. intros HP.
  apply Exists_exists. exists x. split; [| done].
  by eapply list_elem_of_lookup_2.
Qed.

Lemma restored_from_load sn pre i xs ys :
  restored_from sn pre i xs ys → Exists is_load pre.
Proof.
  intros [(r & Hin & _) | (h & rs & r & Hin & _)];
    apply Exists_exists; eexists; (split; [exact Hin | exact I]).
Qed.

(** In a run of the driver, a chunk that is not the first of its trial comes
    after a checkpoint load. *)
Lemma later_chunk_follows_load f a fuel w evs pre e post :
  trace (Bayesian_optimization f a fuel w).2 = trace w ++ evs →
  evs = pre ++ e :: post →
  later_chunk pre e → Exists is_load pre.
Proof.
  intros Ht Hevs Hlater.
  pose proof (Bayesian_optimization_events f a fuel w evs Ht pre e post
                Hevs (or_introl Hlater)) as Hok.
  destruct e as [k i kw | i opt n | | | | |]; simpl in Hok; try done.
  - destruct Hok as (_ & xs & ys & _ & _ & Hr). by eapply restored_from_load.
  - destruct Hok as (_ & _ & Hr). by eapply restored_from_load.
Qed.

(** In a run of the driver that starts before any checkpoint load, with a
    save name that is not an absolute path, every resumed chunk starts from
    exactly the history that the previous chunk of its trial returned. *)
Lemma resumed_chunks_continue f a fuel w evs pre e post :
  (∀ rest, save_name a ≠ String slash rest) →
  no_load (trace w) →
  trace (Bayesian_optimization f a fuel w).2 = trace w ++ evs →
  evs = pre ++ e :: post →
  resumed pre e → continues (trace w ++ pre) e.
Proof.
  intros Hrel Hno Ht Hevs Hres.
  assert (continuous (trace (Bayesian_optimization f a fuel w).2)) as Hc.
  { pose proof (WP_Bayesian_optimization f a fuel Hrel (trace w) (files w)
                  Hno w eq_refl eq_refl) as HWP.
    by destruct (Bayesian_optimization f a fuel w) as [[b | x |] w']. }
  apply (Hc (trace w ++ pre) e post).
  - by rewrite Ht, Hevs, app_assoc.
  - apply Exists_app. right.
    destruct Hres as [Hlater | Hload]; [| done].
    by eapply later_chunk_follows_load.
Qed.

(** C2.  In every run of the driver, a resumed chunk (a chunk after the
    first of its trial, or one that comes after a checkpoint has been
    loaded) passes zero random starts to the tree-ensemble minimizer; and a
    resumed Gaussian-process run is issued on an optimizer that was built
    with zero random starts and zero initial points and that, when the run
    is issued, has been told exactly the points and scores restored from the
    checkpoint of its trial. *)
Theorem resumed_chunks_use_no_random_starts
    (f : objective_t) (a : bo_args) (fuel : nat) (w : World)
    (evs pre post : list event) (e : event) :
  trace (Bayesian_optimization f a fuel w).2 = trace w ++ evs →
  evs = pre ++ e :: post →
  resumed pre e →
  match e with
  | Minimize k i kw => k = forest_minimize → Kw.n_random_starts kw = Some 0
  | GpRun i opt _ =>
      opt_n_random_starts opt = 0 ∧ opt_n_initial_points opt = 0
      ∧ restored_from (save_name a) pre i (Xi opt) (yi opt)
  | _ => True
  end.
Proof.
  intros Ht Hevs Hres.
  pose proof (Bayesian_optimization_events f a fuel w evs Ht pre e post
                Hevs Hres) as Hok.
  destruct e; simpl in Hok; try done. by destruct Hok.
Qed.

(** C4.  A checkpoint file gives back the result that was saved in it, and
    the files of a [dump_BO] give back the list that was saved, whichever
    minimizer produced the results; the checkpoint that a chunk leaves
    behind gives back the history the chunk returned.  In every run of the
    driver, a resumed chunk (a chunk after the first of its trial, or one
    that comes after a checkpoint has been loaded) starts from exactly the
    points and scores that were loaded from the checkpoint of its trial, and
    the history it returns has them as a prefix.  When the save name is not
    an absolute path and the run starts before any checkpoint load, these
    points and scores are the history that the previous chunk of the trial
    returned. *)
Theorem resumed_history_extends_checkpoint
    (f : objective_t) (a : bo_args) (fuel : nat) (w : World)
    (evs pre post : list event) (e : event) :
  trace (Bayesian_optimization f a fuel w).2 = trace w ++ evs →
  evs = pre ++ e :: post →
  resumed pre e →
  (∀ r path path' w0,
     resolve path' = resolve path → (load path' (dump r path w0).2).1 = Ok r)
  ∧ (∀ rs w0 handle w1,
       dump_BO rs (save_name a) w0 = (Ok handle, w1) →
       (load_BO handle w1).1 = Ok rs)
  ∧ (∀ k kw w0 r w1 path path',
       base_minimize k f kw w0 = (Ok r, w1) →
       CheckpointSaver path ∈ Kw.callback kw →
       resolve path' = resolve path → (load path' w1).1 = Ok r)
  ∧ match e with
    | Minimize k i kw =>
        ∃ xs ys,
          Kw.x0 kw = Some xs ∧ Kw.y0 kw = Some ys
          ∧ restored_from (save_name a) pre i xs ys
          ∧ ∀ w0 r w1,
              length xs = length ys →
              base_minimize k f kw w0 = (Ok r, w1) →
              xs `prefix_of` x_iters r ∧ ys `prefix_of` func_vals r
    | GpRun i opt n =>
        restored_from (save_name a) pre i (Xi opt) (yi opt)
        ∧ ∀ w0 r w1,
            run opt f n w0 = (Ok r, w1) →
            Xi opt `prefix_of` x_iters r ∧ yi opt `prefix_of` func_vals r
    | _ => True
    end
  ∧ ((∀ rest, save_name a ≠ String slash rest) →
     no_load (trace w) → continues (trace w ++ pre) e).
Proof.
  intros Ht Hevs Hres.
  split; [intros; by apply load_after_dump |].
  split; [intros; by eapply load_BO_after_dump_BO |].
  split; [intros; by eapply load_after_chunk |].
  split; [| intros Hrel Hno; by eapply resumed_chunks_continue].
  pose proof (Bayesian_optimization_events f a fuel w evs Ht pre e post
                Hevs Hres) as Hok.
  destruct e as [k i kw | i opt n | | | | |]; simpl in Hok; try done.
  - destruct Hok as (_ & xs & ys & Hx & Hy & Hr). exists xs, ys.
    repeat split; try done; intros; by eapply base_minimize_extends.
  - destruct Hok as (_ & _ & Hr). split; [done |].
    intros w0 r w1 Hrun. by eapply run_extends.
Qed.
End Resumed.

Lemma resumed_chunks_use_no_random_starts_witness :
  let tr := trace (Bayesian_optimization Demo.objective
                     (Demo.checkpointed gp_minimize) 5
                     (Demo.world_with gp_minimize)).2 in
  match tr !! 8%nat with
  | Some (GpRun i opt n) =>
      resumed (take 8 tr) (GpRun i opt n)
      ∧ i = 0%nat ∧ n = 2 ∧ opt_n_random_starts opt = 0
      ∧ opt_n_initial_points opt = 0
      ∧ Xi opt = [[HInt 0]; [HInt 1]]
  | _ => False
  end.
Proof.
  intros tr.
  destruct (tr !! 8%nat) as [e |] eqn:He; [| vm_compute in He; discriminate He].
  assert (tr = take 8 tr ++ e :: drop 9 tr) as Hsplit
    by (symmetry; by apply take_drop_middle).
  assert (resumed (take 8 tr) e) as Hres.
  { left. assert (He' := He). vm_compute in He'. injection He' as <-.
    apply (list_elem_of_lookup_2 _ 0%nat). vm_compute. reflexivity. }
  pose proof (resumed_chunks_use_no_random_starts Demo.objective
                (Demo.checkpointed gp_minimize) 5 (Demo.world_with gp_minimize)
                tr (take 8 tr) (drop 9 tr) e eq_refl Hsplit Hres) as Hok.
  assert (He' := He). vm_compute in He'.
  injection He' as <-. destruct Hok as (Hrs & Hip & _).
  split; [exact Hres |].
  split; [reflexivity |]. split; [reflexivity |].
  split; [exact Hrs |]. split; [exact Hip | reflexivity].
Defined.

Lemma resumed_history_extends_checkpoint_witness :
  let tr := trace (Bayesian_optimization Demo.objective
                     (Demo.checkpointed dummy_minimize) 5
                     (Demo.world_with dummy_minimize)).2 in
  match tr !! 6%nat, tr !! 7%nat with
  | Some (Load path r), Some (Minimize k i kw) =>
      resumed (take 7 tr) (Minimize k i kw)
      ∧ path = "partial_result_0.pkl" ∧ i = 0%nat
      ∧ Kw.x0 kw = Some (x_iters r) ∧ Kw.y0 kw = Some (func_vals r)
      ∧ x_iters r = [[HInt 0]; [HInt 1]]
      ∧ continues (take 7 tr) (Minimize k i kw)
      ∧ ∀ w0 r' w1,
          @base_minimize Demo.collaborators k Demo.objective kw w0
          = (Ok r', w1) →
          x_iters r `prefix_of` x_iters r'
          ∧ func_vals r `prefix_of` func_vals r'
  | _, _ => False
  end.
Proof.
  intros tr.
  destruct (tr !! 7%nat) as [e |] eqn:He; [| vm_compute in He; discriminate He].
  assert (tr = take 7 tr ++ e :: drop 8 tr) as Hsplit
    by (symmetry; by apply take_drop_middle).
  assert (resumed (take 7 tr) e) as Hres.
  { right. apply (Exists_lookup _ _ 6). vm_compute. exact I. }
  destruct (resumed_history_extends_checkpoint Demo.objective
              (Demo.checkpointed dummy_minimize) 5 (Demo.world_with dummy_minimize)
              tr (take 7 tr) (drop 8 tr) e eq_refl Hsplit Hres)
    as (_ & _ & _ & Hok & Hcont).
  assert (continues (take 7 tr) e) as Hlast.
  { apply Hcont; [| constructor].
    intros rest Heq. vm_compute in Heq. discriminate Heq. }
  assert (He' := He). vm_compute in He'. injection He' as <-.
  destruct Hok as (xs & ys & Hx & Hy & _ & Hext).
  injection Hx as <-. injection Hy as <-.
  assert (tr !! 6%nat
          = Some (Load "partial_result_0.pkl"
                    (mk_OptimizeResult [[HInt 0]; [HInt 1]] [0%Q; 1%Q] 0%Q
                       [HInt 0]))) as -> by (vm_compute; reflexivity).
  split; [exact Hres |].
  do 5 (split; [reflexivity |]).
  split; [exact Hlast |].
  intros w0 r' w1 Hrun. by apply (Hext w0 r' w1).
Defined.

(* ===================================================================== *)
(** * The budget of calls *)
(* ===================================================================== *)

Section Budget.
Context `{Collaborators}.

Lemma bind_eval {A B} (m : M A) (k : A → M B) w a w1 :
  m w = (Ok a, w1) → bind m k w = k a w1.
Proof. intros Hm. unfold bind. by rewrite Hm. Qed.

Lemma bind_lift_Ok {A B} (o : outcome A) (x : A) (k : A → M B) w :
  o = Ok x → bind (lift o) k w = k x w.
Proof. by intros ->. Qed.

Lemma create_result_Ok (xs : list point) (ys : list Q) :
  xs ≠ [] → ys ≠ [] →
  ∃ r, create_result xs ys = Ok r ∧ x_iters r = xs ∧ func_vals r = ys.
Proof.
  intros Hx Hy. destruct xs as [| x xs]; [done |].
  destruct ys as [| y ys]; [done |]. simpl.
  destruct (argmin_from x y xs ys) as [bx by_]. by eexists.
Qed.

(** Deciding the comparisons of an argument check that passes. *)
Ltac accepted :=
  cbn -[Z.leb Z.ltb Z.add];
  repeat match goal with
         | |- context [?x <=? ?y] =>
             destruct (Z.leb_spec x y); [lia |]; cbn -[Z.leb Z.ltb Z.add]
         | |- context [?x <? ?y] =>
             destruct (Z.ltb_spec x y); [lia |]; cbn -[Z.leb Z.ltb Z.add]
         end;
  done.

(** The arguments of a first chunk that [base_minimize] accepts. *)
Lemma check_arguments_dummy n onrs cbs :
  0 < n → check_arguments dummy_minimize (Kw.mk n onrs None None cbs) = Ok tt.
Proof.
  intros Hn. unfold check_arguments, random_starts. accepted.
Qed.

Lemma check_arguments_forest n nrs cbs :
  0 < nrs ≤ n →
  check_arguments forest_minimize (Kw.mk n (Some nrs) None None cbs) = Ok tt.
Proof.
  intros Hn. unfold check_arguments, random_starts. accepted.
Qed.

End Budget.

(** C1.  Tree-ensemble minimizer, a budget of 20 calls, checkpoints every 5
    calls, the default 10 random starts, three trials: the first chunk of a
    trial is given [save_step + n_random_starts] = 15 calls while the
    remaining budget is decreased by [save_step] only, so the chunks of a
    trial add up to 30 calls, 30 evaluations are run, and the sum is not the
    minimum of any number with the budget. *)
Theorem forest_checkpoints_overrun_the_budget :
  let a := @mk_bo_args Demo.collaborators (PMinimizer forest_minimize) 20 3
             [None] [None] 10 true 5 "partial_result" false 10 false
             "Bayesian optimization plot" in
  let run := Bayesian_optimization Demo.objective a 20
               (Demo.world_with forest_minimize) in
  chunk_sizes 0 (trace run.2) = [15; 5; 5; 5]
  ∧ chunk_sizes 1 (trace run.2) = [15; 5; 5; 5]
  ∧ chunk_sizes 2 (trace run.2) = [15; 5; 5; 5]
  ∧ history_lengths run.1 = [30; 30; 30]%nat
  ∧ ∀ total,
      sum_list (chunk_sizes 0 (trace run.2))
      ≠ Z.min total (number_of_call a).
Proof.
  intros a run.
  assert (chunk_sizes 0 (trace run.2) = [15; 5; 5; 5]) as H0
    by (vm_compute; reflexivity).
  split; [exact H0 |].
  split; [vm_compute; reflexivity |].
  split; [vm_compute; reflexivity |].
  split; [vm_compute; reflexivity |].
  intros total. rewrite H0. simpl. lia.
Qed.

(** The same budget is overrun on the early-stopping Gaussian-process path,
    where the boolean [early_stop] stands for [early_step] in the size of
    the resumed chunks and in the decrement: a budget of 10 calls with
    [early_step = 5] runs 20 evaluations per trial. *)
Example gp_early_stop_overruns_the_budget :
  let a := @mk_bo_args Demo.collaborators (PMinimizer gp_minimize) 10 3
             [None] [None] 1 false 1 "partial_result" true 5 false
             "Bayesian optimization plot" in
  let run := Bayesian_optimization Demo.objective a 10
               (Demo.world_with gp_minimize) in
  chunk_sizes 0 (trace run.2) = [5; 1; 1; 1; 1; 1; 4; 3; 2; 1]
  ∧ history_lengths run.1 = [20; 20; 20]%nat.
Proof. vm_compute. split; reflexivity. Qed.

(** The scenario of the specification: random minimizer, budget 10, three
    trials, no checkpoint, no early stop. *)
Example random_budget_of_ten :
  let a := @mk_bo_args Demo.collaborators (PMinimizer dummy_minimize) 10 3
             [None] [None] 10 false 1 "partial_result" false 10 false
             "Bayesian optimization plot" in
  let run := Bayesian_optimization Demo.objective a 0
               (Demo.world_with dummy_minimize) in
  chunk_sizes 0 (trace run.2) = [10]
  ∧ history_lengths run.1 = [10; 10; 10]%nat.
Proof. vm_compute. split; reflexivity. Qed.

(* ===================================================================== *)
(** * The Gaussian-process strategy with checkpoints and early stopping *)
(* ===================================================================== *)

(** C3.  Gaussian-process minimizer selected, checkpoints every 2 calls and
    early stopping both on, a budget of 5 calls, three trials: the first
    chunk of every trial is run by [forest_minimize] and the two resumed
    chunks by [dummy_minimize]; the Gaussian-process optimizer runs no
    chunk. *)
Theorem gp_with_save_and_early_stop_runs_other_minimizers :
  let a := @mk_bo_args Demo.collaborators (PMinimizer gp_minimize) 5 3
             [None] [None] 1 true 2 "partial_result" true 10 false
             "Bayesian optimization plot" in
  let run := Bayesian_optimization Demo.objective a 5
               (Demo.world_with gp_minimize) in
  callees (trace run.2)
  = replicate 3 (Some forest_minimize) ++ replicate 6 (Some dummy_minimize)
  ∧ history_lengths run.1 = [5; 5; 5]%nat.
Proof. vm_compute. split; reflexivity. Qed.

(* ===================================================================== *)
(** * The banner and the dispatch on the minimizer *)
(* ===================================================================== *)

Section Banner.
Context `{Collaborators}.

Lemma bind_stringa_Ok m name stringa v w :
  default_parameters w !! "minimizer" = Some v →
  bind_stringa m name stringa w
  = (Ok (if is_minimizer v m then Some name else stringa), w).
Proof.
  intros Hv. unfold bind_stringa, bind, default_parameter. by rewrite Hv.
Qed.

Lemma minimizer_stringa_Ok m w :
  default_parameters w !! "minimizer" = Some (PMinimizer m) →
  minimizer_stringa w = (Ok (Some (stringa_of m)), w).
Proof.
  intros Hm. unfold minimizer_stringa.
  rewrite (bind_eval _ _ _ _ _ (bind_stringa_Ok _ _ _ _ _ Hm)).
  rewrite (bind_eval _ _ _ _ _ (bind_stringa_Ok _ _ _ _ _ Hm)).
  rewrite (bind_stringa_Ok _ _ _ _ _ Hm). by destruct m.
Qed.

Lemma minimizer_stringa_unbound v w :
  default_parameters w !! "minimizer" = Some v →
  (∀ m, v ≠ PMinimizer m) →
  minimizer_stringa w = (Ok None, w).
Proof.
  intros Hv Hm. unfold minimizer_stringa.
  rewrite (bind_eval _ _ _ _ _ (bind_stringa_Ok _ _ _ _ _ Hv)).
  rewrite (bind_eval _ _ _ _ _ (bind_stringa_Ok _ _ _ _ _ Hv)).
  rewrite (bind_stringa_Ok _ _ _ _ _ Hv).
  destruct v as [| | | | | m | | | |]; try done. by destruct (Hm m).
Qed.

Lemma print_banner_Ok name w vn vd vr va vk :
  default_parameters w !! "n_calls" = Some vn →
  default_parameters w !! "different_iteration" = Some vd →
  default_parameters w !! "n_random_starts" = Some vr →
  default_parameters w !! "acq_func" = Some va →
  default_parameters w !! "kernel" = Some vk →
  print_banner (Some name) w
  = (Ok tt, printed w [banner_arguments vn vd vr name va vk]).
Proof.
  intros Hn Hd Hr Ha Hk.
  unfold print_banner, local_variable, bind, default_parameter, ret.
  by rewrite Hn, Hd, Hr, Ha, Hk.
Qed.

Lemma print_banner_unbound w :
  is_Some (default_parameters w !! "n_calls") →
  is_Some (default_parameters w !! "different_iteration") →
  is_Some (default_parameters w !! "n_random_starts") →
  print_banner None w = (Raise (UnboundLocalError "minimizer_stringa"), w).
Proof.
  intros [vn Hn] [vd Hd] [vr Hr].
  unfold print_banner, local_variable, bind, default_parameter, raise.
  by rewrite Hn, Hd, Hr.
Qed.

(** With the entries that the banner shows, the two [print] calls
    return and change only what has been printed. *)
Lemma banner_Ok {B} (rest : M B) w :
  shows_banner (default_parameters w) →
  ∃ lines,
    (stringa <- minimizer_stringa;;
     print_banner stringa;;;
     print "------------------------------------------";;;
     rest) w
    = rest (printed w lines).
Proof.
  intros [[m Hm] Hkeys].
  apply Forall_cons in Hkeys as [[vn Hn] Hkeys].
  apply Forall_cons in Hkeys as [[vd Hd] Hkeys].
  apply Forall_cons in Hkeys as [[vr Hr] Hkeys].
  apply Forall_cons in Hkeys as [[va Ha] Hkeys].
  apply Forall_cons in Hkeys as [[vk Hk] _].
  exists (banner m vn vd vr va vk).
  unfold bind at 1. rewrite (minimizer_stringa_Ok m w Hm).
  unfold bind at 1. rewrite (print_banner_Ok _ w vn vd vr va vk) by done.
  unfold bind at 1, print, printed. simpl. by rewrite <- app_assoc.
Qed.

(** X1.  The name printed in the banner is bound by three tests on
    [default_parameters["minimizer"]], not on the argument [minimizer]:
    when the dictionary holds anything but one of the three minimizers
    there, and holds the three entries that the banner shows before the
    name, a call with a valid budget raises [UnboundLocalError] at the
    banner, before anything is run, printed or written. *)
Theorem unknown_default_minimizer_is_unbound f a fuel w v :
  0 < number_of_call a → 2 < different_iteration a →
  default_parameters w !! "minimizer" = Some v →
  (∀ m, v ≠ PMinimizer m) →
  is_Some (default_parameters w !! "n_calls") →
  is_Some (default_parameters w !! "different_iteration") →
  is_Some (default_parameters w !! "n_random_starts") →
  Bayesian_optimization f a fuel w
  = (Raise (UnboundLocalError "minimizer_stringa"), w).
Proof.
  intros Hn Hd Hv Hm Hcalls Htrials Hstarts. unfold Bayesian_optimization.
  rewrite (proj2 (Z.leb_gt _ _)) by lia.
  rewrite (proj2 (Z.leb_gt _ _)) by lia.
  unfold bind at 1. rewrite (minimizer_stringa_unbound v w Hv Hm).
  unfold bind at 1. by rewrite print_banner_unbound.
Qed.

(** X2.  When the argument [minimizer] is none of the three minimizers
    and the dictionary holds a minimizer and the five entries that the
    banner shows, none of the three [if] blocks runs: the driver prints
    the banner and the rule under it, and returns the empty list, without
    a chunk, an evaluation or a file. *)
Theorem unknown_minimizer_runs_nothing f a fuel w m0 vn vd vr va vk :
  0 < number_of_call a → 2 < different_iteration a →
  (∀ m, minimizer a ≠ PMinimizer m) →
  default_parameters w !! "minimizer" = Some (PMinimizer m0) →
  default_parameters w !! "n_calls" = Some vn →
  default_parameters w !! "different_iteration" = Some vd →
  default_parameters w !! "n_random_starts" = Some vr →
  default_parameters w !! "acq_func" = Some va →
  default_parameters w !! "kernel" = Some vk →
  Bayesian_optimization f a fuel w
  = (Ok (Some []), printed w (banner m0 vn vd vr va vk)).
Proof.
  intros Hn Hd Hm Hv Hcalls Htrials Hstarts Hacq Hkernel.
  unfold Bayesian_optimization.
  rewrite (proj2 (Z.leb_gt _ _)) by lia.
  rewrite (proj2 (Z.leb_gt _ _)) by lia.
  assert (∀ k, is_minimizer (minimizer a) k = false) as Hk.
  { intros k. destruct (minimizer a) as [| | | | | m | | | |]; try done.
    by destruct (Hm m). }
  rewrite !Hk.
  unfold bind at 1. rewrite (minimizer_stringa_Ok m0 w Hv).
  unfold bind at 1. rewrite (print_banner_Ok _ w vn vd vr va vk) by done.
  unfold bind, ret, print, printed. simpl. by rewrite <- app_assoc.
Qed.
End Banner.

Lemma unknown_default_minimizer_is_unbound_witness :
  Bayesian_optimization Demo.objective (Demo.checkpointed dummy_minimize) 5
    (mk_World (<["minimizer" := PStr "dummy_minimize"]>
                 initial_default_parameters) [] ∅ [] [])
  = (Raise (UnboundLocalError "minimizer_stringa"),
     mk_World (<["minimizer" := PStr "dummy_minimize"]>
                 initial_default_parameters) [] ∅ [] []).
Proof.
  apply (unknown_default_minimizer_is_unbound Demo.objective
           (Demo.checkpointed dummy_minimize) 5 _ (PStr "dummy_minimize"));
    [ reflexivity | reflexivity | reflexivity | intros m Hm; discriminate Hm
    | by eexists | by eexists | by eexists ].
Defined.

Lemma unknown_minimizer_runs_nothing_witness :
  Bayesian_optimization Demo.objective
    (@mk_bo_args Demo.collaborators (PStr "gp_minimize") 5 3 [None] [None]
       1 true 2 "partial_result" false 10 false
       "Bayesian optimization plot") 5 (Demo.world_with gp_minimize)
  = (Ok (Some []),
     printed (Demo.world_with gp_minimize)
       (banner gp_minimize (PInt 100) (PInt 10) (PInt 10) (PStr "LCB")
          (PObject 3))).
Proof.
  apply (unknown_minimizer_runs_nothing Demo.objective _ 5
           (Demo.world_with gp_minimize) gp_minimize);
    [ reflexivity | reflexivity | intros m Hm; discriminate Hm
    | reflexivity | reflexivity | reflexivity | reflexivity | reflexivity
    | reflexivity ].
Defined.

Section Selected.
Context `{Collaborators}.

Lemma calls_only_other m e : ¬ is_chunk e → calls_only m e.
Proof. destruct e; simpl; tauto. Qed.

Lemma calls_only_call_minimize m i f kw :
  steps (emits (Forall (calls_only m))) (call_minimize m i f kw).
Proof.
  apply emits_call; [apply _ | | | apply quiet_base_minimize]; intros;
    by apply Forall_singleton.
Qed.

Lemma calls_only_call_run i opt f n :
  steps (emits (Forall (calls_only gp_minimize))) (call_run i opt f n).
Proof.
  apply emits_call; [apply _ | | | apply quiet_run]; intros;
    by apply Forall_singleton.
Qed.

Hint Resolve calls_only_other : steps.
Hint Resolve only_quiet only_plot_if only_dump_BO only_load only_load_BO
  : steps.
Hint Resolve calls_only_call_minimize calls_only_call_run : steps.

Lemma selected_minimizer_steps f a fuel m :
  minimizer a = PMinimizer m →
  (m = gp_minimize → save a && early_stop a && negb (saves_once a) = false) →
  steps (emits (Forall (calls_only m))) (Bayesian_optimization f a fuel).
Proof.
  intros Hm Hcfg. unfold Bayesian_optimization, dispatch.
  rewrite Hm. fold (saves_once a).
  destruct m; cbn [is_minimizer];
    rewrite ?bool_decide_eq_false_2 by done;
    rewrite ?bool_decide_eq_true_2 by done; cbv iota.
  - specialize (Hcfg eq_refl).
    destruct (save a), (early_stop a), (saves_once a); try discriminate Hcfg;
      cbn [negb andb orb];
      unfold gp_plain, gp_save_once, gp_save, gp_early; steps.
  - unfold forest_plain, forest_save_once, forest_save, forest_early,
      forest_save_early, restore. steps.
  - unfold dummy_plain, dummy_save_once, dummy_save, dummy_early,
      dummy_save_early, restore. steps.
Qed.
End Selected.

Section Selected_theorem.
Context `{Collaborators}.

(** X3.  Every chunk of a run is executed by the minimizer that was
    selected: by [dummy_minimize] or [forest_minimize] on each of their
    five branches, and by the Gaussian-process optimizer unless
    checkpoints and early stopping are both on with more than one chunk. *)
Theorem selected_minimizer_runs_every_chunk
    (f : objective_t) (a : bo_args) (fuel : nat) (w : World)
    (m : skopt_minimizer) :
  minimizer a = PMinimizer m →
  (m = gp_minimize →
   save a && early_stop a && negb (saves_once a) = false) →
  ∃ evs, trace (Bayesian_optimization f a fuel w).2 = trace w ++ evs
         ∧ Forall (calls_only m) evs.
Proof. intros Hm Hcfg. apply (selected_minimizer_steps f a fuel m Hm Hcfg w). Qed.
End Selected_theorem.

Lemma selected_minimizer_runs_every_chunk_witness :
  ∃ evs,
    trace (Bayesian_optimization Demo.objective
             (Demo.checkpointed forest_minimize) 5
             (Demo.world_with forest_minimize)).2
    = trace (Demo.world_with forest_minimize) ++ evs
    ∧ Forall (calls_only forest_minimize) evs.
Proof.
  apply (selected_minimizer_runs_every_chunk Demo.objective
           (Demo.checkpointed forest_minimize) 5
           (Demo.world_with forest_minimize) forest_minimize);
    [reflexivity | intros Hm; discriminate Hm].
Defined.

(* ===================================================================== *)
(** * The result list *)
(* ===================================================================== *)

Section Returns.
Context `{Collaborators}.

Lemma returns_bind_with {A B} (Φ : A → Prop) (P : B → Prop) (m : M A)
    (k : A → M B) :
  returns Φ m → (∀ x, Φ x → returns P (k x)) → returns P (bind m k).
Proof.
  intros Hm Hk w b w'. unfold bind. specialize (Hm w).
  destruct (m w) as [[x | e |] w1]; try done. apply Hk. by eapply Hm.
Qed.

Lemma returns_mono {A} (P Q : A → Prop) (m : M A) :
  (∀ x, P x → Q x) → returns P m → returns Q m.
Proof. intros HPQ Hm w x w' Hrun. apply HPQ. by eapply Hm. Qed.

Lemma returns_lift {A} (P : A → Prop) (o : outcome A) :
  (∀ x, o = Ok x → P x) → returns P (lift o).
Proof. intros HP w x w' [= -> _]. by apply HP. Qed.

Lemma returns_ret_eq {A} (v : A) : returns (λ x, x = v) (ret v).
Proof. by apply returns_ret. Qed.

Lemma returns_for_loop {St} (I : nat → St → Prop) lo len
    (body : nat → St → M St) s :
  I lo s →
  (∀ i s, (lo ≤ i < lo + len)%nat → I i s → returns (I (S i)) (body i s)) →
  returns (I (lo + len)%nat) (for_loop (seq lo len) body s).
Proof.
  revert lo s. induction len as [| len IH]; intros lo s HI Hbody; simpl.
  - apply returns_ret. by rewrite Nat.add_0_r.
  - eapply returns_bind_with; [apply Hbody; [lia | done] |].
    intros s' HI'. replace (lo + S len)%nat with (S lo + len)%nat by lia.
    apply IH; [done |]. intros i s0 Hi. apply Hbody. lia.
Qed.

Lemma returns_for_range {St} (I : nat → St → Prop) n
    (body : nat → St → M St) s :
  I 0%nat s →
  (∀ i s, (i < Z.to_nat n)%nat → I i s → returns (I (S i)) (body i s)) →
  returns (I (Z.to_nat n)) (for_range n body s).
Proof.
  intros HI Hbody. unfold for_range.
  apply (returns_for_loop I 0 (Z.to_nat n)); [done |].
  intros i s0 Hi. apply Hbody. lia.
Qed.

Lemma returns_while {St} (I : St → Prop) fuel
    (body : Z → St → M (Z * St)) r s :
  I s → (∀ r s, I s → returns (λ rs, I rs.2) (body r s)) →
  returns I (while_calls_left fuel body r s).
Proof.
  intros HI Hbody. revert r s HI.
  induction fuel as [| fuel IH]; intros r s HI; simpl.
  - destruct (r >? 0); [by intros w x w' | by apply returns_ret].
  - destruct (r >? 0); [| by apply returns_ret].
    eapply returns_bind_with; [by apply Hbody |].
    intros [r' s'] HI'. by apply IH.
Qed.
End Returns.

(** One step through code whose value matters only where a list is
    updated in place. *)
Ltac ret_step :=
  lazymatch goal with
  | |- returns _ (bind (setitem _ _ _) _) =>
      eapply returns_bind_with; [apply returns_setitem | intros ? [-> ?]]
  | |- returns _ (bind _ _) => apply returns_bind; intros ?
  | |- returns _ (ret _) => apply returns_ret
  | |- returns _ (setitem _ _ _) =>
      eapply returns_mono; [| apply returns_setitem]; intros ? [-> ?]
  | |- returns _ (if ?b then _ else _) => destruct b
  | |- returns _ (match ?x with _ => _ end) => destruct x
  | |- _ => progress cbv beta zeta
  end.

Section Length.
Context `{Collaborators}.
Variables (f : objective_t) (a : bo_args) (fuel : nat).
Variables (x0 : list (option (list point))) (y0 : list (option (list Q))).

Local Abbreviation n := (Z.to_nat (different_iteration a)).

(** A first pass appends one result per trial. *)
Lemma first_pass_length {C} (body : nat → list OptimizeResult * C →
                                    M (list OptimizeResult * C)) st :
  st.1 = [] →
  (∀ i res c, returns (λ st', length st'.1 = S (length res))
                (body i (res, c))) →
  returns (λ st', length st'.1 = n)
    (for_range (different_iteration a) body st).
Proof.
  intros Hst Hbody.
  apply (returns_for_range (λ i st', length st'.1 = i)).
  - by rewrite Hst.
  - intros i [res c] Hi Hlen. simpl in Hlen. subst i. apply Hbody.
Qed.

(** A later pass keeps the number of results. *)
Lemma later_pass_length {C} (body : nat → list OptimizeResult * C →
                                    M (list OptimizeResult * C)) st :
  length st.1 = n →
  (∀ i res c, returns (λ st', length st'.1 = length res) (body i (res, c))) →
  returns (λ st', length st'.1 = n)
    (for_range (different_iteration a) body st).
Proof.
  intros Hst Hbody.
  apply (returns_for_range (λ _ st', length st'.1 = n)); [done |].
  intros i [res c] Hi Hlen. simpl in Hlen. rewrite <- Hlen. apply Hbody.
Qed.
End Length.

Ltac len_done :=
  simpl; rewrite ?length_app, ?length_insert; simpl; lia.

Ltac first_len :=
  eapply returns_bind_with;
    [ apply first_pass_length; [done |];
      intros ? ? ?; repeat ret_step; len_done
    | intros [? ?] ? ].

Ltac later_len :=
  eapply returns_bind_with;
    [ apply later_pass_length; [done |];
      intros ? ? ?; unfold restore; repeat ret_step; len_done
    | intros [? ?] ? ].

Ltac while_len a :=
  apply (returns_while (λ st, length st.1 = Z.to_nat (different_iteration a)));
    [ done
    | intros ? [? ?] ?;
      lazymatch goal with
      | |- returns _ (if ?b then _ else _) => destruct b
      end; later_len; repeat ret_step; done ].

Section Saver_lengths.
Context `{Collaborators}.
Variables (f : objective_t) (a : bo_args) (fuel : nat).
Variables (x0 : list (option (list point))) (y0 : list (option (list Q))).
Local Abbreviation n := (Z.to_nat (different_iteration a)).
Local Abbreviation full := (λ st : locals, length st.1 = n).

Lemma length_dummy_plain st :
  st.1 = [] → returns full (dummy_plain f a x0 y0 st).
Proof. intros Hst. unfold dummy_plain. first_len. repeat ret_step. done. Qed.

Lemma length_dummy_save_once st :
  st.1 = [] → returns full (dummy_save_once f a x0 y0 st).
Proof.
  intros Hst. unfold dummy_save_once. first_len. repeat ret_step. done.
Qed.

Lemma length_dummy_early st :
  st.1 = [] → returns full (dummy_early f a x0 y0 st).
Proof. intros Hst. unfold dummy_early. first_len. repeat ret_step. done. Qed.

Lemma length_dummy_save st :
  st.1 = [] → returns full (dummy_save f a fuel x0 y0 st).
Proof.
  intros Hst. unfold dummy_save. first_len. apply returns_bind; intros _.
  while_len a.
Qed.

Lemma length_dummy_save_early st :
  st.1 = [] → returns full (dummy_save_early f a fuel x0 y0 st).
Proof.
  intros Hst. unfold dummy_save_early. first_len. apply returns_bind; intros _.
  eapply returns_bind_with; [while_len a |]. intros st' Hlen.
  repeat ret_step. done.
Qed.
End Saver_lengths.

Section Forest_lengths.
Context `{Collaborators}.
Variables (f : objective_t) (a : bo_args) (fuel : nat).
Variables (x0 : list (option (list point))) (y0 : list (option (list Q))).
Local Abbreviation n := (Z.to_nat (different_iteration a)).
Local Abbreviation full := (λ st : locals, length st.1 = n).

Lemma length_forest_plain st :
  st.1 = [] → returns full (forest_plain f a x0 y0 st).
Proof. intros Hst. unfold forest_plain. first_len. repeat ret_step. done. Qed.

Lemma length_forest_save_once st :
  st.1 = [] → returns full (forest_save_once f a x0 y0 st).
Proof.
  intros Hst. unfold forest_save_once. first_len. repeat ret_step. done.
Qed.

Lemma length_forest_early st :
  st.1 = [] → returns full (forest_early f a x0 y0 st).
Proof. intros Hst. unfold forest_early. first_len. repeat ret_step. done. Qed.

Lemma length_forest_save st :
  st.1 = [] → returns full (forest_save f a fuel x0 y0 st).
Proof.
  intros Hst. unfold forest_save. first_len. apply returns_bind; intros _.
  while_len a.
Qed.

Lemma length_forest_save_early st :
  st.1 = [] → returns full (forest_save_early f a fuel x0 y0 st).
Proof.
  intros Hst. unfold forest_save_early. first_len.
  apply returns_bind; intros _.
  eapply returns_bind_with; [while_len a |]. intros st' Hlen.
  repeat ret_step. done.
Qed.

Lemma length_gp_save_early st :
  st.1 = [] → returns full (gp_save_early f a fuel x0 y0 st).
Proof.
  intros Hst. unfold gp_save_early. first_len.
  apply returns_bind; intros _.
  eapply returns_bind_with; [while_len a |]. intros st' Hlen.
  repeat ret_step. done.
Qed.
End Forest_lengths.

Section Gp_lengths.
Context `{Collaborators}.
Variables (f : objective_t) (a : bo_args) (fuel : nat).
Variables (x0 : list (option (list point))) (y0 : list (option (list Q))).
Local Abbreviation n := (Z.to_nat (different_iteration a)).
Local Abbreviation full := (λ res : list OptimizeResult, length res = n).

Lemma gp_first_pass_length k :
  returns full
    (for_range (different_iteration a) (λ i res,
       opt <- lift (construct_optimizer (n_random_starts a)
                      (n_random_starts a));;
       opt <- tell_initial opt x0 y0 i;;
       r <- call_run i opt f k;;
       ret (res ++ [r])) []).
Proof.
  apply (returns_for_range (λ i res, length res = i)); [done |].
  intros i res Hi <-. repeat ret_step. len_done.
Qed.

Lemma gp_later_pass_length partial_res k res :
  length res = n →
  returns full
    (for_range (different_iteration a) (λ i res,
       partial_res_i <- lift (getitem partial_res i);;
       let opt := new_optimizer 0 0 in
       opt <- lift (tell opt (x_iters partial_res_i)
                      (func_vals partial_res_i));;
       res_t <- call_run i opt f k;;
       setitem res i res_t) res).
Proof.
  intros Hlen.
  apply (returns_for_range (λ _ res, length res = n)); [done |].
  intros i res' Hi Hlen'. repeat ret_step. len_done.
Qed.

Lemma length_gp_plain : returns full (gp_plain f a x0 y0 []).
Proof.
  unfold gp_plain.
  eapply returns_bind_with; [apply gp_first_pass_length |]. intros res Hlen.
  repeat ret_step. done.
Qed.

Lemma length_gp_save_once : returns full (gp_save_once f a x0 y0 []).
Proof.
  unfold gp_save_once.
  eapply returns_bind_with; [apply gp_first_pass_length |]. intros res Hlen.
  repeat ret_step. done.
Qed.

Lemma length_gp_save : returns full (gp_save f a fuel x0 y0 []).
Proof.
  unfold gp_save.
  eapply returns_bind_with; [apply gp_first_pass_length |]. intros res Hlen.
  apply returns_bind; intros cs. apply returns_bind; intros _.
  eapply returns_bind_with;
    [ apply (returns_while (λ st : list OptimizeResult * list string,
                              length st.1 = n)); [done |]
    | intros st Hst; by apply returns_ret ].
  intros r [res' cs'] Hlen'. simpl in Hlen'.
  destruct (r >=? save_step a); apply returns_bind; intros partial_res;
    (eapply returns_bind_with; [by apply gp_later_pass_length |]);
    intros res'' Hlen''; repeat ret_step; done.
Qed.

(** The first pass of the early-stopping branch appends a result for every
    trial: the flag of a trial is set only after its chunk has run. *)
Lemma length_gp_early : returns full (gp_early f a fuel x0 y0 []).
Proof.
  unfold gp_early.
  eapply returns_bind_with.
  { apply (returns_for_range
             (λ i (st : list OptimizeResult * list bool),
                length st.1 = i
                ∧ ∀ j, (i ≤ j < n)%nat → st.2 !! j = Some false)).
    - split; [done |]. intros j Hj. simpl. apply lookup_replicate_2. lia.
    - intros i [res flags] Hi [Hlen Hflags]. simpl in Hlen, Hflags.
      eapply returns_bind_with;
        [apply (returns_lift (λ flag, flags !! i = Some flag)) |].
      { intros flag Hflag. by apply getitem_Ok. }
      intros flag Hflag. rewrite Hflags in Hflag by lia.
      injection Hflag as <-. cbn [negb]. cbv zeta.
      apply returns_bind; intros opt0. apply returns_bind; intros opt.
      apply returns_bind; intros r.
      eapply returns_bind_with; [apply returns_flag_if_early |].
      intros flags' Hflags'. apply returns_ret. split; [len_done |].
      intros j Hj. simpl. rewrite Hflags' by lia. apply Hflags. lia. }
  intros [res flags] [Hlen _]. simpl in Hlen.
  apply returns_bind; intros cs. apply returns_bind; intros _.
  eapply returns_bind_with;
    [ apply (returns_while
               (λ st : list OptimizeResult * list bool * list string,
                  length st.1.1 = n)); [done |]
    | intros st Hst; by apply returns_ret ].
  intros r [[res' flags'] cs'] Hlen'. simpl in Hlen'.
  destruct (r >=? early_step a); apply returns_bind; intros partial_res;
    (eapply returns_bind_with;
       [ apply (returns_for_range
                  (λ _ (st : list OptimizeResult * list bool),
                     length st.1 = n)); [done |];
         intros i [res2 flags2] Hi Hlen2; simpl in Hlen2;
         repeat ret_step; len_done
       | intros [res2 flags2] Hlen2; repeat ret_step; done ]).
Qed.
End Gp_lengths.

Section Driver_length.
Context `{Collaborators}.

Lemma returns_dispatch {A} (P : A → Prop) a (b1 b2 b3 b4 b5 : A → M A) st :
  (∀ b, b ∈ [b1; b2; b3; b4; b5] → returns P (b st)) →
  returns P (dispatch a b1 b2 b3 b4 b5 st).
Proof.
  intros Hb. unfold dispatch.
  destruct (save a), (early_stop a); cbn [negb andb orb];
    rewrite ?andb_true_r, ?andb_false_r;
    repeat match goal with
           | |- returns _ (if ?b then _ else _) => destruct b
           end;
    apply Hb; set_solver.
Qed.

Lemma one_result_per_trial_returns f a fuel m :
  minimizer a = PMinimizer m →
  returns (λ o, ∀ rs, o = Some rs →
                      length rs = Z.to_nat (different_iteration a))
    (Bayesian_optimization f a fuel).
Proof.
  intros Hm. unfold Bayesian_optimization. rewrite Hm.
  destruct (number_of_call a <=? 0); [by repeat ret_step |].
  destruct (different_iteration a <=? 2); [by repeat ret_step |].
  cbv zeta. do 3 (apply returns_bind; intros ?).
  destruct m; cbn [is_minimizer];
    rewrite ?bool_decide_eq_false_2 by done;
    rewrite ?bool_decide_eq_true_2 by done; cbv iota;
    repeat (eapply returns_bind_with; [apply returns_ret_eq | intros ? ->]);
    (eapply returns_bind_with;
       [ apply (returns_dispatch
                  (λ st : locals,
                     length st.1 = Z.to_nat (different_iteration a)));
         intros b Hb;
         repeat (apply elem_of_cons in Hb as [-> | Hb]);
         [ .. | by apply elem_of_nil in Hb ]
       | intros st Hst;
         repeat (eapply returns_bind_with;
                   [apply returns_ret_eq | intros ? ->]);
         apply returns_ret; intros rs [= <-]; exact Hst ]).
  - eapply returns_bind_with; [apply length_gp_plain |].
    intros res Hres. by apply returns_ret.
  - eapply returns_bind_with; [apply length_gp_save_once |].
    intros res Hres. by apply returns_ret.
  - eapply returns_bind_with; [apply length_gp_save |].
    intros res Hres. by apply returns_ret.
  - eapply returns_bind_with; [apply length_gp_early |].
    intros res Hres. by apply returns_ret.
  - by apply length_gp_save_early.
  - by apply length_forest_plain.
  - by apply length_forest_save_once.
  - by apply length_forest_save.
  - by apply length_forest_early.
  - by apply length_forest_save_early.
  - by apply length_dummy_plain.
  - by apply length_dummy_save_once.
  - by apply length_dummy_save.
  - by apply length_dummy_early.
  - by apply length_dummy_save_early.
Qed.
End Driver_length.

Section Length_theorem.
Context `{Collaborators}.

(** X4.  A run that returns a result list returns one result per trial,
    whichever of the fifteen branches produced it. *)
Theorem one_result_per_trial
    (f : objective_t) (a : bo_args) (fuel : nat) (w w' : World)
    (m : skopt_minimizer) (rs : list OptimizeResult) :
  minimizer a = PMinimizer m →
  Bayesian_optimization f a fuel w = (Ok (Some rs), w') →
  length rs = Z.to_nat (different_iteration a).
Proof.
  intros Hm Hrun.
  by apply (one_result_per_trial_returns f a fuel m Hm w (Some rs) w' Hrun).
Qed.
End Length_theorem.

Lemma one_result_per_trial_witness :
  match (Bayesian_optimization Demo.objective
           (Demo.checkpointed dummy_minimize) 5
           (Demo.world_with dummy_minimize)).1 with
  | Ok (Some rs) => length rs = 3%nat
  | _ => False
  end.
Proof.
  set (run := Bayesian_optimization Demo.objective
                (Demo.checkpointed dummy_minimize) 5
                (Demo.world_with dummy_minimize)).
  destruct (run.1) as [[rs |] | e |] eqn:Ho;
    try (vm_compute in Ho; discriminate Ho).
  assert (run = (Ok (Some rs), run.2)) as Hrun
    by (rewrite <- Ho; apply surjective_pairing).
  apply (one_result_per_trial Demo.objective
           (Demo.checkpointed dummy_minimize) 5
           (Demo.world_with dummy_minimize) run.2 dummy_minimize rs eq_refl
           Hrun).
Defined.

(* ===================================================================== *)
(** * Runs without checkpoints *)
(* ===================================================================== *)

Section Files.
Context `{Collaborators}.

Global Instance same_files_refl : Reflexive same_files.
Proof. intros w. reflexivity. Qed.

Global Instance same_files_trans : Transitive same_files.
Proof. intros w1 w2 w3 H1 H2. unfold same_files in *. congruence. Qed.

Lemma steps_bind_returns (R : relation World) `{!Transitive R} {A B}
    (Φ : A → Prop) (m : M A) (k : A → M B) :
  steps R m → returns Φ m → (∀ x, Φ x → steps R (k x)) → steps R (bind m k).
Proof.
  intros Hm HΦ Hk w. unfold bind. specialize (Hm w). specialize (HΦ w).
  destruct (m w) as [[b | e |] w']; simpl in *; try assumption.
  etrans; [exact Hm | apply Hk; by eapply HΦ].
Qed.

Lemma same_store_same_files {A} (m : M A) :
  steps same_store m → steps same_files m.
Proof. intros Hm w. by destruct (Hm w). Qed.

Lemma same_files_emit e : steps same_files (emit e).
Proof. intros w. reflexivity. Qed.

Lemma same_files_plot_if b name : steps same_files (plot_if b name).
Proof. unfold plot_if. destruct b; [apply same_files_emit | step]. Qed.

Lemma same_files_base_minimize k f kw :
  no_saver (Kw.callback kw) → steps same_files (base_minimize k f kw).
Proof.
  intros Hno w. apply map_eq. intros q.
  apply (keeps_base_minimize q k f kw). intros p Hp. by destruct (Hno p).
Qed.

Lemma same_files_call_minimize k i f kw :
  no_saver (Kw.callback kw) → steps same_files (call_minimize k i f kw).
Proof.
  intros Hno. unfold call_minimize.
  step; [apply same_files_emit |].
  step; [by apply same_files_base_minimize |].
  step; [apply same_files_emit | step].
Qed.

Lemma same_files_call_run i opt f n : steps same_files (call_run i opt f n).
Proof.
  unfold call_run. step; [apply same_files_emit |].
  step; [apply same_store_same_files, same_store_run |].
  step; [apply same_files_emit | step].
Qed.

Lemma no_saver_nil : no_saver [].
Proof. intros p Hp. by apply elem_of_nil in Hp. Qed.

Lemma no_saver_stopper n k : no_saver [MyCustomEarlyStopper n k].
Proof.
  intros p Hp. apply elem_of_cons in Hp as [Hp | Hp]; [done |].
  by apply elem_of_nil in Hp.
Qed.

(** The stopper is built, then handed to the rest of the round. *)
Lemma same_files_with_stopper {B} a (k : callback → M B) :
  (∀ n, steps same_files (k (MyCustomEarlyStopper (early_step a) n))) →
  steps same_files (bind (early_stopper a) k).
Proof.
  intros Hk.
  apply (steps_bind_returns same_files
           (λ c, ∃ n, c = MyCustomEarlyStopper (early_step a) n)).
  - apply same_store_same_files, same_store_early_stopper.
  - apply returns_early_stopper.
  - intros c [n ->]. apply Hk.
Qed.

Hint Resolve same_files_plot_if same_files_call_run no_saver_nil
  no_saver_stopper same_files_call_minimize : steps.

Ltac fstep :=
  first [ apply same_files_with_stopper; intros ?
        | apply same_store_same_files;
          first [ apply same_store_print | apply same_store_tell_initial
                | apply same_store_minimizer_stringa
                | apply same_store_print_banner ]
        | step ].

Lemma without_save_same_files f a fuel :
  save a = false →
  (minimizer a = PMinimizer gp_minimize → early_stop a = false) →
  steps same_files (Bayesian_optimization f a fuel).
Proof.
  intros Hsave Hgp. unfold Bayesian_optimization, dispatch.
  rewrite Hsave. cbn [negb andb orb]. rewrite !andb_false_r. cbn [andb].
  destruct (minimizer a) as [| | | | | m | | | |];
    try (cbn [is_minimizer]; by repeat fstep).
  destruct m; cbn [is_minimizer];
    rewrite ?bool_decide_eq_false_2 by done;
    rewrite ?bool_decide_eq_true_2 by done; cbv iota.
  - rewrite (Hgp eq_refl). cbn [negb]. unfold gp_plain. repeat fstep.
  - unfold forest_plain, forest_early. repeat fstep.
  - unfold dummy_plain, dummy_early. repeat fstep.
Qed.

Lemma without_save_no_load f a fuel :
  save a = false →
  (minimizer a = PMinimizer gp_minimize → early_stop a = false) →
  steps (emits no_load) (Bayesian_optimization f a fuel).
Proof.
  intros Hsave Hgp. unfold Bayesian_optimization, dispatch.
  rewrite Hsave. cbn [negb andb orb]. rewrite !andb_false_r. cbn [andb].
  destruct (minimizer a) as [| | | | | m | | | |];
    try (cbn [is_minimizer]; by steps).
  destruct m; cbn [is_minimizer];
    rewrite ?bool_decide_eq_false_2 by done;
    rewrite ?bool_decide_eq_true_2 by done; cbv iota.
  - rewrite (Hgp eq_refl). cbn [negb]. unfold gp_plain. steps.
  - unfold forest_plain, forest_early. steps.
  - unfold dummy_plain, dummy_early. steps.
Qed.
End Files.

Section Files_theorem.
Context `{Collaborators}.

(** X5.  Without [save], and unless the Gaussian-process minimizer runs
    with early stopping, a run writes no pickle file and loads none. *)
Theorem without_save_no_file_is_touched
    (f : objective_t) (a : bo_args) (fuel : nat) (w : World) :
  save a = false →
  (minimizer a = PMinimizer gp_minimize → early_stop a = false) →
  files (Bayesian_optimization f a fuel w).2 = files w
  ∧ ∃ evs, trace (Bayesian_optimization f a fuel w).2 = trace w ++ evs
           ∧ no_load evs.
Proof.
  intros Hsave Hgp. split.
  - apply (without_save_same_files f a fuel Hsave Hgp w).
  - apply (without_save_no_load f a fuel Hsave Hgp w).
Qed.
End Files_theorem.

Lemma without_save_no_file_is_touched_witness :
  let a := @mk_bo_args Demo.collaborators (PMinimizer forest_minimize) 5 3
             [None] [None] 1 false 2 "partial_result" true 2 false
             "Bayesian optimization plot" in
  let w := Demo.world_with forest_minimize in
  files (Bayesian_optimization Demo.objective a 5 w).2 = files w
  ∧ ∃ evs, trace (Bayesian_optimization Demo.objective a 5 w).2
           = trace w ++ evs
           ∧ no_load evs.
Proof.
  intros a w.
  apply (without_save_no_file_is_touched Demo.objective a 5 w);
    [reflexivity | intros Hm; discriminate Hm].
Defined.

(* ===================================================================== *)
(** * A checkpoint interval that is not positive *)
(* ===================================================================== *)

Section Forever.
Context `{Collaborators}.

(** A loop whose counter stays positive never returns. *)
Lemma returns_while_forever {St} (P : St → Prop) fuel
    (body : Z → St → M (Z * St)) r s :
  r > 0 →
  (∀ r s, r > 0 → returns (λ rs, rs.1 > 0) (body r s)) →
  returns P (while_calls_left fuel body r s).
Proof.
  intros Hr Hbody. revert r s Hr.
  induction fuel as [| fuel IH]; intros r s Hr; simpl;
    rewrite (proj2 (Z.gtb_gt _ _)) by lia.
  - by intros w x w'.
  - eapply returns_bind_with; [by apply Hbody |].
    intros [r' s'] Hr'. by apply IH.
Qed.
End Forever.

Ltac never_step :=
  lazymatch goal with
  | |- returns _ (bind (bind _ _) _) =>
      eapply (returns_bind_with (λ _, False)); [| intros ? []]
  | |- returns _ (bind (while_calls_left _ _ _ _) _) =>
      eapply returns_bind_with;
        [ apply (returns_while_forever (λ _, False)); [| intros ? ? ?]
        | intros ? [] ]
  | |- returns _ (while_calls_left _ _ _ _) =>
      apply returns_while_forever; [| intros ? ? ?]
  | |- returns _ (bind _ _) => apply returns_bind; intros ?
  | |- returns _ (ret _) => apply returns_ret
  | |- returns _ (if ?b then _ else _) => destruct b
  | |- returns _ (match ?x with _ => _ end) => destruct x
  | |- _ => progress cbv beta zeta
  end.

Section Never.
Context `{Collaborators}.

Lemma nonpositive_save_step_returns f a fuel m :
  minimizer a = PMinimizer m → save a = true → save_step a ≤ 0 →
  returns (λ o, o = None) (Bayesian_optimization f a fuel).
Proof.
  intros Hm Hsave Hstep. unfold Bayesian_optimization. rewrite Hm.
  destruct (number_of_call a <=? 0) eqn:Hn; [by repeat ret_step |].
  apply Z.leb_gt in Hn.
  destruct (different_iteration a <=? 2); [by repeat ret_step |].
  cbv zeta. do 3 (apply returns_bind; intros ?).
  unfold dispatch. rewrite Hsave. cbn [negb andb orb].
  assert ((save_step a >=? number_of_call a) = false) as ->
    by (rewrite Z.geb_leb; apply Z.leb_gt; lia).
  cbn [andb].
  destruct m; cbn [is_minimizer];
    rewrite ?bool_decide_eq_false_2 by done;
    rewrite ?bool_decide_eq_true_2 by done; cbv iota;
    destruct (early_stop a); cbn [negb andb orb];
    unfold gp_save, gp_save_early, forest_save, forest_save_early,
      dummy_save, dummy_save_early;
    repeat never_step; simpl; lia.
Qed.
End Never.

Section Never_theorem.
Context `{Collaborators}.

(** X6.  With [save] on and a checkpoint interval [save_step] of zero or
    less, the driver never returns a result list: the loop over the
    remaining calls subtracts [save_step] from a positive counter. *)
Theorem nonpositive_save_step_never_returns
    (f : objective_t) (a : bo_args) (fuel : nat) (w : World)
    (m : skopt_minimizer) :
  minimizer a = PMinimizer m → save a = true → save_step a ≤ 0 →
  ∀ rs w', Bayesian_optimization f a fuel w ≠ (Ok (Some rs), w').
Proof.
  intros Hm Hsave Hstep rs w' Hrun.
  by pose proof (nonpositive_save_step_returns f a fuel m Hm Hsave Hstep
                   w (Some rs) w' Hrun).
Qed.
End Never_theorem.

Lemma nonpositive_save_step_never_returns_witness :
  let a := @mk_bo_args Demo.collaborators (PMinimizer dummy_minimize) 4 3
             [Some [[HInt 0]]; Some [[HInt 0]]; Some [[HInt 0]]]
             [Some [0%Q]; Some [0%Q]; Some [0%Q]] 1 true 0 "partial_result"
             false 10 false "Bayesian optimization plot" in
  let w := Demo.world_with dummy_minimize in
  (Bayesian_optimization Demo.objective a 5 w).1 = OutOfFuel
  ∧ ∀ rs w', Bayesian_optimization Demo.objective a 5 w ≠ (Ok (Some rs), w').
Proof.
  intros a w. split; [vm_compute; reflexivity |].
  apply (nonpositive_save_step_never_returns Demo.objective a 5 w
           dummy_minimize); [reflexivity | reflexivity | simpl; lia].
Defined.

(* ===================================================================== *)
(** * The iteration log *)
(* ===================================================================== *)

Section Log.
Context `{Collaborators}.

Global Instance log_grows_refl : Reflexive log_grows.
Proof. intros w. unfold log_grows. reflexivity. Qed.

Global Instance log_grows_trans : Transitive log_grows.
Proof. intros w1 w2 w3 H1 H2. unfold log_grows in *. by etrans. Qed.

Lemma objective_appends self : appends (_objective_function self).
Proof.
  intros p its. unfold _objective_function.
  destruct (evaluate self p) as [[result metrics_values] | e |]; [| done ..].
  destruct (is_Maximize _); by apply prefix_app_r.
Qed.

Lemma log_grows_print s : steps log_grows (print s).
Proof. intros w. unfold log_grows. reflexivity. Qed.

Lemma log_grows_emit e : steps log_grows (emit e).
Proof. intros w. unfold log_grows. reflexivity. Qed.

Lemma log_grows_write_file path r : steps log_grows (write_file path r).
Proof. intros w. unfold log_grows. reflexivity. Qed.

Lemma log_grows_read_file path : steps log_grows (read_file path).
Proof. intros w. unfold read_file, log_grows. by destruct (_ !! _). Qed.

Lemma log_grows_default_parameter key :
  steps log_grows (default_parameter key).
Proof.
  intros w. unfold default_parameter, log_grows. by destruct (_ !! _).
Qed.

Lemma log_grows_call_objective f p :
  appends f → steps log_grows (call_objective f p).
Proof.
  intros Hf w. unfold call_objective, log_grows. specialize (Hf p (_iterations w)).
  by destruct (f p (_iterations w)).
Qed.

Lemma log_grows_print_args args : steps log_grows (print_args args).
Proof. intros w. unfold log_grows. reflexivity. Qed.

Hint Resolve log_grows_print log_grows_print_args log_grows_emit
  log_grows_write_file log_grows_read_file log_grows_default_parameter
  log_grows_call_objective : steps.

Lemma log_grows_dump r path : steps log_grows (dump r path).
Proof. unfold dump. steps. Qed.

Lemma log_grows_load path : steps log_grows (load path).
Proof. unfold load. steps. Qed.

Hint Resolve log_grows_dump log_grows_load : steps.

Lemma log_grows_eval_callbacks cbs r : steps log_grows (eval_callbacks cbs r).
Proof.
  induction cbs as [| c cbs IH]; simpl; [steps |].
  step; [destruct c; simpl; steps |]. steps.
Qed.

Hint Resolve log_grows_eval_callbacks : steps.

Lemma log_grows_minimize_loop n k nrs f cbs xs ys :
  appends f → steps log_grows (minimize_loop n k nrs f cbs xs ys).
Proof.
  intros Hf. revert xs ys. induction n as [| n IH]; intros xs ys; simpl; steps.
Qed.

Hint Resolve log_grows_minimize_loop : steps.

Lemma log_grows_base_minimize k f kw :
  appends f → steps log_grows (base_minimize k f kw).
Proof. intros Hf. unfold base_minimize. steps. Qed.

Lemma log_grows_run opt f n : appends f → steps log_grows (run opt f n).
Proof.
  intros Hf. unfold run. generalize (Z.to_nat n) as k. intros k. revert opt.
  induction k as [| k IH]; intros opt; simpl; steps.
Qed.

Lemma log_grows_dump_each rs sn i : steps log_grows (dump_each rs sn i).
Proof. revert i. induction rs as [| r rs IH]; intros i; simpl; steps. Qed.

Hint Resolve log_grows_base_minimize log_grows_run log_grows_dump_each
  : steps.

Lemma log_grows_driver f a fuel :
  appends f → steps log_grows (Bayesian_optimization f a fuel).
Proof.
  intros Hf.
  unfold Bayesian_optimization, dispatch, minimizer_stringa, bind_stringa,
    print_banner, local_variable,
    dummy_plain, dummy_save_once, dummy_save, dummy_early, dummy_save_early,
    forest_plain, forest_save_once, forest_save, forest_early,
    forest_save_early, gp_plain, gp_save_once, gp_save, gp_early,
    gp_save_early, restore, new_saver, saver_of, early_stopper,
    tell_initial, flag_if_early, call_minimize, call_run, dump_BO, load_BO,
    plot_if.
  steps.
Qed.
End Log.

Section Log_theorem.
Context `{Collaborators}.

(** X7.  Driven by the objective of an optimizer, a run only appends to
    the iteration log: the records that were there stay, in order, at the
    front. *)
Theorem driver_only_appends_to_the_log
    (self : Optimizer) (a : bo_args) (fuel : nat) (w : World) :
  _iterations w
    `prefix_of`
  _iterations (Bayesian_optimization (_objective_function self) a fuel w).2.
Proof. apply (log_grows_driver _ a fuel (objective_appends self) w). Qed.
End Log_theorem.

(* ===================================================================== *)
(** * The budget of a plain run *)
(* ===================================================================== *)

(** Without checkpoints, early stopping and initial points every branch of
    the driver runs one chunk of [number_of_call] calls per trial.  The run
    returns when the dictionary holds what the banner reads, the library
    accepts the number of random starts, and the objective answers every
    candidate the sampler proposes; this is proved with triples of total
    correctness. *)

Section Total.
Context `{Collaborators}.

Lemma thoare_bind {A B} (Pre : World → Prop) (Mid : A → World → Prop)
    (Post : B → World → Prop) (m : M A) (k : A → M B) :
  thoare Pre m Mid → (∀ x, thoare (Mid x) (k x) Post) →
  thoare Pre (bind m k) Post.
Proof.
  intros Hm Hk w Hw. destruct (Hm w Hw) as (x & w1 & Hrun & Hmid).
  destruct (Hk x w1 Hmid) as (y & w2 & Hrun' & Hpost).
  exists y, w2. split; [| done]. unfold bind. by rewrite Hrun.
Qed.

Lemma thoare_ret {A} (Pre : World → Prop) (Post : A → World → Prop) x :
  (∀ w, Pre w → Post x w) → thoare Pre (ret x) Post.
Proof. intros HP w Hw. exists x, w. split; [done | by apply HP]. Qed.

Lemma thoare_conseq {A} (Pre Pre' : World → Prop)
    (Post Post' : A → World → Prop) (m : M A) :
  (∀ w, Pre' w → Pre w) → (∀ x w, Post x w → Post' x w) →
  thoare Pre m Post → thoare Pre' m Post'.
Proof.
  intros HPre HPost Hm w Hw.
  destruct (Hm w (HPre w Hw)) as (x & w' & Hrun & Hp). eauto.
Qed.

Lemma thoare_lift {A} (Pre : World → Prop) (o : outcome A) x :
  o = Ok x → thoare Pre (lift o) (λ y w, y = x ∧ Pre w).
Proof. intros -> w Hw. by exists x, w. Qed.

Lemma thoare_for_loop {St} (I : nat → St → World → Prop) lo len
    (body : nat → St → M St) s :
  (∀ i s, (lo ≤ i < lo + len)%nat → thoare (I i s) (body i s) (I (S i))) →
  thoare (I lo s) (for_loop (seq lo len) body s) (I (lo + len)%nat).
Proof.
  revert lo s. induction len as [| len IH]; intros lo s Hbody; simpl.
  - apply thoare_ret. intros w. by rewrite Nat.add_0_r.
  - eapply thoare_bind; [apply Hbody; lia |]. intros s'.
    replace (lo + S len)%nat with (S lo + len)%nat by lia.
    apply IH. intros i s0 Hi. apply Hbody. lia.
Qed.

Lemma thoare_for_range {St} (I : nat → St → World → Prop) n
    (body : nat → St → M St) s :
  (∀ i s, (i < Z.to_nat n)%nat → thoare (I i s) (body i s) (I (S i))) →
  thoare (I 0%nat s) (for_range n body s) (I (Z.to_nat n)).
Proof.
  intros Hbody. unfold for_range.
  apply (thoare_for_loop I 0 (Z.to_nat n)). intros i s0 Hi. apply Hbody. lia.
Qed.

Lemma thoare_print (Pre : World → Prop) s :
  (∀ w, Pre w → Pre (with_output w s)) →
  thoare Pre (print s) (λ _, Pre).
Proof. intros HP w Hw. exists tt, (with_output w s). split; [done | auto]. Qed.

Lemma thoare_plot_if t L b name :
  thoare (at_ t L) (plot_if b name)
    (λ _ w, ∃ evs, at_ (t ++ evs) L w ∧ Forall (λ e, ¬ is_chunk e) evs).
Proof.
  intros w [Ht HL]. unfold plot_if. destruct b.
  - eexists tt, _. split; [reflexivity |].
    exists [Plot (name +:+ ".png")]. split; [split; simpl; congruence |].
    repeat constructor. simpl. tauto.
  - exists tt, w. split; [done |]. exists []. rewrite app_nil_r.
    by split; [| constructor].
Qed.

(** The sampling loop on an objective that answers every sampled
    candidate: all [n] evaluations run, each leaves one record. *)
Lemma minimize_loop_run n k nrs f (xs : list point) (ys : list Q) w :
  samples_ok f → records_one f →
  length xs = length ys → (0 < n + length xs)%nat →
  ∃ r w', minimize_loop n k nrs f [] xs ys w = (Ok r, w')
          ∧ length (x_iters r) = (length xs + n)%nat
          ∧ trace w' = trace w
          ∧ length (_iterations w') = (length (_iterations w) + n)%nat.
Proof.
  intros Hf Hrec. revert xs ys w.
  induction n as [| n IH]; intros xs ys w Hlen Hpos; simpl.
  - destruct (create_result_Ok xs ys) as (r & Hr & Hx & _).
    + intros ->. simpl in Hpos. lia.
    + intros ->. rewrite Hlen in Hpos. simpl in Hpos. lia.
    + exists r, w. unfold lift. rewrite Hr, Hx.
      split; [done |]. split; [lia |]. split; [done | lia].
  - set (p := ask k nrs xs ys).
    unfold bind at 1, call_objective.
    pose proof (Hf k nrs xs ys (_iterations w)) as Hok. fold p in Hok.
    destruct (f p (_iterations w)) as [[y | |] its] eqn:Hfp;
      simpl in Hok; try done.
    destruct (Hrec p _ y its Hfp) as (rec & ->).
    destruct (create_result_Ok (xs ++ [p]) (ys ++ [y])) as (r & Hr & _);
      [by destruct xs | by destruct ys |].
    unfold bind at 1, lift. rewrite Hr. cbn [eval_callbacks].
    unfold bind at 1, ret.
    match goal with |- context [minimize_loop n k nrs f [] _ _ ?w1] =>
      destruct (IH (xs ++ [p]) (ys ++ [y]) w1) as (r' & w' & Hrun & Hl & Ht & Hi)
    end.
    + rewrite !length_app. simpl. lia.
    + rewrite length_app. simpl. lia.
    + exists r', w'. split; [exact Hrun |].
      rewrite length_app in Hl. simpl in Hl, Ht, Hi.
      rewrite length_app in Hi. simpl in Hi.
      split; [lia |]. split; [done | lia].
Qed.

Lemma run_loop_run n opt f w :
  samples_ok f → records_one f →
  length (Xi opt) = length (yi opt) → (0 < n + length (Xi opt))%nat →
  0 < opt_n_initial_points opt ∨ Xi opt ≠ [] →
  ∃ r w', run_loop n opt f w = (Ok r, w')
          ∧ length (x_iters r) = (length (Xi opt) + n)%nat
          ∧ trace w' = trace w
          ∧ length (_iterations w') = (length (_iterations w) + n)%nat.
Proof.
  intros Hf Hrec. revert opt w.
  induction n as [| n IH]; intros opt w Hlen Hpos Hgo; simpl.
  - destruct (create_result_Ok (Xi opt) (yi opt)) as (r & Hr & Hx & _).
    + intros Hnil. rewrite Hnil in Hpos. simpl in Hpos. lia.
    + intros Hnil. rewrite Hlen, Hnil in Hpos. simpl in Hpos. lia.
    + exists r, w. unfold lift. rewrite Hr, Hx.
      split; [done |]. split; [lia |]. split; [done | lia].
  - set (p := ask gp_minimize (opt_n_initial_points opt) (Xi opt) (yi opt)).
    assert (ask_optimizer opt = Ok p) as Hask.
    { unfold ask_optimizer. destruct Hgo as [Hleft | Htold].
      - by rewrite (proj2 (Z.leb_gt _ _)) by lia.
      - by rewrite bool_decide_eq_false_2, andb_false_r by done. }
    rewrite Hask. unfold bind at 1, lift at 1.
    unfold bind at 1, call_objective.
    pose proof (Hf gp_minimize (opt_n_initial_points opt) (Xi opt) (yi opt)
                  (_iterations w)) as Hok. fold p in Hok.
    destruct (f p (_iterations w)) as [[y | |] its] eqn:Hfp;
      simpl in Hok; try done.
    destruct (Hrec p _ y its Hfp) as (rec & ->).
    unfold bind at 1, lift, tell. simpl.
    match goal with |- context [run_loop n ?opt1 f ?w1] =>
      destruct (IH opt1 w1) as (r' & w' & Hrun & Hl & Ht & Hi)
    end.
    + simpl. rewrite !length_app. simpl. lia.
    + simpl. rewrite length_app. simpl. lia.
    + right. simpl. by destruct (Xi opt).
    + exists r', w'. split; [exact Hrun |]. simpl in Hl, Ht, Hi.
      rewrite length_app in Hl, Hi. simpl in Hl, Hi.
      split; [lia |]. split; [done | lia].
Qed.

Lemma thoare_call_minimize t L k i f kw :
  samples_ok f → records_one f →
  Kw.x0 kw = None → Kw.callback kw = [] → 0 < Kw.n_calls kw →
  check_arguments k kw = Ok tt →
  thoare (at_ t L) (call_minimize k i f kw)
    (λ r w, length (x_iters r) = Z.to_nat (Kw.n_calls kw)
            ∧ at_ (t ++ [Minimize k i kw; Returned i r])
                (L + Z.to_nat (Kw.n_calls kw)) w).
Proof.
  intros Hf Hrec Hx0 Hcb Hn Hchk w [Ht HL].
  unfold call_minimize, base_minimize. rewrite Hx0, Hcb.
  unfold bind at 1, emit. cbn [fst snd]. set (w1 := mk_World _ _ _ _ _).
  destruct (minimize_loop_run (Z.to_nat (Kw.n_calls kw)) k
              (random_starts k kw) f [] [] w1
              Hf Hrec eq_refl) as (r & w2 & Hrun & Hl & Htr & Hi);
    [simpl; lia |].
  unfold bind at 1. rewrite (bind_lift_Ok _ tt) by exact Hchk. cbv zeta.
  rewrite Hrun. unfold bind, emit, ret. simpl.
  eexists r, _. split; [reflexivity |]. split; [done |].
  split; simpl.
  - rewrite Htr. simpl. rewrite Ht, <- app_assoc. done.
  - rewrite Hi. simpl. lia.
Qed.

Lemma thoare_call_run t L i f n a b :
  samples_ok f → records_one f → 0 < n → 0 < b →
  thoare (at_ t L) (call_run i (new_optimizer a b) f n)
    (λ r w, length (x_iters r) = Z.to_nat n
            ∧ at_ (t ++ [GpRun i (new_optimizer a b) n; Returned i r])
                (L + Z.to_nat n) w).
Proof.
  intros Hf Hrec Hn Hb w [Ht HL]. unfold call_run, run.
  unfold bind at 1, emit. cbn [fst snd]. set (w1 := mk_World _ _ _ _ _).
  destruct (run_loop_run (Z.to_nat n) (new_optimizer a b) f w1 Hf Hrec
              eq_refl) as (r & w2 & Hrun & Hl & Htr & Hi);
    [simpl; lia | by left |].
  unfold bind at 1. rewrite Hrun. unfold bind, emit, ret. simpl.
  eexists r, _. split; [reflexivity |]. split; [done |].
  split; simpl.
  - rewrite Htr. simpl. rewrite Ht, <- app_assoc. done.
  - rewrite Hi. simpl. lia.
Qed.
End Total.

Section Plain.
Context `{Collaborators}.
Variable n : Z.

Lemma chunk_sizes_app j (l1 l2 : list event) :
  chunk_sizes j (l1 ++ l2) = chunk_sizes j l1 ++ chunk_sizes j l2.
Proof. unfold chunk_sizes. apply omap_app. Qed.

Lemma chunk_sizes_other j (evs : list event) :
  Forall (λ e, ¬ is_chunk e) evs → chunk_sizes j evs = [].
Proof.
  induction 1 as [| e evs He _ IH]; [done |].
  change (e :: evs) with ([e] ++ evs). rewrite chunk_sizes_app, IH.
  destruct e; simpl in *; tauto.
Qed.

Lemma plain_progress_start t0 L0 w :
  at_ t0 L0 w → plain_progress n t0 L0 0 [] w.
Proof.
  intros [Ht HL]. split; [done |]. split; [constructor |].
  split; [lia |]. exists []. by rewrite app_nil_r.
Qed.

(** One more round: the chunk of trial [i] has run. *)
Lemma plain_progress_round t0 L0 i res w e r w' :
  plain_progress n t0 L0 i res w →
  (chunk_sizes i [e] = [n] ∧ ∀ j, j ≠ i → chunk_sizes j [e] = []) →
  length (x_iters r) = Z.to_nat n →
  at_ (trace w ++ [e; Returned i r])
    (length (_iterations w) + Z.to_nat n) w' →
  plain_progress n t0 L0 (S i) (res ++ [r]) w'.
Proof.
  intros (Hlen & Hall & HL & evs & Ht & Hsz) [Hi Hother] Hr [Ht' HL'].
  split; [rewrite length_app; simpl; lia |].
  split; [apply Forall_app; split; [done | by constructor] |].
  split; [lia |].
  exists (evs ++ [e; Returned i r]).
  split; [by rewrite Ht', Ht, <- app_assoc |].
  intros j. change [e; Returned i r] with ([e] ++ [Returned i r]).
  rewrite !chunk_sizes_app, Hsz.
  change (chunk_sizes j [Returned i r]) with (@nil Z). rewrite app_nil_r.
  destruct (decide (j = i)) as [-> | Hne].
  - rewrite Hi. rewrite bool_decide_eq_false_2 by lia.
    by rewrite bool_decide_eq_true_2 by lia.
  - rewrite (Hother j Hne), app_nil_r.
    do 2 case_bool_decide; try done; lia.
Qed.

Lemma plain_progress_other t0 L0 i res w w' evs :
  plain_progress n t0 L0 i res w →
  at_ (trace w ++ evs) (length (_iterations w)) w' →
  Forall (λ e, ¬ is_chunk e) evs →
  plain_progress n t0 L0 i res w'.
Proof.
  intros (Hlen & Hall & HL & evs0 & Ht & Hsz) [Ht' HL'] Hevs.
  split; [done |]. split; [done |]. split; [lia |].
  exists (evs0 ++ evs). split; [by rewrite Ht', Ht, <- app_assoc |].
  intros j. rewrite chunk_sizes_app, Hsz, (chunk_sizes_other j evs Hevs).
  by rewrite app_nil_r.
Qed.
End Plain.

Section Plain_branches.
Context `{Collaborators}.
Variables (f : objective_t) (a : bo_args).
Hypothesis f_samples : samples_ok f.
Hypothesis f_records : records_one f.
Hypothesis budget_pos : 0 < number_of_call a.

Local Abbreviation K := (Z.to_nat (different_iteration a)).
Local Abbreviation n := (number_of_call a).
Local Abbreviation none_x0 := (@replicate (option (list point)) K None).
Local Abbreviation none_y0 := (@replicate (option (list Q)) K None).

Lemma at_here (w : World) : at_ (trace w) (length (_iterations w)) w.
Proof. by split. Qed.

(** The first pass of [dummy_minimize] and [forest_minimize] without
    checkpoints, early stopping or initial points. *)
Lemma plain_minimize_pass k onrs (cs : list (option callback)) t0 L0 :
  check_arguments k (Kw.mk n onrs None None []) = Ok tt →
  thoare (at_ t0 L0)
    (for_range (different_iteration a) (λ i '(res, checkpoint_saver),
       x0i <- lift (getitem none_x0 i);;
       y0i <- lift (getitem none_y0 i);;
       r <- call_minimize k i f (Kw.mk n onrs x0i y0i []);;
       ret (res ++ [r], checkpoint_saver)) ([], cs))
    (λ st w, plain_progress n t0 L0 K st.1 w).
Proof.
  intros Hchk. eapply thoare_conseq;
    [ | | apply (thoare_for_range
                  (λ i (st : locals) w, plain_progress n t0 L0 i st.1 w)) ].
  - intros w Hw. by apply plain_progress_start.
  - done.
  - intros i [res cs'] Hi w Hprog. simpl in Hprog.
    rewrite (bind_lift_Ok _ None)
      by (unfold getitem; by rewrite lookup_replicate_2).
    rewrite (bind_lift_Ok _ None)
      by (unfold getitem; by rewrite lookup_replicate_2).
    destruct (thoare_call_minimize (trace w) (length (_iterations w)) k i f
                (Kw.mk n onrs None None []) f_samples f_records eq_refl
                eq_refl budget_pos Hchk w (at_here w))
      as (r & w1 & Hrun & Hr & Hat).
    unfold bind at 1. rewrite Hrun. eexists _, w1. split; [reflexivity |].
    simpl. eapply plain_progress_round; [exact Hprog | | exact Hr | exact Hat].
    split.
    + unfold chunk_sizes. simpl. by rewrite bool_decide_eq_true_2.
    + intros j Hj. unfold chunk_sizes. simpl.
      by rewrite bool_decide_eq_false_2.
Qed.

Lemma construct_optimizer_Ok k m :
  0 ≤ k → construct_optimizer k m = Ok (new_optimizer k m).
Proof.
  intros Hk. unfold construct_optimizer. by rewrite (proj2 (Z.ltb_ge _ _)).
Qed.

Lemma plain_gp_pass t0 L0 :
  0 < n_random_starts a →
  thoare (at_ t0 L0)
    (for_range (different_iteration a) (λ i res,
       opt <- lift (construct_optimizer (n_random_starts a)
                      (n_random_starts a));;
       opt <- tell_initial opt none_x0 none_y0 i;;
       r <- call_run i opt f n;;
       ret (res ++ [r])) [])
    (λ res w, plain_progress n t0 L0 K res w).
Proof.
  intros Hstarts. eapply thoare_conseq;
    [ | | apply (thoare_for_range
                  (λ i (res : list OptimizeResult) w,
                     plain_progress n t0 L0 i res w)) ].
  - intros w Hw. by apply plain_progress_start.
  - done.
  - intros i res Hi w Hprog.
    rewrite (bind_lift_Ok _ (new_optimizer (n_random_starts a)
                               (n_random_starts a)))
      by (apply construct_optimizer_Ok; lia).
    unfold tell_initial. unfold bind at 1.
    rewrite (bind_lift_Ok _ None)
      by (unfold getitem; by rewrite lookup_replicate_2).
    unfold ret at 1.
    destruct (thoare_call_run (trace w) (length (_iterations w)) i f n
                (n_random_starts a) (n_random_starts a) f_samples f_records
                budget_pos Hstarts w (at_here w))
      as (r & w1 & Hrun & Hr & Hat).
    unfold bind at 1. rewrite Hrun. eexists _, w1. split; [reflexivity |].
    eapply plain_progress_round; [exact Hprog | | exact Hr | exact Hat].
    split.
    + unfold chunk_sizes. simpl. by rewrite bool_decide_eq_true_2.
    + intros j Hj. unfold chunk_sizes. simpl.
      by rewrite bool_decide_eq_false_2.
Qed.

(** The plot that ends a branch. *)
Lemma plain_progress_plot {A} t0 L0 (res : list OptimizeResult) (x : A)
    (Post : A → World → Prop) :
  (∀ w, plain_progress n t0 L0 K res w → Post x w) →
  thoare (plain_progress n t0 L0 K res)
    (plot_if (plot a) (plot_name a);;; ret x) Post.
Proof.
  intros HPost w Hprog.
  destruct (thoare_plot_if (trace w) (length (_iterations w)) (plot a)
              (plot_name a) w (at_here w))
    as (u & w1 & Hrun & evs & Hat & Hevs).
  unfold bind. rewrite Hrun. exists x, w1. split; [done |].
  apply HPost. by eapply plain_progress_other.
Qed.

Lemma plain_dummy_total cs t0 L0 :
  thoare (at_ t0 L0) (dummy_plain f a none_x0 none_y0 ([], cs))
    (λ st w, plain_progress n t0 L0 K st.1 w).
Proof.
  unfold dummy_plain.
  eapply thoare_bind;
    [apply plain_minimize_pass; by apply check_arguments_dummy |].
  intros st. by apply plain_progress_plot.
Qed.

Lemma plain_forest_total cs t0 L0 :
  0 < n_random_starts a ≤ n →
  thoare (at_ t0 L0) (forest_plain f a none_x0 none_y0 ([], cs))
    (λ st w, plain_progress n t0 L0 K st.1 w).
Proof.
  intros Hstarts. unfold forest_plain.
  eapply thoare_bind;
    [apply plain_minimize_pass; by apply check_arguments_forest |].
  intros st. by apply plain_progress_plot.
Qed.

Lemma plain_gp_total t0 L0 :
  0 < n_random_starts a →
  thoare (at_ t0 L0) (gp_plain f a none_x0 none_y0 [])
    (λ res w, plain_progress n t0 L0 K res w).
Proof.
  intros Hstarts. unfold gp_plain.
  eapply thoare_bind; [by apply plain_gp_pass |]. intros res.
  by apply plain_progress_plot.
Qed.

(** The driver on its plain branches. *)
Lemma plain_driver_total fuel m t0 L0 :
  2 < different_iteration a →
  minimizer a = PMinimizer m → save a = false → early_stop a = false →
  X0 a = [None] → Y0 a = [None] →
  starts_accepted m (n_random_starts a) n →
  thoare (λ w, at_ t0 L0 w ∧ shows_banner (default_parameters w))
    (Bayesian_optimization f a fuel)
    (λ o w, ∃ rs, o = Some rs ∧ plain_progress n t0 L0 K rs w).
Proof.
  intros Hk Hm Hsave Hearly HX HY Hstarts w [Hat Hdef].
  unfold Bayesian_optimization, dispatch.
  destruct (Z.leb_spec (number_of_call a) 0) as [| _]; [lia |].
  destruct (Z.leb_spec (different_iteration a) 2) as [| _]; [lia |].
  rewrite Hm, HX, HY, Hsave, Hearly.
  cbn [is_list_of_None negb andb].
  match goal with
  | |- context [bind (print "------------------------------------------")
                  (λ _, ?rest)] =>
      destruct (banner_Ok rest w Hdef) as (lines & Hbanner)
  end.
  rewrite Hbanner. clear Hbanner. set (w1 := printed w lines).
  assert (at_ t0 L0 w1) as Hat1 by (destruct Hat; by split).
  destruct m; cbn [is_minimizer];
    rewrite ?bool_decide_eq_false_2 by done;
    rewrite ?bool_decide_eq_true_2 by done; cbv iota.
  - destruct (plain_gp_total t0 L0 Hstarts w1 Hat1)
      as (res & w2 & Hrun & Hprog).
    unfold bind, ret. simpl. rewrite Hrun. by exists (Some res), w2; eauto.
  - destruct (plain_forest_total (replicate K None) t0 L0 Hstarts w1 Hat1)
      as ([res cs] & w2 & Hrun & Hprog).
    unfold bind, ret. simpl. rewrite Hrun. by exists (Some res), w2; eauto.
  - destruct (plain_dummy_total (replicate K None) t0 L0 w1 Hat1)
      as ([res cs] & w2 & Hrun & Hprog).
    unfold bind, ret. simpl. rewrite Hrun. by exists (Some res), w2; eauto.
Qed.

(** Random minimizer, no checkpoint, no early stop, no initial points:
    every trial is one chunk of [number_of_call] calls and its history has
    [number_of_call] records. *)
Lemma random_search_spends_the_budget fuel w :
  minimizer a = PMinimizer dummy_minimize →
  save a = false → early_stop a = false →
  X0 a = [None] → Y0 a = [None] →
  2 < different_iteration a →
  shows_banner (default_parameters w) →
  ∃ rs w' evs,
    Bayesian_optimization f a fuel w = (Ok (Some rs), w')
    ∧ length rs = K
    ∧ Forall (λ r, length (x_iters r) = Z.to_nat n) rs
    ∧ trace w' = trace w ++ evs
    ∧ ∀ i, (i < K)%nat → chunk_sizes i evs = [n].
Proof.
  intros Hm Hsave Hearly HX HY Hk Hdef.
  destruct (plain_driver_total fuel dummy_minimize (trace w)
              (length (_iterations w)) Hk Hm Hsave Hearly HX HY I w)
    as (o & w' & Hrun & rs & -> & Hlen & Hall & _ & evs & Ht & Hsz).
  { by split. }
  exists rs, w', evs. split; [exact Hrun |]. split; [exact Hlen |].
  split; [exact Hall |]. split; [exact Ht |].
  intros i Hi. rewrite Hsz. by rewrite bool_decide_eq_true_2.
Qed.
End Plain_branches.

Section Budget_theorem.
Context `{Collaborators}.

(** X8.  A run without checkpoints, early stopping or initial points, on
    an objective that returns a score for every sampled candidate and logs
    one record per evaluation, with a number of random starts that the
    library accepts for the minimizer and a dictionary that holds what the
    banner shows: the run returns one result per trial, every trial is one
    chunk of [number_of_call] calls, its history has [number_of_call]
    evaluations, and the iteration log grows by
    [different_iteration * number_of_call] records. *)
Theorem plain_run_spends_the_budget
    (f : objective_t) (a : bo_args) (fuel : nat) (w : World)
    (m : skopt_minimizer) :
  samples_ok f → records_one f →
  0 < number_of_call a → 2 < different_iteration a →
  minimizer a = PMinimizer m →
  save a = false → early_stop a = false →
  X0 a = [None] → Y0 a = [None] →
  starts_accepted m (n_random_starts a) (number_of_call a) →
  shows_banner (default_parameters w) →
  ∃ rs w' evs,
    Bayesian_optimization f a fuel w = (Ok (Some rs), w')
    ∧ length rs = Z.to_nat (different_iteration a)
    ∧ Forall (λ r, length (x_iters r) = Z.to_nat (number_of_call a)) rs
    ∧ length (_iterations w')
      = (length (_iterations w)
         + Z.to_nat (different_iteration a) * Z.to_nat (number_of_call a))%nat
    ∧ trace w' = trace w ++ evs
    ∧ ∀ i, (i < Z.to_nat (different_iteration a))%nat →
           chunk_sizes i evs = [number_of_call a].
Proof.
  intros Hf Hrec Hn Hk Hm Hsave Hearly HX HY Hstarts Hdef.
  destruct (plain_driver_total f a Hf Hrec Hn fuel m (trace w)
              (length (_iterations w)) Hk Hm Hsave Hearly HX HY Hstarts w)
    as (o & w' & Hrun & rs & -> & Hlen & Hall & HL & evs & Ht & Hsz).
  { by split. }
  exists rs, w', evs. split; [exact Hrun |]. split; [exact Hlen |].
  split; [exact Hall |]. split; [exact HL |]. split; [exact Ht |].
  intros i Hi. rewrite Hsz. by rewrite bool_decide_eq_true_2.
Qed.
End Budget_theorem.

Lemma initial_defaults_show_banner (m : skopt_minimizer) :
  shows_banner (default_parameters (Demo.world_with m)).
Proof.
  split; [by exists m |]. repeat (constructor; [by eexists |]). constructor.
Qed.

Lemma plain_run_spends_the_budget_witness :
  let a := @mk_bo_args Demo.collaborators (PMinimizer forest_minimize) 10 3
             [None] [None] 10 false 1 "partial_result" false 10 false
             "Bayesian optimization plot" in
  let w := Demo.world_with forest_minimize in
  ∃ rs w' evs,
    Bayesian_optimization Demo.objective a 0 w = (Ok (Some rs), w')
    ∧ length rs = 3%nat
    ∧ Forall (λ r, length (x_iters r) = 10%nat) rs
    ∧ length (_iterations w') = 30%nat
    ∧ trace w' = trace w ++ evs
    ∧ ∀ i, (i < 3)%nat → chunk_sizes i evs = [10].
Proof.
  intros a w.
  apply (plain_run_spends_the_budget Demo.objective a 0 w forest_minimize);
    [ intros k nrs xs ys its; exact I
    | intros p its y its' [= _ <-]; by eexists
    | reflexivity | reflexivity | reflexivity | reflexivity | reflexivity
    | reflexivity | reflexivity
    | split; [reflexivity | intros Hgt; discriminate Hgt]
    | apply initial_defaults_show_banner ].
Defined.

(* ===================================================================== *)
(** * The report of [optimize] *)
(* ===================================================================== *)

Section Report.
Context `{Collaborators}.

Lemma objective_records_one self : records_one (_objective_function self).
Proof.
  intros p its y its'. unfold _objective_function.
  destruct (evaluate self p) as [[result mv] | e |]; [| done ..].
  destruct (is_Maximize _); intros [= _ <-]; by eexists.
Qed.

Lemma restore_sign_lengths ot (rs : list OptimizeResult) k :
  Forall (λ r, length (x_iters r) = k) rs →
  ∃ rs', restore_sign ot (Some rs) = Ok (Some rs')
         ∧ length rs' = length rs
         ∧ Forall (λ r, length (x_iters r) = k) rs'.
Proof.
  intros Hall. unfold restore_sign. destruct (is_Maximize ot).
  - exists (negate_result <$> rs). split; [done |].
    split; [by rewrite length_fmap |].
    apply Forall_fmap. eapply Forall_impl; [exact Hall |]. by intros r.
  - by exists rs.
Qed.

Lemma default_parameter_Ok key w v w' :
  default_parameter key w = (Ok v, w') →
  default_parameters w !! key = Some v ∧ w' = w.
Proof.
  unfold default_parameter. destruct (_ !! _); by intros [= -> ->].
Qed.

(** When the arguments have been read, the dictionary holds the minimizer
    that was read and what the banner shows. *)
Lemma read_arguments_shows_banner w a w' :
  read_arguments w = (Ok a, w') →
  default_parameters w !! "minimizer" = Some (minimizer a)
  ∧ Forall (λ key, is_Some (default_parameters w !! key))
      ["n_calls"; "different_iteration"; "n_random_starts"; "acq_func";
       "kernel"].
Proof.
  unfold read_arguments. intros Hrun.
  repeat match type of Hrun with
         | bind (default_parameter _) _ _ = _ =>
             let Hread := fresh "Hread" in
             apply bind_Ok in Hrun as (? & ? & Hread & Hrun);
             apply default_parameter_Ok in Hread as [Hread ->]
         | bind (lift _) _ _ = _ =>
             let Hread := fresh "Hconv" in
             apply bind_Ok in Hrun as (? & ? & Hread & Hrun);
             apply lift_Ok in Hread as [Hread ->]
         end.
  apply ret_Ok in Hrun as [-> _]. split; [done |].
  repeat (constructor; [by eexists |]). constructor.
Qed.
End Report.

Section Report_theorem.
Context `{Collaborators}.

(** X16.  [optimize] on a configuration without checkpoints, early
    stopping or initial points, with a number of random starts that the
    library accepts for the minimizer, and an objective that answers
    every sampled candidate: the call returns a report that names the
    hyper-parameters in sorted order and the class of the metric, holds
    one result per trial with [n_calls] evaluations each, and a log of
    [different_iteration * n_calls] records, whatever the log held
    before. *)
Theorem optimize_reports_every_trial self fuel w a em ot m :
  default_parameters (configured self w) !! "extra_metrics" = Some em →
  default_parameters (configured self w) !! "optimization_type" = Some ot →
  read_arguments (configured self w) = (Ok a, configured self w) →
  minimizer a = PMinimizer m → save a = false → early_stop a = false →
  X0 a = [None] → Y0 a = [None] →
  0 < number_of_call a → 2 < different_iteration a →
  starts_accepted m (n_random_starts a) (number_of_call a) →
  samples_ok (_objective_function (prepared self em ot)) →
  (∀ rs, print_func_vals (Some rs) = Ok tt) →
  ∃ b w' rs,
    optimize self fuel w = (Ok b, w')
    ∧ params_names b = sorted_keys (search_space self)
    ∧ optimized_metric b = class_name (metric self)
    ∧ optimized_result b = Some rs
    ∧ length rs = Z.to_nat (different_iteration a)
    ∧ Forall (λ r, length (x_iters r) = Z.to_nat (number_of_call a)) rs
    ∧ length (iters b)
      = (Z.to_nat (different_iteration a) * Z.to_nat (number_of_call a))%nat.
Proof.
  intros Hem Hot Hargs Hm Hsave Hearly HX HY Hn Hk Hstarts Hf Hprint.
  destruct (read_arguments_shows_banner _ _ _ Hargs) as [Hmin Hkeys].
  destruct (plain_driver_total (_objective_function (prepared self em ot)) a
              Hf (objective_records_one _) Hn fuel m (trace w) 0
              Hk Hm Hsave Hearly HX HY Hstarts (configured self w))
    as (o & w1 & Hrun & rs & -> & Hlen & Hall & HL & _).
  { split; [by split |]. split; [| exact Hkeys].
    exists m. by rewrite Hmin, Hm. }
  destruct (restore_sign_lengths ot rs _ Hall) as (rs' & Hsign & Hlen' & Hall').
  eexists _, w1, rs'. unfold optimize, bind at 1 2. cbn.
  fold (configured self w).
  unfold bind at 1, default_parameter at 1. rewrite Hem.
  unfold bind at 1, default_parameter at 1. rewrite Hot.
  unfold bind at 1. rewrite Hargs.
  unfold bind at 1. rewrite Hrun.
  unfold bind at 1, lift at 1. rewrite Hsign.
  unfold bind at 1, lift at 1. rewrite Hprint.
  unfold bind, get_iterations, ret. simpl.
  split; [reflexivity |]. do 3 (split; [reflexivity |]).
  split; [lia |]. split; [done |]. cbn [iters]. rewrite HL. reflexivity.
Qed.
End Report_theorem.

Lemma plain_search_samples_ok :
  @samples_ok Demo.collaborators
    (_objective_function
       (prepared Demo.plain_search (PMetrics []) (PStr "Maximize"))).
Proof.
  intros k nrs xs ys its.
  change (ask k nrs xs ys) with [HInt (Z.of_nat (length xs))].
  generalize (Z.of_nat (length xs)). intros z.
  unfold _objective_function, evaluate, retrieve_params.
  replace (hyperparameters _) with ["x"] by (vm_compute; reflexivity).
  cbn -[pretty gmap_partial_alter gmap_lookup gmap_empty].
  unfold score_model.
  cbn -[pretty gmap_partial_alter gmap_lookup gmap_empty].
  rewrite lookup_insert_eq.
  cbn -[pretty gmap_partial_alter gmap_lookup gmap_empty].
  destruct (bool_decide (pretty z = "0")); [exact I |].
  destruct (bool_decide (pretty z = "1")); exact I.
Qed.

Lemma optimize_reports_every_trial_witness :
  ∃ b w' rs,
    optimize Demo.plain_search 0 initial_world = (Ok b, w')
    ∧ params_names b = ["x"]
    ∧ optimized_metric b = "Coherence"
    ∧ optimized_result b = Some rs
    ∧ length rs = 3%nat
    ∧ Forall (λ r, length (x_iters r) = 4%nat) rs
    ∧ length (iters b) = 12%nat.
Proof.
  apply (optimize_reports_every_trial Demo.plain_search 0 initial_world
           (@mk_bo_args Demo.collaborators (PMinimizer forest_minimize) 4 3
              [None] [None] 2 false 1 "partial_result" false 10 false
              "Bayesian optimization plot")
           (PMetrics []) (PStr "Maximize") forest_minimize);
    [ vm_compute; reflexivity | vm_compute; reflexivity
    | vm_compute; reflexivity
    | reflexivity | reflexivity | reflexivity | reflexivity | reflexivity
    | reflexivity | reflexivity
    | split; [reflexivity | intros Hgt; discriminate Hgt]
    | exact plain_search_samples_ok
    | intros rs; reflexivity ].
Defined.

(* ===================================================================== *)
(** * The candidate handed to the objective *)
(* ===================================================================== *)

Section Candidate.
Context `{Collaborators}.

Lemma set_params_short lo len names (values : list hval) params :
  (lo ≤ length values < lo + len)%nat → (lo + len ≤ length names)%nat →
  set_params (seq lo len) names values params = Raise IndexError.
Proof.
  revert lo params. induction len as [| len IH]; intros lo params Hv Hn;
    [lia |]. simpl. unfold getitem.
  destruct (names !! lo) as [name |] eqn:Hname;
    [| apply lookup_ge_None in Hname; lia]. simpl.
  destruct (values !! lo) as [v |] eqn:Hval; simpl.
  - apply lookup_lt_Some in Hval. apply IH; lia.
  - done.
Qed.

Lemma set_params_surplus idx names (values extra : list hval) params :
  (∀ i, i ∈ idx → i < length values)%nat →
  set_params idx names (values ++ extra) params
  = set_params idx names values params.
Proof.
  revert params. induction idx as [| i idx IH]; intros params Hidx; [done |].
  simpl. destruct (getitem names i) as [name | |]; simpl; try done.
  unfold getitem. rewrite lookup_app_l by (apply Hidx; by left).
  destruct (values !! i) as [v |]; simpl; [| done].
  apply IH. intros j Hj. apply Hidx. by right.
Qed.

Lemma short_candidate self (p : list hval) its :
  (length p < length (hyperparameters self))%nat →
  _objective_function self p its = (Raise IndexError, its).
Proof.
  intros Hlen. unfold _objective_function, evaluate, retrieve_params.
  rewrite (set_params_short 0); [done | lia | lia].
Qed.

Lemma surplus_values self (p extra : list hval) :
  (length (hyperparameters self) ≤ length p)%nat →
  evaluate self (p ++ extra) = evaluate self p.
Proof.
  intros Hlen. unfold evaluate, retrieve_params.
  rewrite set_params_surplus; [done |].
  intros i Hi%elem_of_seq. lia.
Qed.
End Candidate.

Section Candidate_theorem.
Context `{Collaborators}.

(** X9.  A candidate with fewer values than there are hyper-parameter
    names makes the objective raise [IndexError]; nothing is recorded. *)
Theorem short_candidate_is_rejected
    (self : Optimizer) (p : list hval) (its : list iteration) :
  (length p < length (hyperparameters self))%nat →
  _objective_function self p its = (Raise IndexError, its).
Proof. apply short_candidate. Qed.

(** X10.  The objective reads a candidate by position, up to the number
    of hyper-parameter names: values beyond it change neither the outcome
    nor the score. *)
Theorem surplus_values_are_ignored
    (self : Optimizer) (p extra : list hval) (its : list iteration) :
  (length (hyperparameters self) ≤ length p)%nat →
  (_objective_function self (p ++ extra) its).1
  = (_objective_function self p its).1.
Proof.
  intros Hlen. unfold _objective_function.
  rewrite (surplus_values self p extra Hlen).
  destruct (evaluate self p) as [[result metrics_values] | e |]; [| done ..].
  by destruct (is_Maximize _).
Qed.
End Candidate_theorem.

Lemma short_candidate_is_rejected_witness :
  _objective_function Demo.optimizer [HReal (1 # 2)] []
  = (Raise IndexError, []).
Proof.
  apply (short_candidate_is_rejected Demo.optimizer [HReal (1 # 2)] []).
  simpl. lia.
Defined.

Lemma surplus_values_are_ignored_witness :
  (_objective_function Demo.optimizer
     ([HReal (1 # 2); HInt 7] ++ [HInt 99]) []).1
  = (_objective_function Demo.optimizer [HReal (1 # 2); HInt 7] []).1.
Proof.
  apply (surplus_values_are_ignored Demo.optimizer [HReal (1 # 2); HInt 7]
           [HInt 99] []).
  simpl. lia.
Defined.

(* ===================================================================== *)
(** * What the checkpoint files hold after a run *)
(* ===================================================================== *)

Section Hoare.
Context `{Collaborators}.

Lemma hoare_bind {A B} (Pre : World → Prop) (Mid : A → World → Prop)
    (Post : B → World → Prop) (m : M A) (k : A → M B) :
  hoare Pre m Mid → (∀ x, hoare (Mid x) (k x) Post) →
  hoare Pre (bind m k) Post.
Proof.
  intros Hm Hk w y w' HPre. unfold bind. specialize (Hm w).
  destruct (m w) as [[x | e |] w1]; try done. intros Hrun.
  eapply Hk; [| exact Hrun]. by eapply Hm.
Qed.

Lemma hoare_any {A} (Pre : World → Prop) (m : M A) :
  hoare Pre m (λ _ _, True).
Proof. done. Qed.

Lemma hoare_ret {A} (Pre : World → Prop) (Post : A → World → Prop) x :
  (∀ w, Pre w → Post x w) → hoare Pre (ret x) Post.
Proof. intros HP w y w' HPre [= <- <-]. by apply HP. Qed.

Lemma hoare_same_files {A} sn res (m : M A) :
  steps same_files m →
  hoare (checkpointed_in sn res) m (λ _, checkpointed_in sn res).
Proof.
  intros Hm w x w' Hpre Hrun j r Hj. specialize (Hm w). rewrite Hrun in Hm.
  unfold same_files in Hm. simpl in Hm. rewrite Hm. by apply Hpre.
Qed.

Lemma hoare_while {St} (I : St → World → Prop) fuel
    (body : Z → St → M (Z * St)) r s :
  (∀ r s, hoare (I s) (body r s) (λ rs, I rs.2)) →
  hoare (I s) (while_calls_left fuel body r s) I.
Proof.
  intros Hbody. revert r s.
  induction fuel as [| fuel IH]; intros r s; simpl.
  - destruct (r >? 0); [by intros w x w' | by apply hoare_ret].
  - destruct (r >? 0); [| by apply hoare_ret].
    eapply hoare_bind; [apply Hbody |]. intros [r' s']. apply IH.
Qed.

Lemma hoare_dump_BO (Pre : World → Prop) res sn :
  hoare Pre (dump_BO res sn) (λ _, checkpointed_in sn res).
Proof.
  intros w x w' _. unfold dump_BO, bind at 1, emit. simpl.
  set (w1 := mk_World _ _ _ _ _).
  destruct (dump_each_files res sn 0 w1) as (w2 & Hrun & Hfiles).
  rewrite Hrun. intros [= ? <-]. exact Hfiles.
Qed.

(** The end of a pass of a Gaussian-process branch: the results are dumped,
    the plot is drawn. *)
Lemma hoare_dump_and_plot {B} (Pre : World → Prop) a res
    (k : list string → B) (Post : B → World → Prop) :
  (∀ cs w, checkpointed_in (save_name a) res w → Post (k cs) w) →
  hoare Pre
    (checkpoint_saver <- dump_BO res (save_name a);;
     plot_if (plot a) (plot_name a);;;
     ret (k checkpoint_saver)) Post.
Proof.
  intros HPost. eapply hoare_bind; [apply hoare_dump_BO |]. intros cs.
  eapply hoare_bind;
    [apply hoare_same_files, same_files_plot_if |]. intros u.
  apply hoare_ret. intros w. apply HPost.
Qed.
End Hoare.

Section Gp_files.
Context `{Collaborators}.
Variables (f : objective_t) (a : bo_args) (fuel : nat).
Variables (x0 : list (option (list point))) (y0 : list (option (list Q))).

Local Abbreviation saved := (checkpointed_in (save_name a)).
Local Abbreviation anywhere := (λ _ : World, True).

Lemma files_gp_save_once res :
  hoare anywhere (gp_save_once f a x0 y0 res) saved.
Proof.
  unfold gp_save_once. eapply hoare_bind; [apply hoare_any |].
  intros res'. by apply (hoare_dump_and_plot _ a res' (λ _, res')).
Qed.

Lemma files_gp_save res :
  hoare anywhere (gp_save f a fuel x0 y0 res) saved.
Proof.
  unfold gp_save. eapply hoare_bind; [apply hoare_any |]. intros res'.
  eapply hoare_bind; [apply hoare_dump_BO |]. intros cs.
  eapply hoare_bind;
    [apply hoare_same_files, same_files_plot_if |]. intros u.
  eapply hoare_bind;
    [ apply (hoare_while (λ (st : list OptimizeResult * list string) w,
                            saved st.1 w) fuel _ _ (res', cs))
    | intros st; by apply hoare_ret ].
  intros r [res2 cs2].
  destruct (r >=? save_step a);
    (eapply hoare_bind; [apply hoare_any |]); intros partial_res;
    (eapply hoare_bind; [apply hoare_any |]); intros res3;
    by apply (hoare_dump_and_plot _ a res3 (λ cs, (_, (res3, cs)))).
Qed.

Lemma files_gp_early res :
  hoare anywhere (gp_early f a fuel x0 y0 res) saved.
Proof.
  unfold gp_early. eapply hoare_bind; [apply hoare_any |].
  intros [res' flags].
  eapply hoare_bind; [apply hoare_dump_BO |]. intros cs.
  eapply hoare_bind;
    [apply hoare_same_files, same_files_plot_if |]. intros u.
  eapply hoare_bind;
    [ apply (hoare_while
               (λ (st : list OptimizeResult * list bool * list string) w,
                  saved st.1.1 w) fuel _ _ (res', flags, cs))
    | intros st; by apply hoare_ret ].
  intros r [[res2 flags2] cs2].
  destruct (r >=? early_step a);
    (eapply hoare_bind; [apply hoare_any |]); intros partial_res;
    (eapply hoare_bind; [apply hoare_any |]); intros [res3 flags3];
    by apply (hoare_dump_and_plot _ a res3 (λ cs, (_, (res3, flags3, cs)))).
Qed.
End Gp_files.

Section Gp_driver_files.
Context `{Collaborators}.

Lemma gp_checkpoints_hoare f a fuel :
  minimizer a = PMinimizer gp_minimize →
  save a || early_stop a = true →
  save a && early_stop a && negb (saves_once a) = false →
  hoare (λ _, True) (Bayesian_optimization f a fuel)
    (λ o w, ∀ rs, o = Some rs → checkpointed_in (save_name a) rs w).
Proof.
  intros Hm Hany Hcfg. unfold Bayesian_optimization, dispatch.
  rewrite Hm. cbn [is_minimizer].
  rewrite !bool_decide_eq_false_2 by done.
  rewrite bool_decide_eq_true_2 by done. cbv iota.
  fold (saves_once a).
  destruct (number_of_call a <=? 0).
  { eapply hoare_bind; [apply hoare_any |]. intros u.
    by apply hoare_ret. }
  destruct (different_iteration a <=? 2).
  { eapply hoare_bind; [apply hoare_any |]. intros u.
    by apply hoare_ret. }
  cbv zeta. do 5 (eapply hoare_bind; [apply hoare_any |]; intros ?).
  eapply (hoare_bind _ (λ (st : locals) w,
                          checkpointed_in (save_name a) st.1 w));
    [| intros st; apply hoare_ret; by intros w Hst rs [= <-]].
  destruct (save a), (early_stop a), (saves_once a);
    try discriminate Hcfg; try discriminate Hany; cbn [negb andb orb];
    (eapply hoare_bind;
       [ first [ apply files_gp_save_once | apply files_gp_save
               | apply files_gp_early ]
       | intros res; by apply hoare_ret ]).
Qed.
End Gp_driver_files.

Section Hoare_more.
Context `{Collaborators}.

Lemma hoare_conseq {A} (Pre Pre' : World → Prop)
    (Post Post' : A → World → Prop) (m : M A) :
  (∀ w, Pre' w → Pre w) → (∀ x w, Post x w → Post' x w) →
  hoare Pre m Post → hoare Pre' m Post'.
Proof. intros HPre HPost Hm w x w' Hw Hrun. eapply HPost, Hm; eauto. Qed.

Lemma hoare_for_loop {St} (I : nat → St → World → Prop) lo len
    (body : nat → St → M St) s :
  (∀ i s, (lo ≤ i < lo + len)%nat → hoare (I i s) (body i s) (I (S i))) →
  hoare (I lo s) (for_loop (seq lo len) body s) (I (lo + len)%nat).
Proof.
  revert lo s. induction len as [| len IH]; intros lo s Hbody; simpl.
  - apply hoare_ret. intros w. by rewrite Nat.add_0_r.
  - eapply hoare_bind; [apply Hbody; lia |]. intros s'.
    replace (lo + S len)%nat with (S lo + len)%nat by lia.
    apply IH. intros i s0 Hi. apply Hbody. lia.
Qed.

Lemma hoare_for_range {St} (I : nat → St → World → Prop) n
    (body : nat → St → M St) s :
  (∀ i s, (i < Z.to_nat n)%nat → hoare (I i s) (body i s) (I (S i))) →
  hoare (I 0%nat s) (for_range n body s) (I (Z.to_nat n)).
Proof.
  intros Hbody. unfold for_range.
  apply (hoare_for_loop I 0 (Z.to_nat n)). intros i s0 Hi. apply Hbody. lia.
Qed.

(** Code that leaves the files alone and whose value satisfies [Φ]. *)
Lemma hoare_pure {A} (Φ : A → Prop) sn res (m : M A) :
  steps same_files m → returns Φ m →
  hoare (checkpointed_in sn res) m (λ x w, Φ x ∧ checkpointed_in sn res w).
Proof.
  intros Hm HΦ w x w' Hpre Hrun. split; [by eapply HΦ |].
  by eapply (hoare_same_files sn res m Hm).
Qed.

(** A chunk of trial [i] whose only callback is the saver of the trial
    leaves the result it returns in the checkpoint of the trial, and the
    checkpoints of the earlier trials as they are. *)
Lemma hoare_saved_chunk sn (res : list OptimizeResult) i k f kw :
  length res = i →
  Kw.callback kw = [CheckpointSaver (checkpoint_name sn i)] →
  hoare (checkpointed_in sn res) (call_minimize k i f kw)
    (λ r, checkpointed_in sn (res ++ [r])).
Proof.
  intros Hlen Hcb w r w' Hpre. unfold call_minimize, bind at 1, emit.
  cbn [fst snd]. set (w1 := mk_World _ _ _ _ _).
  unfold bind at 1.
  destruct (base_minimize k f kw w1) as [[r1 | e |] w2] eqn:Hrun; try done.
  unfold bind, emit, ret. simpl. intros [= <- <-]. intros j r Hj. simpl.
  apply lookup_app_Some in Hj as [Hj | [Hge Hj]].
  - pose proof (keeps_base_minimize (resolve (checkpoint_name sn j)) k f kw)
      as Hkeep.
    specialize (Hkeep ltac:(
      intros p Hp; rewrite Hcb in Hp; apply list_elem_of_singleton in Hp;
      injection Hp as ->; intros Heq%checkpoint_file_inj;
      apply lookup_lt_Some in Hj; lia) w1).
    unfold keeps in Hkeep. rewrite Hrun in Hkeep. simpl in Hkeep.
    rewrite Hkeep. by apply Hpre.
  - destruct (j - length res)%nat as [| d] eqn:Hd; [| done].
    injection Hj as <-. assert (j = i) as -> by lia.
    eapply base_minimize_saves; [exact Hrun |]. rewrite Hcb. by left.
Qed.
End Hoare_more.

Section Saved_once.
Context `{Collaborators}.
Variables (f : objective_t) (a : bo_args).
Variables (x0 : list (option (list point))) (y0 : list (option (list Q))).

Local Abbreviation saved := (checkpointed_in (save_name a)).

(** The rounds of a branch that saves in one chunk. *)
Lemma files_save_once_rounds k (nrs : option Z) st :
  st.1 = [] →
  hoare (λ _, True)
    (for_range (different_iteration a) (λ i '(res, checkpoint_saver),
       checkpoint_saver <- new_saver a checkpoint_saver i;;
       x0i <- lift (getitem x0 i);;
       y0i <- lift (getitem y0 i);;
       saver <- saver_of checkpoint_saver i;;
       r <- call_minimize k i f
              (Kw.mk (number_of_call a) nrs x0i y0i [saver]);;
       ret (res ++ [r], checkpoint_saver)) st)
    (λ st w, saved st.1 w).
Proof.
  intros Hst.
  eapply hoare_conseq;
    [ | | apply (hoare_for_range
                  (λ i (st : locals) w, length st.1 = i ∧ saved st.1 w)) ].
  - intros w _. rewrite Hst. split; [done |]. intros j r Hj.
    by rewrite lookup_nil in Hj.
  - intros st' w [_ Hs]. exact Hs.
  - intros i [res cs] Hi. simpl.
    intros w st' w' [Hlen Hpre].
    unfold new_saver, setitem. case_bool_decide as Hlt;
      [| by unfold bind, raise].
    unfold bind at 1, ret. cbn [fst snd].
    unfold bind at 1, lift. destruct (getitem x0 i) as [x0i | |]; try done.
    unfold bind at 1. destruct (getitem y0 i) as [y0i | |]; try done.
    unfold saver_of, bind at 1, bind at 1, lift, getitem.
    rewrite list_lookup_insert_eq by done. unfold ret at 1.
    unfold bind at 1.
    destruct (call_minimize k i f _ w) as [[r | e |] w1] eqn:Hrun; try done.
    unfold ret. intros [= <- <-]. simpl. split; [len_done |].
    eapply (hoare_saved_chunk (save_name a) res i k f); [done | | done | exact Hrun].
    done.
Qed.

Lemma files_dummy_save_once st :
  st.1 = [] →
  hoare (λ _, True) (dummy_save_once f a x0 y0 st) (λ st w, saved st.1 w).
Proof.
  intros Hst. unfold dummy_save_once.
  eapply hoare_bind; [by apply files_save_once_rounds |]. intros st'.
  eapply hoare_bind;
    [apply hoare_same_files, same_files_plot_if |]. intros u.
  by apply hoare_ret.
Qed.

Lemma files_forest_save_once st :
  st.1 = [] →
  hoare (λ _, True) (forest_save_once f a x0 y0 st) (λ st w, saved st.1 w).
Proof.
  intros Hst. unfold forest_save_once.
  eapply hoare_bind; [by apply files_save_once_rounds |]. intros st'.
  eapply hoare_bind;
    [apply hoare_same_files, same_files_plot_if |]. intros u.
  by apply hoare_ret.
Qed.
End Saved_once.

Section Saved_once_driver.
Context `{Collaborators}.

Lemma hoare_ret_bind {A B} (Pre : World → Prop) (Post : B → World → Prop)
    (v : A) (k : A → M B) :
  hoare Pre (k v) Post → hoare Pre (bind (ret v) k) Post.
Proof. intros Hk w x w' Hpre Hrun. exact (Hk w x w' Hpre Hrun). Qed.

Lemma saves_once_hoare f a fuel :
  saves_once a = true →
  hoare (λ _, True) (Bayesian_optimization f a fuel)
    (λ o w, ∀ rs, o = Some rs → checkpointed_in (save_name a) rs w).
Proof.
  intros Honce. unfold Bayesian_optimization, dispatch. fold (saves_once a).
  rewrite Honce.
  assert (save a = true) as Hsave.
  { unfold saves_once in Honce.
    by destruct (save a); rewrite ?andb_false_r in Honce. }
  rewrite Hsave. cbn [negb andb].
  destruct (number_of_call a <=? 0).
  { eapply hoare_bind; [apply hoare_any |]. intros u. by apply hoare_ret. }
  destruct (different_iteration a <=? 2).
  { eapply hoare_bind; [apply hoare_any |]. intros u. by apply hoare_ret. }
  cbv zeta. do 3 (eapply hoare_bind; [apply hoare_any |]; intros ?).
  assert (∀ st : locals,
            hoare (λ w, checkpointed_in (save_name a) st.1 w)
              (ret (Some st.1))
              (λ o w, ∀ rs, o = Some rs
                            → checkpointed_in (save_name a) rs w)) as Hend.
  { intros st. apply hoare_ret. by intros w Hw rs [= <-]. }
  destruct (minimizer a) as [| | | | | m | | | |];
    try (cbn [is_minimizer]; do 3 apply hoare_ret_bind;
         apply hoare_ret; intros w _ rs [= <-] j r Hj;
         by rewrite lookup_nil in Hj).
  destruct m; cbn [is_minimizer];
    rewrite ?bool_decide_eq_false_2 by done;
    rewrite ?bool_decide_eq_true_2 by done; cbv iota;
    repeat apply hoare_ret_bind.
  - eapply (hoare_bind _ (λ (st : locals) w,
                            checkpointed_in (save_name a) st.1 w)).
    + eapply hoare_bind; [apply files_gp_save_once |].
      intros res. apply hoare_ret. intros w Hw. exact Hw.
    + intros st. by apply Hend.
  - eapply (hoare_bind _ (λ (st : locals) w,
                            checkpointed_in (save_name a) st.1 w)).
    + by apply files_forest_save_once.
    + intros st. apply hoare_ret_bind. by apply Hend.
  - eapply (hoare_bind _ (λ (st : locals) w,
                            checkpointed_in (save_name a) st.1 w)).
    + by apply files_dummy_save_once.
    + intros st. do 2 apply hoare_ret_bind. by apply Hend.
Qed.
End Saved_once_driver.

Section Checkpoint_theorems.
Context `{Collaborators}.

(** X11.  When the checkpoint interval covers the whole budget (the
    second arm of the chain), a run that returns leaves, for every trial,
    the result it returns in the checkpoint file of the trial, under each
    of the three minimizers. *)
Theorem single_chunk_checkpoints_hold_the_results
    (f : objective_t) (a : bo_args) (fuel : nat) (w w' : World)
    (rs : list OptimizeResult) :
  saves_once a = true →
  Bayesian_optimization f a fuel w = (Ok (Some rs), w') →
  ∀ j r, rs !! j = Some r →
    files w' !! resolve (checkpoint_name (save_name a) j) = Some r.
Proof.
  intros Honce Hrun.
  by apply (saves_once_hoare f a fuel Honce w (Some rs) w' I Hrun rs).
Qed.

(** X12.  With the Gaussian-process minimizer, when checkpoints or early
    stopping are on (and not both with more than one chunk), a run that
    returns leaves every trial's final result in the checkpoint file of
    the trial; this includes early stopping with [save] off. *)
Theorem gp_checkpoints_hold_the_results
    (f : objective_t) (a : bo_args) (fuel : nat) (w w' : World)
    (rs : list OptimizeResult) :
  minimizer a = PMinimizer gp_minimize →
  save a || early_stop a = true →
  save a && early_stop a && negb (saves_once a) = false →
  Bayesian_optimization f a fuel w = (Ok (Some rs), w') →
  ∀ j r, rs !! j = Some r →
    files w' !! resolve (checkpoint_name (save_name a) j) = Some r.
Proof.
  intros Hm Hany Hcfg Hrun.
  by apply (gp_checkpoints_hoare f a fuel Hm Hany Hcfg w (Some rs) w' I
              Hrun rs).
Qed.
End Checkpoint_theorems.

Lemma single_chunk_checkpoints_hold_the_results_witness :
  let a := @mk_bo_args Demo.collaborators (PMinimizer forest_minimize) 2 3
             [None] [None] 1 true 5 "partial_result" false 10 false
             "Bayesian optimization plot" in
  let run := Bayesian_optimization Demo.objective a 5
               (Demo.world_with forest_minimize) in
  match run.1 with
  | Ok (Some rs) =>
      length rs = 3%nat
      ∧ ∀ j r, rs !! j = Some r →
          files run.2 !! resolve (checkpoint_name "partial_result" j)
          = Some r
  | _ => False
  end.
Proof.
  intros a run.
  destruct (run.1) as [[rs |] | e |] eqn:Ho;
    try (vm_compute in Ho; discriminate Ho).
  assert (run = (Ok (Some rs), run.2)) as Hrun
    by (rewrite <- Ho; apply surjective_pairing).
  split.
  - assert (Ho' := Ho). vm_compute in Ho'. injection Ho' as <-. reflexivity.
  - apply (single_chunk_checkpoints_hold_the_results Demo.objective a 5
             (Demo.world_with forest_minimize) run.2 rs eq_refl
             Hrun).
Defined.

Lemma gp_checkpoints_hold_the_results_witness :
  let a := @mk_bo_args Demo.collaborators (PMinimizer gp_minimize) 4 3
             [None] [None] 1 false 2 "partial_result" true 2 false
             "Bayesian optimization plot" in
  let run := Bayesian_optimization Demo.objective a 5
               (Demo.world_with gp_minimize) in
  match run.1 with
  | Ok (Some rs) =>
      length rs = 3%nat
      ∧ ∀ j r, rs !! j = Some r →
          files run.2 !! resolve (checkpoint_name "partial_result" j)
          = Some r
  | _ => False
  end.
Proof.
  intros a run.
  destruct (run.1) as [[rs |] | e |] eqn:Ho;
    try (vm_compute in Ho; discriminate Ho).
  assert (run = (Ok (Some rs), run.2)) as Hrun
    by (rewrite <- Ho; apply surjective_pairing).
  split.
  - assert (Ho' := Ho). vm_compute in Ho'. injection Ho' as <-. reflexivity.
  - apply (gp_checkpoints_hold_the_results Demo.objective a 5
             (Demo.world_with gp_minimize) run.2 rs eq_refl eq_refl eq_refl
             Hrun).
Defined.

(* ===================================================================== *)
(** * The embedding scores *)
(* ===================================================================== *)

Lemma slice_to_idem {A} k (l : list A) :
  0 ≤ k → slice_to k (slice_to k l) = slice_to k l.
Proof.
  intros Hk. unfold slice_to. rewrite (proj2 (Z.leb_le 0 k)) by done.
  rewrite take_take. f_equal. lia.
Qed.

Lemma slice_to_nil {A} k (l : list A) :
  0 < k → slice_to k l = [] ↔ l = [].
Proof.
  intros Hk. unfold slice_to. rewrite (proj2 (Z.leb_le 0 k)) by lia.
  destruct l as [| x l]; [by rewrite take_nil |].
  destruct (Z.to_nat k) as [| n] eqn:Hn; [lia |]. done.
Qed.

Lemma slice_to_guard {A} k (l : list A) :
  0 ≤ k →
  (k >? Z.of_nat (length (slice_to k l))) = (k >? Z.of_nat (length l)).
Proof.
  intros Hk. unfold slice_to. rewrite (proj2 (Z.leb_le 0 k)) by done.
  rewrite length_take.
  destruct (Z.gtb_spec k (Z.of_nat (length l)));
    destruct (Z.gtb_spec k (Z.of_nat (Z.to_nat k `min` length l))); lia.
Qed.

Section Embedding_facts.
Variables (F vec : Type).
Variable in_vocab : string → bool.
Variable np_mean : list F → F.
Variable normalize : vec → vec.
Variable sum_pairwise_distances : list vec → outcome F.
Variable fdiv : F → Z → F.
Variable fadd : F → F → F.
Variable fzero : F.

Lemma local_simi_slice similarity k topic :
  0 ≤ k →
  local_simi F in_vocab similarity k (slice_to k topic)
  = local_simi F in_vocab similarity k topic.
Proof. intros Hk. unfold local_simi. by rewrite slice_to_idem. Qed.

Lemma arrays_slice similarity k topics :
  0 < k →
  arrays F in_vocab similarity np_mean k (slice_to k <$> topics)
  = arrays F in_vocab similarity np_mean k topics.
Proof.
  intros Hk. unfold arrays. induction topics as [| topic topics IH]; [done |].
  cbn [fmap list_fmap omap list_omap]. rewrite IH.
  rewrite local_simi_slice by lia.
  destruct topic as [| x topic]; [by rewrite (proj2 (slice_to_nil k [] Hk)) |].
  destruct (slice_to k (x :: topic)) eqn:Hs; [| done].
  by apply slice_to_nil in Hs.
Qed.

Lemma word_embeddings_truncation similarity topics k :
  0 < k →
  word_embeddings_score F in_vocab similarity np_mean
    (slice_to k <$> topics) k
  = word_embeddings_score F in_vocab similarity np_mean topics k.
Proof.
  intros Hk. unfold word_embeddings_score.
  destruct topics as [| t0 topics]; [done |].
  rewrite fmap_cons. cbv beta iota. rewrite slice_to_guard by lia.
  destruct (k >? Z.of_nat (length t0)); [done |].
  rewrite <- fmap_cons. by rewrite arrays_slice.
Qed.

Lemma local_simi_vocabulary sim sim' k topic :
  (∀ w1 w2, in_vocab w1 = true → in_vocab w2 = true →
            sim w1 w2 = sim' w1 w2) →
  local_simi F in_vocab sim k topic = local_simi F in_vocab sim' k topic.
Proof.
  intros Hsim. unfold local_simi.
  induction (combinations2 (slice_to k topic)) as [| [w1 w2] l IH]; [done |].
  cbn [omap list_omap fst snd]. rewrite IH.
  destruct (in_vocab w1) eqn:H1, (in_vocab w2) eqn:H2; try done.
  cbn [andb]. by rewrite Hsim.
Qed.

Lemma embeddings_vocabulary (get get' : string → vec) k topic :
  (∀ w, in_vocab w = true → get w = get' w) →
  embeddings vec in_vocab get normalize k topic
  = embeddings vec in_vocab get' normalize k topic.
Proof.
  intros Hget. unfold embeddings.
  induction (slice_to k topic) as [| w l IH]; [done |].
  cbn [omap list_omap]. rewrite IH.
  destruct (in_vocab w) eqn:Hw; [| done]. by rewrite Hget.
Qed.

Lemma pairwise_loop_slice getitem_wv k topics result :
  0 ≤ k →
  pairwise_loop F vec in_vocab getitem_wv normalize sum_pairwise_distances
    fdiv fadd k (slice_to k <$> topics) result
  = pairwise_loop F vec in_vocab getitem_wv normalize sum_pairwise_distances
      fdiv fadd k topics result.
Proof.
  intros Hk. revert result.
  induction topics as [| topic topics IH]; intros result; [done |].
  cbn [fmap list_fmap pairwise_loop]. unfold embeddings.
  rewrite slice_to_idem by done.
  destruct (sum_pairwise_distances _) as [d | e |]; simpl; [| done ..].
  apply IH.
Qed.

Lemma pairwise_truncation getitem_wv topics k :
  0 ≤ k →
  pairwise_score F vec in_vocab getitem_wv normalize sum_pairwise_distances
    fdiv fadd fzero (slice_to k <$> topics) k
  = pairwise_score F vec in_vocab getitem_wv normalize sum_pairwise_distances
      fdiv fadd fzero topics k.
Proof.
  intros Hk. unfold pairwise_score.
  destruct topics as [| t0 topics]; [done |].
  rewrite fmap_cons. cbv beta iota. rewrite slice_to_guard by done.
  destruct (k >? Z.of_nat (length t0)); [done |].
  rewrite <- fmap_cons. rewrite pairwise_loop_slice by done.
  by rewrite length_fmap.
Qed.

(** X13.  [Coherence_word_embeddings.score] depends on the first [topk]
    words of each topic only: two lists of topics that agree on them give
    the same score, or the same exception. *)
Theorem word_embeddings_score_reads_the_first_topk_words
    (similarity : string → string → F) (topics topics' : list (list string))
    (topk : Z) :
  0 < topk →
  slice_to topk <$> topics = slice_to topk <$> topics' →
  word_embeddings_score F in_vocab similarity np_mean topics topk
  = word_embeddings_score F in_vocab similarity np_mean topics' topk.
Proof.
  intros Hk Heq.
  rewrite <- (word_embeddings_truncation similarity topics topk Hk).
  rewrite <- (word_embeddings_truncation similarity topics' topk Hk).
  by rewrite Heq.
Qed.

(** X14.  [Coherence_word_embeddings_pairwise.score] depends on the first
    [topk] words of each topic only. *)
Theorem pairwise_score_reads_the_first_topk_words
    (getitem_wv : string → vec) (topics topics' : list (list string))
    (topk : Z) :
  0 ≤ topk →
  slice_to topk <$> topics = slice_to topk <$> topics' →
  pairwise_score F vec in_vocab getitem_wv normalize sum_pairwise_distances
    fdiv fadd fzero topics topk
  = pairwise_score F vec in_vocab getitem_wv normalize
      sum_pairwise_distances fdiv fadd fzero topics' topk.
Proof.
  intros Hk Heq.
  rewrite <- (pairwise_truncation getitem_wv topics topk Hk).
  rewrite <- (pairwise_truncation getitem_wv topics' topk Hk).
  by rewrite Heq.
Qed.

(** X15.  The two scores never look up a word that is not in the
    vocabulary: [similarity] is asked for pairs of vocabulary words only,
    and [__getitem__] for vocabulary words only, so the scores are the
    same for any two models that agree on the vocabulary. *)
Theorem embedding_scores_look_up_vocabulary_words_only
    (sim sim' : string → string → F) (get get' : string → vec)
    (topics : list (list string)) (topk : Z) :
  (∀ w1 w2, in_vocab w1 = true → in_vocab w2 = true →
            sim w1 w2 = sim' w1 w2) →
  (∀ w, in_vocab w = true → get w = get' w) →
  word_embeddings_score F in_vocab sim np_mean topics topk
  = word_embeddings_score F in_vocab sim' np_mean topics topk
  ∧ pairwise_score F vec in_vocab get normalize sum_pairwise_distances
      fdiv fadd fzero topics topk
    = pairwise_score F vec in_vocab get' normalize sum_pairwise_distances
        fdiv fadd fzero topics topk.
Proof.
  intros Hsim Hget. split.
  - unfold word_embeddings_score.
    destruct topics as [| t0 topics']; [done |].
    destruct (topk >? Z.of_nat (length t0)); [done |]. do 2 f_equal.
    unfold arrays. induction (t0 :: topics') as [| topic l IH]; [done |].
    cbn [omap list_omap]. rewrite IH.
    by rewrite (local_simi_vocabulary sim sim' topk topic Hsim).
  - unfold pairwise_score.
    destruct topics as [| t0 topics']; [done |].
    destruct (topk >? Z.of_nat (length t0)); [done |]. f_equal.
    generalize fzero. induction (t0 :: topics') as [| topic l IH];
      intros result; [done |].
    cbn [pairwise_loop].
    rewrite (embeddings_vocabulary get get' topk topic Hget).
    destruct (sum_pairwise_distances _) as [d | e |]; simpl; [| done ..].
    apply IH.
Qed.
End Embedding_facts.

Lemma word_embeddings_score_reads_the_first_topk_words_witness :
  word_embeddings_score Z (λ w, negb (String.eqb w "zzz")) (λ _ _, 1)
    (λ l, Z.of_nat (length l)) [["a"; "b"; "c"]; ["d"; "zzz"; "e"]] 2
  = word_embeddings_score Z (λ w, negb (String.eqb w "zzz")) (λ _ _, 1)
      (λ l, Z.of_nat (length l)) [["a"; "b"; "x"; "y"]; ["d"; "zzz"]] 2.
Proof.
  apply (word_embeddings_score_reads_the_first_topk_words Z
           (λ w, negb (String.eqb w "zzz")) (λ l, Z.of_nat (length l))
           (λ _ _, 1) [["a"; "b"; "c"]; ["d"; "zzz"; "e"]]
           [["a"; "b"; "x"; "y"]; ["d"; "zzz"]] 2);
    [lia | reflexivity].
Defined.

Lemma pairwise_score_reads_the_first_topk_words_witness :
  pairwise_score Z string (λ w, negb (String.eqb w "zzz")) (λ w, w)
    (λ v, v) (λ E, Ok (Z.of_nat (length E))) Z.div Z.add 0
    [["a"; "b"; "c"]; ["d"; "zzz"; "e"]] 2
  = pairwise_score Z string (λ w, negb (String.eqb w "zzz")) (λ w, w)
      (λ v, v) (λ E, Ok (Z.of_nat (length E))) Z.div Z.add 0
      [["a"; "b"; "x"; "y"]; ["d"; "zzz"]] 2.
Proof.
  apply (pairwise_score_reads_the_first_topk_words Z string
           (λ w, negb (String.eqb w "zzz")) (λ v, v)
           (λ E, Ok (Z.of_nat (length E))) Z.div Z.add 0 (λ w, w)
           [["a"; "b"; "c"]; ["d"; "zzz"; "e"]]
           [["a"; "b"; "x"; "y"]; ["d"; "zzz"]] 2);
    [lia | reflexivity].
Defined.

Lemma embedding_scores_look_up_vocabulary_words_only_witness :
  let in_vocab := λ w, negb (String.eqb w "zzz") in
  let topics := [["a"; "zzz"; "b"]; ["zzz"; "c"]] in
  word_embeddings_score Z in_vocab (λ _ _, 1) (λ l, Z.of_nat (length l))
    topics 2
  = word_embeddings_score Z in_vocab
      (λ w1 w2, if String.eqb w1 "zzz" || String.eqb w2 "zzz" then 0 else 1)
      (λ l, Z.of_nat (length l)) topics 2
  ∧ pairwise_score Z string in_vocab (λ w, w) (λ v, v)
      (λ E, Ok (Z.of_nat (length E))) Z.div Z.add 0 topics 2
    = pairwise_score Z string in_vocab
        (λ w, if String.eqb w "zzz" then "" else w) (λ v, v)
        (λ E, Ok (Z.of_nat (length E))) Z.div Z.add 0 topics 2.
Proof.
  intros in_vocab topics.
  apply (embedding_scores_look_up_vocabulary_words_only Z string in_vocab
           (λ l, Z.of_nat (length l)) (λ v, v)
           (λ E, Ok (Z.of_nat (length E))) Z.div Z.add 0).
  - intros w1 w2 H1 H2. unfold in_vocab in H1, H2.
    apply negb_true_iff in H1, H2. by rewrite H1, H2.
  - intros w Hw. unfold in_vocab in Hw. apply negb_true_iff in Hw.
    by rewrite Hw.
Defined.

